(** * Nahara's WAV encoder: a shallow embedding of the RIFF container codec,
    the WAVE chunk codecs and the coding-mode layer, with the properties of
    the specification stated and settled against the code.

    Layout of the development:
    - [Platform]: the part of the JavaScript platform the code relies on
      (bytes, [Blob.slice], typed-array views, UTF-8 text, completions);
    - [riff]: [src/riff/riff.ts] ([decodeRiff], [encodeRiff]);
    - [wave]: the chunk codecs [fmt], [list], [data] and [waveCodec];
    - [wav]: [dtypes], [decodeWav] and [encodeWav];
    - [vocabulary] and [behaviour]: the words of the statements;
    - the lemmas and the theorems about them: first the properties of the
      specification (C1 to C10), then further properties of the code (X1
      to X24). *)

From Stdlib Require Import String Ascii Strings.Byte.
From Stdlib Require Import ZArith List Bool Lia.
From Stdlib Require Import SpecFloat.
Import ListNotations.

Local Open Scope Z_scope.

(* ===================================================================== *)
(** * The platform                                                         *)
(* ===================================================================== *)

Module Platform.

(** ** Completions

    A JavaScript computation returns a value, throws, or does not return.
    [Error] carries the message of [new Error(msg)]; [RangeError] and
    [TypeError] are the exceptions raised by the platform itself (a typed
    array over a buffer of the wrong length, a property read on
    [undefined]). [Hang] is a loop that has not finished within the fuel
    it was given. *)

(** A JavaScript string: the list of its UTF-16 code units. [length] is the
    [.length] of the string. *)
Definition jsstring := list Z.

Inductive exn : Type :=
| Error (msg : jsstring)
| RangeError
| TypeError.

Inductive result (A : Type) : Type :=
| Return (a : A)
| Throw (e : exn)
| Hang.

Arguments Return {A} a.
Arguments Throw {A} e.
Arguments Hang {A}.

Definition bind {A B} (m : result A) (k : A -> result B) : result B :=
  match m with
  | Return a => k a
  | Throw e => Throw e
  | Hang => Hang
  end.

Notation "x <- m ;; k" := (bind m (fun x => k))
  (at level 61, m at next level, right associativity).
Notation "' pat <- m ;; k" := (bind m (fun x => match x with pat => k end))
  (at level 61, pat pattern, m at next level, right associativity).

(** ** Bytes and little-endian integers *)

Definition b2z (b : byte) : Z := Z.of_N (Byte.to_N b).

Definition z2b (z : Z) : byte :=
  match Byte.of_N (Z.to_N (z mod 256)) with
  | Some b => b
  | None => x00
  end.

(** The bytes of the [w]-byte little-endian integer [z mod 2^(8w)]: what a
    typed array of [w]-byte integers stores for the number [z]. *)
Fixpoint z2le (w : nat) (z : Z) : list byte :=
  match w with
  | O => []
  | S w' => z2b z :: z2le w' (z / 256)
  end.

(** The unsigned integer a little-endian byte sequence stands for. *)
Fixpoint le2z (bs : list byte) : Z :=
  match bs with
  | [] => 0
  | b :: rest => b2z b + 256 * le2z rest
  end.

(** ** Blobs *)

Definition Blob := list byte.

Definition size (b : Blob) : Z := Z.of_nat (length b).

(** [Blob.slice] turns each bound into an offset inside the blob: a negative
    bound counts from the end, and both are clamped to [0, size]. *)
Definition relative (sz i : Z) : Z :=
  if i <? 0 then Z.max (sz + i) 0 else Z.min i sz.

Definition slice (b : Blob) (start stop : Z) : Blob :=
  let relativeStart := relative (size b) start in
  let relativeEnd := relative (size b) stop in
  let span := Z.max (relativeEnd - relativeStart) 0 in
  firstn (Z.to_nat span) (skipn (Z.to_nat relativeStart) b).

(** ** Typed-array views over a buffer

    [new Uint16Array(buffer)] and [new Uint32Array(buffer)] throw a
    [RangeError] unless the byte length is a multiple of the element size;
    the elements are read in the byte order of the platform, little-endian
    here. *)
Fixpoint elements (fuel : nat) (w : nat) (buf : list byte) : list Z :=
  match fuel with
  | O => []
  | S fuel' =>
      match buf with
      | [] => []
      | _ => le2z (firstn w buf) :: elements fuel' w (skipn w buf)
      end
  end.

Definition typedView (w : nat) (buf : list byte) : result (list Z) :=
  if (Z.of_nat (length buf) mod Z.of_nat w =? 0)
  then Return (elements (length buf) w buf)
  else Throw RangeError.

Definition Uint16Array_view := typedView 2.
Definition Uint32Array_view := typedView 4.

(** [new Uint16Array([a, b])] and [new Uint32Array([a, b])] as blob parts:
    every number is stored modulo the element width. *)
Definition Uint16Array_of (l : list Z) : list byte := flat_map (z2le 2) l.
Definition Uint32Array_of (l : list Z) : list byte := flat_map (z2le 4) l.

(** ** Strings *)

(** A string literal of the source, all of whose characters are ASCII. *)
Definition lit (s : string) : jsstring :=
  map (fun a => Z.of_N (N_of_ascii a)) (list_ascii_of_string s).

Arguments lit s%_string.

Fixpoint str_eqb (a b : jsstring) : bool :=
  match a, b with
  | [], [] => true
  | x :: a', y :: b' => (x =? y) && str_eqb a' b'
  | _, _ => false
  end.

Definition is_high (c : Z) : bool := (0xD800 <=? c) && (c <=? 0xDBFF).
Definition is_low (c : Z) : bool := (0xDC00 <=? c) && (c <=? 0xDFFF).

(** The scalar values of a string (conversion to a [USVString]): a
    surrogate pair is one code point, a lone surrogate becomes U+FFFD. *)
Fixpoint code_points (s : jsstring) : list Z :=
  match s with
  | [] => []
  | c :: t =>
      if is_high c then
        match t with
        | d :: t' =>
            if is_low d
            then (0x10000 + (c - 0xD800) * 0x400 + (d - 0xDC00)) :: code_points t'
            else 0xFFFD :: code_points t
        | [] => [0xFFFD]
        end
      else if is_low c then 0xFFFD :: code_points t
      else c :: code_points t
  end.

Definition utf8_of_code_point (cp : Z) : list byte :=
  if cp <? 0x80 then [z2b cp]
  else if cp <? 0x800 then
    [z2b (Z.lor 0xC0 (Z.shiftr cp 6)); z2b (Z.lor 0x80 (Z.land cp 0x3F))]
  else if cp <? 0x10000 then
    [z2b (Z.lor 0xE0 (Z.shiftr cp 12));
     z2b (Z.lor 0x80 (Z.land (Z.shiftr cp 6) 0x3F));
     z2b (Z.lor 0x80 (Z.land cp 0x3F))]
  else
    [z2b (Z.lor 0xF0 (Z.shiftr cp 18));
     z2b (Z.lor 0x80 (Z.land (Z.shiftr cp 12) 0x3F));
     z2b (Z.lor 0x80 (Z.land (Z.shiftr cp 6) 0x3F));
     z2b (Z.lor 0x80 (Z.land cp 0x3F))].

(** The bytes of a string inside a [Blob] and the output of
    [TextEncoder.encode]: its UTF-8 encoding. *)
Definition utf8_encode (s : jsstring) : list byte :=
  flat_map utf8_of_code_point (code_points s).

(** The UTF-8 decoder of the Encoding standard, with replacement: the state
    is the code point being assembled, the number of continuation bytes
    still needed and the range allowed for the next byte. *)
Definition utf8_state : Type := (Z * nat * Z * Z)%type.

Definition utf8_lead (x : Z) : list Z * option utf8_state :=
  if x <=? 0x7F then ([x], None)
  else if (0xC2 <=? x) && (x <=? 0xDF) then
    ([], Some (Z.land x 0x1F, 1%nat, 0x80, 0xBF))
  else if (0xE0 <=? x) && (x <=? 0xEF) then
    ([], Some (Z.land x 0xF, 2%nat,
               (if x =? 0xE0 then 0xA0 else 0x80),
               (if x =? 0xED then 0x9F else 0xBF)))
  else if (0xF0 <=? x) && (x <=? 0xF4) then
    ([], Some (Z.land x 0x7, 3%nat,
               (if x =? 0xF0 then 0x90 else 0x80),
               (if x =? 0xF4 then 0x8F else 0xBF)))
  else ([0xFFFD], None).

Fixpoint utf8_decode (bs : list byte) (st : option utf8_state) : list Z :=
  match bs with
  | [] => match st with None => [] | Some _ => [0xFFFD] end
  | b :: rest =>
      let x := b2z b in
      match st with
      | Some (cp, needed, lower, upper) =>
          if (lower <=? x) && (x <=? upper) then
            let cp' := Z.lor (Z.shiftl cp 6) (Z.land x 0x3F) in
            match needed with
            | S (S n) => utf8_decode rest (Some (cp', S n, 0x80, 0xBF))
            | _ => cp' :: utf8_decode rest None
            end
          else
            (* the byte is put back and read again as a lead byte *)
            0xFFFD :: (let '(out, st') := utf8_lead x in out ++ utf8_decode rest st')
      | None => let '(out, st') := utf8_lead x in out ++ utf8_decode rest st'
      end
  end.

Definition utf16_of_code_point (cp : Z) : list Z :=
  if cp <? 0x10000 then [cp]
  else [0xD800 + Z.shiftr (cp - 0x10000) 10; 0xDC00 + Z.land (cp - 0x10000) 0x3FF].

Definition strip_bom (bs : list byte) : list byte :=
  match bs with
  | b0 :: b1 :: b2 :: rest =>
      if (b2z b0 =? 0xEF) && (b2z b1 =? 0xBB) && (b2z b2 =? 0xBF) then rest else bs
  | _ => bs
  end.

(** [Blob.text()]: UTF-8 decode, a leading byte order mark removed. *)
Definition text (b : Blob) : jsstring :=
  flat_map utf16_of_code_point (utf8_decode (strip_bom b) None).

(** ** Numbers in messages *)

Definition digit_char (d : Z) : Z :=
  if d <? 10 then 48 + d else 97 + (d - 10).

Fixpoint digits (fuel : nat) (radix n : Z) (acc : jsstring) : jsstring :=
  match fuel with
  | O => acc
  | S fuel' =>
      let acc' := digit_char (n mod radix) :: acc in
      if n / radix =? 0 then acc' else digits fuel' radix (n / radix) acc'
  end.

(** [n.toString(radix)] for a non-negative integer [n]. *)
Definition toString (radix n : Z) : jsstring :=
  digits (S (Z.to_nat (Z.log2 n))) radix n [].

(** [s.padStart(n, "0")]. *)
Definition padStart0 (n : nat) (s : jsstring) : jsstring :=
  repeat 48 (n - length s) ++ s.

Definition hex2 (n : Z) : jsstring := padStart0 2 (toString 16 n).

(** ** 32-bit integer operators

    [>>] and [<<] convert their left operand to a signed 32-bit integer
    and give a signed 32-bit integer. *)
Definition ToInt32 (z : Z) : Z := (z + 2 ^ 31) mod 2 ^ 32 - 2 ^ 31.
Definition sar (a n : Z) : Z := Z.shiftr (ToInt32 a) n.
Definition shl (a n : Z) : Z := ToInt32 (Z.shiftl (ToInt32 a) n).

(** ** Counted loops

    [for (let i = 0; i < n; i++) body], the state threaded through the
    iterations. *)
Fixpoint for_ {S : Type} (n i : nat) (body : nat -> S -> result S) (s : S)
  : result S :=
  match n with
  | O => Return s
  | Datatypes.S n' => s' <- body i s ;; for_ n' (Datatypes.S i) body s'
  end.

End Platform.

Import Platform.

(* ===================================================================== *)
(** * The RIFF container: [src/riff/riff.ts]                               *)
(* ===================================================================== *)

Module riff.

(** The RIFF file header ([RIFF]). *)
Definition riff : list byte := [x52; x49; x46; x46].

(** A [BlobPart] is a string, a [Blob], or an [ArrayBuffer] or a view of
    one; inside a blob each contributes its bytes. *)
Inductive BlobPart : Type :=
| PartString (s : jsstring)
| PartBlob (b : Blob)
| PartBuffer (bytes : list byte).

Definition partBytes (p : BlobPart) : list byte :=
  match p with
  | PartString s => utf8_encode s
  | PartBlob b => b
  | PartBuffer bytes => bytes
  end.

(** [new Blob(parts)]. *)
Definition newBlob (parts : list BlobPart) : Blob := flat_map partBytes parts.

(** Represent RIFF chunk: the one attribute every chunk has is its [id]. *)
Class RiffChunk (T : Type) := { id : T -> jsstring }.

(** Represent unknown RIFF chunk. *)
Record UnknownRiffChunk := { unknown_id : jsstring; data : BlobPart }.

#[global] Instance UnknownRiffChunk_chunk : RiffChunk UnknownRiffChunk :=
  {| id := unknown_id |}.

(** Represent RIFF file. *)
Record RiffFile (T : Type) := {
  type : jsstring;
  content : list T;
  unknowns : list UnknownRiffChunk
}.

Arguments type {T} _.
Arguments content {T} _.
Arguments unknowns {T} _.

(** Represent a codec for encoding or decoding a particular RIFF chunk. *)
Record RiffChunkCodec (T : Type) := {
  encode : T -> result Blob;
  decode : Blob -> result T
}.

Arguments encode {T} _ _.
Arguments decode {T} _ _.

(** A record of [RiffChunkCodec T], each associated with an [id]. The
    argument of [decodeRiff] and [encodeRiff] is optional: [None] is a
    call without registry. *)
Definition RiffChunkCodecs (T : Type) := jsstring -> option (RiffChunkCodec T).

(** [codecs?.[id]]. *)
Definition lookup {T} (codecs : option (RiffChunkCodecs T)) (i : jsstring)
  : option (RiffChunkCodec T) :=
  match codecs with
  | Some registry => registry i
  | None => None
  end.

(** The first element of a typed array, as in [const [size] = array]:
    [None] is [undefined], the array being empty. *)
Definition first (l : list Z) : option Z := nth_error l 0.

Definition headerMessage (i : nat) (expected found : byte) : jsstring :=
  lit "Invalid RIFF header (expecting file[" ++ toString 10 (Z.of_nat i)
  ++ lit "] == 0x" ++ hex2 (b2z expected)
  ++ lit ", but found 0x" ++ hex2 (b2z found) ++ lit ")".

(** The loop over [riff] of the header validation, from index [i] on, with
    [n] indices left. [fileRiff[i]] is [undefined] past the end of the
    file: it differs from [riff[i]], and building the message then fails on
    [undefined.toString]. *)
Fixpoint validate (n i : nat) (fileRiff : list byte) : result unit :=
  match n with
  | O => Return tt
  | S n' =>
      match nth_error riff i with
      | None => Return tt
      | Some expected =>
          match nth_error fileRiff i with
          | Some found =>
              if negb (b2z expected =? b2z found)
              then Throw (Error (headerMessage i expected found))
              else validate n' (S i) fileRiff
          | None => Throw TypeError
          end
      end
  end.

Section Decode.

Context {T : Type}.
Variable codecs : option (RiffChunkCodecs T).

(** The [while (pointer < contentRaw.size)] loop. When the size field is
    absent ([subchunkSize] is [undefined]) the end of the payload slice
    is [NaN], which [slice] takes for 0, and [pointer] becomes [NaN]: the
    record is stored and the loop test fails. *)
Fixpoint walk (fuel : nat) (contentRaw : Blob) (pointer : Z)
         (content : list T) (unknowns : list UnknownRiffChunk)
  : result (list T * list UnknownRiffChunk) :=
  match fuel with
  | O => Hang
  | S fuel' =>
      if pointer <? size contentRaw then
        let id := text (slice contentRaw pointer (pointer + 4)) in
        sizes <- Uint32Array_view (slice contentRaw (pointer + 4) (pointer + 8)) ;;
        match first sizes with
        | Some subchunkSize =>
            let subchunkRaw :=
              slice contentRaw (pointer + 8) (pointer + 8 + subchunkSize) in
            let pointer := pointer + (subchunkSize + 8) in
            match lookup codecs id with
            | Some codec =>
                data <- decode codec subchunkRaw ;;
                walk fuel' contentRaw pointer (content ++ [data]) unknowns
            | None =>
                walk fuel' contentRaw pointer content
                     (unknowns ++ [{| unknown_id := id; data := PartBlob subchunkRaw |}])
            end
        | None =>
            let subchunkRaw := slice contentRaw (pointer + 8) 0 in
            match lookup codecs id with
            | Some codec =>
                data <- decode codec subchunkRaw ;;
                Return (content ++ [data], unknowns)
            | None =>
                Return (content,
                        unknowns ++ [{| unknown_id := id; data := PartBlob subchunkRaw |}])
            end
        end
      else Return (content, unknowns)
  end.

(** Decode RIFF file. [validateHeader] is the option of
    [RiffDecodeOptions], [true] when the caller leaves it out. An absent
    container size ([undefined]) makes the end of [contentRaw] [NaN],
    which [slice] takes for 0. *)
Definition decodeRiff (blob : Blob) (validateHeader : bool) : result (RiffFile T) :=
  _ <- (if validateHeader
        then validate (length riff) 0 (slice blob 0 (size riff))
        else Return tt) ;;
  sizes <- Uint32Array_view (slice blob 4 8) ;;
  let type := text (slice blob 8 12) in
  let contentRaw :=
    match first sizes with
    | Some size => slice blob 12 (size + 8)
    | None => slice blob 12 0
    end in
  '(content, unknowns) <- walk (S (length contentRaw)) contentRaw 0 [] [] ;;
  Return {| type := type; content := content; unknowns := unknowns |}.

End Decode.

Section Encode.

Context {T : Type} `{RiffChunk T}.
Variable codecs : option (RiffChunkCodecs T).

(** The loop over [file.content]. *)
Fixpoint encodeContent (chunks : list T) (parts : list BlobPart)
  : result (list BlobPart) :=
  match chunks with
  | [] => Return parts
  | chunkData :: rest =>
      if negb (length (id chunkData) =? 4)%nat then
        Throw (Error (lit "Chunk ID must have a length of 4 (found '"
                      ++ id chunkData ++ lit "')"))
      else
        match lookup codecs (id chunkData) with
        | None =>
            Throw (Error (lit "No chunk codec for '" ++ id chunkData ++ lit "'"))
        | Some codec =>
            chunk <- encode codec chunkData ;;
            encodeContent rest
              (parts ++ [PartString (id chunkData);
                         PartBuffer (Uint32Array_of [size chunk]);
                         PartBlob chunk])
        end
  end.

(** The byte length of the data of an unknown chunk, whichever of the
    three representations it is stored in. *)
Definition dataSize (d : BlobPart) : Z :=
  match d with
  | PartBlob b => size b
  | PartString s => size (newBlob [PartString s])
  | PartBuffer bytes => Z.of_nat (length bytes)
  end.

(** The loop over [file.unknowns]. *)
Fixpoint encodeUnknowns (us : list UnknownRiffChunk) (parts : list BlobPart)
  : list BlobPart :=
  match us with
  | [] => parts
  | u :: rest =>
      let size := dataSize (data u) in
      encodeUnknowns rest
        (parts ++ [PartString (unknown_id u);
                   PartBuffer (Uint32Array_of [size]);
                   data u])
  end.

(** Encode RIFF file. *)
Definition encodeRiff (file : RiffFile T) : result Blob :=
  if negb (length (type file) =? 4)%nat then
    Throw (Error (lit "RIFF type must have a length of 4 (found '"
                  ++ type file ++ lit "')"))
  else
    parts <- encodeContent (content file) [PartString (type file)] ;;
    let parts := encodeUnknowns (unknowns file) parts in
    let contentBlob := newBlob parts in
    Return (newBlob [PartBuffer riff;
                     PartBuffer (Uint32Array_of [size contentBlob]);
                     PartBlob contentBlob]).

End Encode.

End riff.

(* ===================================================================== *)
(** * The WAVE chunk codecs                                                *)
(* ===================================================================== *)

Module wave.

Import riff.

(** [PCM = 0x01], [Floats = 0x03]. *)
Inductive WaveAudioFormat : Type := PCM | Floats.

Definition formatId_of (a : WaveAudioFormat) : Z :=
  match a with
  | PCM => 0x01
  | Floats => 0x03
  end.

(** The [fmt ] chunk. A field is [None] when it is [undefined], which is
    what the decoder leaves in it when the chunk is too short to hold
    it. *)
Record WaveFormatChunk := {
  audioFormat : WaveAudioFormat;
  channels : option Z;
  sampleRate : option Z;
  byteRate : option Z;
  blockAlign : option Z;
  bitsPerChannel : option Z
}.

(** The number a typed array of integers stores for a field: [undefined]
    is stored as 0. *)
Definition stored (field : option Z) : Z :=
  match field with
  | Some z => z
  | None => 0
  end.

Definition fmt_decode (blob : Blob) : result WaveFormatChunk :=
  head <- Uint16Array_view (slice blob 0 4) ;;
  let formatId := nth_error head 0 in
  let channels := nth_error head 1 in
  audioFormat <-
    match formatId with
    | Some 0x01 => Return PCM
    | Some 0x03 => Return Floats
    | Some other =>
        Throw (Error (lit "Unsupported audio data format: 0x" ++ hex2 other))
    | None => Throw TypeError
    end ;;
  rates <- Uint32Array_view (slice blob 4 12) ;;
  let sampleRate := nth_error rates 0 in
  let byteRate := nth_error rates 1 in
  tail <- Uint16Array_view (slice blob 12 16) ;;
  let blockAlign := nth_error tail 0 in
  let bitsPerChannel := nth_error tail 1 in
  Return {| audioFormat := audioFormat;
            channels := channels;
            sampleRate := sampleRate;
            byteRate := byteRate;
            blockAlign := blockAlign;
            bitsPerChannel := bitsPerChannel |}.

Definition fmt_encode (audioFormat channels sampleRate byteRate blockAlign
                       bitsPerChannel : option Z) : result Blob :=
  Return (newBlob
    [PartBuffer (Uint16Array_of [stored audioFormat; stored channels]);
     PartBuffer (Uint32Array_of [stored sampleRate; stored byteRate]);
     PartBuffer (Uint16Array_of [stored blockAlign; stored bitsPerChannel])]).

(** The entries of a [LIST] chunk: the own properties of the object, in
    the order they were created. A value is [None] when the property is
    there and holds [undefined]. *)
Definition WaveListEntries := list (jsstring * option jsstring).

Record WaveListChunk := {
  type : jsstring;
  entries : WaveListEntries
}.

(** [entries[name]]. *)
Fixpoint get (entries : WaveListEntries) (name : jsstring) : option jsstring :=
  match entries with
  | [] => None
  | (k, v) :: rest => if str_eqb k name then v else get rest name
  end.

(** [entries[name] = value]: an existing property keeps its place. *)
Fixpoint set (entries : WaveListEntries) (name value : jsstring) : WaveListEntries :=
  match entries with
  | [] => [(name, Some value)]
  | (k, v) :: rest =>
      if str_eqb k name then (k, Some value) :: rest
      else (k, v) :: set rest name value
  end.

(** A property name is an array index when it is the decimal writing,
    without leading zero, of an integer below 2^32 - 1. *)
Fixpoint decimal (s : jsstring) (acc : Z) : option Z :=
  match s with
  | [] => Some acc
  | c :: rest =>
      if (48 <=? c) && (c <=? 57) then decimal rest (10 * acc + (c - 48)) else None
  end.

Definition arrayIndex (name : jsstring) : option Z :=
  match name with
  | [] => None
  | [48] => Some 0
  | 48 :: _ => None
  | _ =>
      match decimal name 0 with
      | Some n => if n <? 2 ^ 32 - 1 then Some n else None
      | None => None
      end
  end.

Fixpoint insertIndex (n : Z) (name : jsstring) (sorted : list (Z * jsstring))
  : list (Z * jsstring) :=
  match sorted with
  | [] => [(n, name)]
  | (m, other) :: rest =>
      if n <? m then (n, name) :: sorted else (m, other) :: insertIndex n name rest
  end.

Fixpoint indexNames (names : list jsstring) : list (Z * jsstring) :=
  match names with
  | [] => []
  | name :: rest =>
      match arrayIndex name with
      | Some n => insertIndex n name (indexNames rest)
      | None => indexNames rest
      end
  end.

(** The names [for (const name in entries)] visits: the array indices in
    ascending order, then the other names in creation order. *)
Definition forIn (entries : WaveListEntries) : list jsstring :=
  let names := map fst entries in
  map snd (indexNames names)
  ++ filter (fun name => match arrayIndex name with Some _ => false | None => true end) names.

(** The [while (pointer < blob.size)] loop of the decoder. With [size]
    [undefined] (no size field left) the end of the value slice is [NaN],
    which [slice] takes for 0, and [(size + 1) >> 1] is 0. *)
Fixpoint list_decode_loop (fuel : nat) (blob : Blob) (pointer : Z)
         (entries : WaveListEntries) : result WaveListEntries :=
  match fuel with
  | O => Hang
  | S fuel' =>
      if pointer <? size blob then
        let name := text (slice blob pointer (pointer + 4)) in
        sizes <- Uint32Array_view (slice blob (pointer + 4) (pointer + 8)) ;;
        match riff.first sizes with
        | Some size =>
            let value := text (slice blob (pointer + 8) (pointer + 8 + size - 1)) in
            let entries := set entries name value in
            let pointer := pointer + (8 + shl (sar (size + 1) 1) 1) in
            list_decode_loop fuel' blob pointer entries
        | None =>
            let value := text (slice blob (pointer + 8) 0) in
            let entries := set entries name value in
            let pointer := pointer + (8 + 0) in
            list_decode_loop fuel' blob pointer entries
        end
      else Return entries
  end.

Definition list_decode (fuel : nat) (blob : Blob) : result WaveListChunk :=
  let type := text (slice blob 0 4) in
  entries <- list_decode_loop fuel blob 4 [] ;;
  Return {| type := type; entries := entries |}.

(** The [for (const name in entries)] loop of the encoder. *)
Fixpoint list_encode_loop (names : list jsstring) (entries : WaveListEntries)
         (parts : list BlobPart) : result (list BlobPart) :=
  match names with
  | [] => Return parts
  | name :: rest =>
      match get entries name with
      | None | Some [] => list_encode_loop rest entries parts
      | Some value =>
          if negb (length name =? 4)%nat then
            Throw (Error (lit "Entry name must have a length of 4 (found '"
                          ++ name ++ lit "')"))
          else
            let encoded := utf8_encode value in
            let size := Z.of_nat (length encoded) + 1 in
            let tail :=
              repeat x00 (Z.to_nat (1 + (if size mod 2 =? 0 then 0 else 2 - size mod 2))) in
            list_encode_loop rest entries
              (parts ++ [PartString name;
                         PartBuffer (Uint32Array_of [size]);
                         PartBuffer encoded;
                         PartBuffer tail])
      end
  end.

Definition list_encode (type : jsstring) (entries : WaveListEntries) : result Blob :=
  parts <- list_encode_loop (forIn entries) entries [PartString type] ;;
  Return (newBlob parts).

(** The [data] chunk. *)
Record WaveDataChunk := { data : BlobPart }.

Inductive WaveRiffChunk : Type :=
| FormatChunk (c : WaveFormatChunk)
| ListChunk (c : WaveListChunk)
| DataChunk (c : WaveDataChunk).

#[global] Instance WaveRiffChunk_chunk : RiffChunk WaveRiffChunk :=
  {| id := fun c =>
       match c with
       | FormatChunk _ => lit "fmt "
       | ListChunk _ => lit "LIST"
       | DataChunk _ => lit "data"
       end |}.

(** Codec for encoding or decoding [fmt ] chunk. A chunk of another kind
    has none of the six properties: they are read as [undefined]. *)
Definition fmt : RiffChunkCodec WaveRiffChunk :=
  {| decode := fun blob => c <- fmt_decode blob ;; Return (FormatChunk c);
     encode := fun chunk =>
       match chunk with
       | FormatChunk c =>
           fmt_encode (Some (formatId_of (audioFormat c))) (channels c) (sampleRate c)
                      (byteRate c) (blockAlign c) (bitsPerChannel c)
       | _ => fmt_encode None None None None None None
       end |}.

(** Codec for encoding or decoding [LIST] chunk. For a chunk of another
    kind [type] is [undefined], written out by [Blob], and there is no
    entry to visit. *)
Definition list (fuel : nat) : RiffChunkCodec WaveRiffChunk :=
  {| decode := fun blob => c <- list_decode fuel blob ;; Return (ListChunk c);
     encode := fun chunk =>
       match chunk with
       | ListChunk c => list_encode (type c) (entries c)
       | _ => list_encode (lit "undefined") []
       end |}.

(** Passthrough codec for encoding or decoding [data] chunk. *)
Definition data_codec : RiffChunkCodec WaveRiffChunk :=
  {| decode := fun blob => Return (DataChunk {| data := PartBlob blob |});
     encode := fun chunk =>
       match chunk with
       | DataChunk {| data := PartBlob b |} => Return b
       | DataChunk {| data := d |} => Return (newBlob [d])
       | _ => Return (newBlob [PartString (lit "undefined")])
       end |}.

(** A record of codecs for decoding chunks in [.wav] file. No property the
    object inherits has a name of four characters or fewer, and the ids
    looked up here have at most four. *)
Definition waveCodec (fuel : nat) : RiffChunkCodecs WaveRiffChunk :=
  fun i =>
    if str_eqb i (lit "fmt ") then Some fmt
    else if str_eqb i (lit "LIST") then Some (list fuel)
    else if str_eqb i (lit "data") then Some data_codec
    else None.

End wave.

(* ===================================================================== *)
(** * Numbers and typed arrays of samples                                  *)
(* ===================================================================== *)

Module number.

(** A JavaScript number is a binary64 value, kept here as a sign, a
    mantissa and an exponent. An integer read from a typed array is kept
    with exponent 0 and a binary16 or binary32 element with the mantissa
    and exponent of its own format: both are binary64 values, and the
    arithmetic brings its operands to the canonical binary64 form first. *)
Definition number := spec_float.

Definition canon (x : number) : number :=
  match x with
  | S754_finite s m e => binary_round 53 1024 s m e
  | _ => x
  end.

Definition add (x y : number) : number := SFadd 53 1024 (canon x) (canon y).
Definition sub (x y : number) : number := SFsub 53 1024 (canon x) (canon y).
Definition mul (x y : number) : number := SFmul 53 1024 (canon x) (canon y).
Definition div (x y : number) : number := SFdiv 53 1024 (canon x) (canon y).

Definition ofZ (z : Z) : number :=
  match z with
  | Z0 => S754_zero false
  | Zpos p => S754_finite false p 0
  | Zneg p => S754_finite true p 0
  end.

(** [undefined] read as a number. *)
Definition NaN : number := S754_nan.

(** The integer part of a number, 0 for [NaN] and the infinities: the
    first step of [ToInt32] and of its 8-bit and 16-bit variants. *)
Definition truncate (x : number) : Z :=
  match x with
  | S754_finite s m e =>
      let a := if 0 <=? e then Zpos m * 2 ^ e else Zpos m / 2 ^ (- e) in
      if s then - a else a
  | _ => 0
  end.

(** The signed reading of a [w]-bit pattern. *)
Definition signed (w z : Z) : Z := (z + 2 ^ (w - 1)) mod 2 ^ w - 2 ^ (w - 1).

(** Rounding to a narrower binary format, ties to even. *)
Definition round (prec emax : Z) (x : number) : number :=
  match x with
  | S754_finite s m e => binary_round prec emax s m e
  | _ => x
  end.

(** The bit pattern of a float of the format with [mw] mantissa bits and
    [ew] exponent bits, and the float of a bit pattern. A number has one
    NaN here, written as the quiet NaN with the sign bit clear; a typed
    array keeps the sign and the payload of the NaN it is given, which the
    platform is free to choose. The bytes written for a NaN are therefore
    those of one of the NaNs the platform may write; the value read back
    is NaN in either case. *)
Definition bits_of_float (mw ew : Z) (x : spec_float) : Z :=
  let emin := 3 - 2 ^ (ew - 1) - (mw + 1) in
  let sign (s : bool) := if s then 2 ^ (mw + ew) else 0 in
  match x with
  | S754_zero s => sign s
  | S754_infinity s => sign s + (2 ^ ew - 1) * 2 ^ mw
  | S754_nan => (2 ^ ew - 1) * 2 ^ mw + 2 ^ (mw - 1)
  | S754_finite s m e =>
      if Zpos m <? 2 ^ mw then sign s + Zpos m
      else sign s + (e - emin + 1) * 2 ^ mw + (Zpos m - 2 ^ mw)
  end.

Definition float_of_bits (mw ew : Z) (bits : Z) : spec_float :=
  let emin := 3 - 2 ^ (ew - 1) - (mw + 1) in
  let s := negb ((bits / 2 ^ (mw + ew)) mod 2 =? 0) in
  let e := (bits / 2 ^ mw) mod 2 ^ ew in
  let m := bits mod 2 ^ mw in
  if e =? 0 then
    match m with
    | Zpos p => S754_finite s p emin
    | _ => S754_zero s
    end
  else if e =? 2 ^ ew - 1 then
    if m =? 0 then S754_infinity s else S754_nan
  else
    match m + 2 ^ mw with
    | Zpos p => S754_finite s p (e + emin - 1)
    | _ => S754_nan
    end.

(** The element types of the typed arrays of [dtypes]. *)
Inductive ArrayType : Type :=
| Uint8Array | Int16Array | Int32Array
| Float16Array | Float32Array | Float64Array.

Definition BYTES_PER_ELEMENT (ty : ArrayType) : nat :=
  match ty with
  | Uint8Array => 1
  | Int16Array | Float16Array => 2
  | Int32Array | Float32Array => 4
  | Float64Array => 8
  end.

(** [array[i] = x]: the number the element holds afterwards. *)
Definition store (ty : ArrayType) (x : number) : number :=
  match ty with
  | Uint8Array => ofZ (truncate x mod 2 ^ 8)
  | Int16Array => ofZ (signed 16 (truncate x))
  | Int32Array => ofZ (signed 32 (truncate x))
  | Float16Array => round 11 16 x
  | Float32Array => round 24 128 x
  | Float64Array => canon x
  end.

(** The bytes of an element holding [x], and the element of [w] bytes. *)
Definition elementBytes (ty : ArrayType) (x : number) : list byte :=
  match ty with
  | Uint8Array | Int16Array | Int32Array => z2le (BYTES_PER_ELEMENT ty) (truncate x)
  | Float16Array => z2le 2 (bits_of_float 10 5 x)
  | Float32Array => z2le 4 (bits_of_float 23 8 x)
  | Float64Array => z2le 8 (bits_of_float 52 11 x)
  end.

Definition element (ty : ArrayType) (bytes : list byte) : number :=
  match ty with
  | Uint8Array => ofZ (le2z bytes)
  | Int16Array => ofZ (signed 16 (le2z bytes))
  | Int32Array => ofZ (signed 32 (le2z bytes))
  | Float16Array => float_of_bits 10 5 (le2z bytes)
  | Float32Array => float_of_bits 23 8 (le2z bytes)
  | Float64Array => float_of_bits 52 11 (le2z bytes)
  end.

Fixpoint viewElements (fuel : nat) (ty : ArrayType) (buffer : list byte)
  : list number :=
  match fuel with
  | O => []
  | S fuel' =>
      match buffer with
      | [] => []
      | _ =>
          element ty (firstn (BYTES_PER_ELEMENT ty) buffer)
          :: viewElements fuel' ty (skipn (BYTES_PER_ELEMENT ty) buffer)
      end
  end.

(** [new ArrayType(buffer)]. *)
Definition view (ty : ArrayType) (buffer : list byte) : result (list number) :=
  if Z.of_nat (length buffer) mod Z.of_nat (BYTES_PER_ELEMENT ty) =? 0
  then Return (viewElements (length buffer) ty buffer)
  else Throw RangeError.

(** The bytes of a typed array, as [new Blob([array])] takes them. *)
Definition arrayBytes (ty : ArrayType) (a : list number) : list byte :=
  flat_map (elementBytes ty) a.

(** [array[i] = x] on any array: a write outside the array is ignored. *)
Fixpoint update {A : Type} (l : list A) (i : nat) (x : A) : list A :=
  match l, i with
  | [], _ => []
  | _ :: rest, O => x :: rest
  | y :: rest, S i' => y :: update rest i' x
  end.

End number.

(* ===================================================================== *)
(** * The coding-mode layer: [decodeWav] and [encodeWav]                   *)
(* ===================================================================== *)

Module wav.

Import riff wave number.

(** [src/types.ts] *)
Record TrackInfo := {
  comment : option jsstring;
  artist : option jsstring;
  copyrightDate : option jsstring;
  trackName : option jsstring;
  albumName : option jsstring;
  albumTrackId : option number;
  software : option jsstring
}.

Record WaveFile (T : Type) := {
  format : WaveFormatChunk;
  info : option TrackInfo;
  data : T
}.

Arguments format {T} _.
Arguments info {T} _.
Arguments data {T} _.

(** The four coding modes, and what [data] is in each of them. *)
Inductive Mode : Type := raw_blob | raw_buffer | channels_fmt | channels_float32.

Definition WaveCodingModeMap (mode : Mode) : Type :=
  match mode with
  | raw_blob => BlobPart
  | raw_buffer => Datatypes.list byte
  | channels_fmt => Datatypes.list (Datatypes.list number)
  | channels_float32 => Datatypes.list (Datatypes.list number)
  end.

(** The table [dtypes] of [internal.ts]: the array type, the least and the
    greatest raw value. [0x80000000 | 0] is the least signed 32-bit
    integer. A missing entry is [undefined]. *)
Definition DtypeEntry : Type := (ArrayType * number * number)%type.

Definition dtypes (audioFormat : WaveAudioFormat) (bitsPerChannel : option Z)
  : option DtypeEntry :=
  match audioFormat, bitsPerChannel with
  | PCM, Some 8 => Some (Uint8Array, ofZ 0, ofZ 255)
  | PCM, Some 16 => Some (Int16Array, ofZ (-32768), ofZ 32767)
  | PCM, Some 32 => Some (Int32Array, ofZ (ToInt32 (Z.lor 0x80000000 0)), ofZ 0x7FFFFFFF)
  | Floats, Some 16 => Some (Float16Array, ofZ (-1), ofZ 1)
  | Floats, Some 32 => Some (Float32Array, ofZ (-1), ofZ 1)
  | Floats, Some 64 => Some (Float64Array, ofZ (-1), ofZ 1)
  | _, _ => None
  end.

(** An integer field inside a template literal. *)
Definition showField (field : option Z) : jsstring :=
  match field with
  | None => lit "undefined"
  | Some z => if z <? 0 then lit "-" ++ toString 10 (- z) else toString 10 z
  end.

Definition unsupportedBits (bitsPerChannel : option Z) : exn :=
  Error (lit "Unsupported bits per channel: " ++ showField bitsPerChannel).

(** [file.content.find(c => c.id == ...)], the chunk found being of the
    kind its id tells. *)
Definition findFormat (content : Datatypes.list WaveRiffChunk) : option WaveFormatChunk :=
  match find (fun c => str_eqb (id c) (lit "fmt ")) content with
  | Some (FormatChunk c) => Some c
  | _ => None
  end.

Definition findData (content : Datatypes.list WaveRiffChunk) : option WaveDataChunk :=
  match find (fun c => str_eqb (id c) (lit "data")) content with
  | Some (DataChunk c) => Some c
  | _ => None
  end.

Definition findInfo (content : Datatypes.list WaveRiffChunk) : option WaveListChunk :=
  match find (fun c =>
                str_eqb (id c) (lit "LIST")
                && match c with
                   | ListChunk l => str_eqb (wave.type l) (lit "INFO")
                   | _ => false
                   end) content with
  | Some (ListChunk c) => Some c
  | _ => None
  end.

(** [entries.NAME ? ... : ...]: the value when it is a non-empty string. *)
Definition truthy (entries : WaveListEntries) (name : string) : option jsstring :=
  match get entries (lit name) with
  | Some (c :: s) => Some (c :: s)
  | _ => None
  end.

(** The element [l[i]] of an array of numbers, [undefined] outside it,
    read as a number. *)
Definition at_ (l : Datatypes.list number) (i : nat) : number := nth i l NaN.

Section Conversions.

(** The conversion of a string to a number (unary [+]) and of a number
    to a string (inside a template literal) are the platform's. *)
Variable ToNumber : jsstring -> number.
Variable NumberToString : number -> jsstring.

Definition trackInfo (infoChunk : option WaveListChunk) : option TrackInfo :=
  match infoChunk with
  | Some c =>
      let e := entries c in
      Some {| comment := truthy e "ICMT";
              artist := truthy e "IART";
              trackName := truthy e "INAM";
              albumName := truthy e "IPRD";
              albumTrackId := option_map ToNumber (truthy e "IPRT");
              copyrightDate := truthy e "ICRD";
              software := truthy e "ISFT" |}
  | None => None
  end.

(** The bytes [decodeWav] takes for the [ArrayBuffer] of the data chunk.
    The [in] operator fails on a string. *)
Definition bufferOf (d : BlobPart) : result (Datatypes.list byte) :=
  match d with
  | PartBlob b => Return b
  | PartBuffer bytes => Return bytes
  | PartString _ => Throw TypeError
  end.

(** The two nested loops of [decodeWav], with [convert] what is done to
    an element on its way into the channel array of type [out].
    [samples] is [byteLength / (bitsPerChannel * channels / 8)]: the
    arrays have its integer part for length and the outer loop runs
    while [i < samples]. Without channels and with data [samples] is
    infinite and the outer loop does not end; with [channels]
    [undefined] there is one array, of length 0, and no iteration. *)
Definition deinterleave (out : ArrayType) (convert : number -> number)
           (format : WaveFormatChunk) (byteLength : Z)
           (content : Datatypes.list number)
  : result (Datatypes.list (Datatypes.list number)) :=
  match channels format with
  | None => Return [[]]
  | Some n =>
      let bits := stored (bitsPerChannel format) in
      if n =? 0 then
        if byteLength =? 0 then Return [] else Hang
      else
        let length := Z.to_nat (byteLength * 8 / (bits * n)) in
        let steps := Z.to_nat ((byteLength * 8 + bits * n - 1) / (bits * n)) in
        let channels := repeat (repeat (ofZ 0) length) (Z.to_nat n) in
        for_ steps 0 (fun i channels =>
          for_ (Z.to_nat n) 0 (fun ch channels =>
            let v := at_ content (i * Z.to_nat n + ch) in
            Return (update channels ch
                      (update (nth ch channels []) i (store out (convert v)))))
            channels)
          channels
  end.

(** Decode [.wav] file into format of your choice. [fuel] bounds the
    loop of the [LIST] decoder. *)
Definition decodeWav (fuel : nat) (blob : Blob) (mode : Mode)
  : result (WaveFile (WaveCodingModeMap mode)) :=
  file <- decodeRiff (Some (waveCodec fuel)) blob true ;;
  match findFormat (content file) with
  | None => Throw (Error (lit "Missing 'fmt ' chunk in provided .wav file"))
  | Some format =>
      match findData (content file) with
      | None => Throw (Error (lit "Missing 'data' chunk in provided .wav file"))
      | Some raw =>
          let info := trackInfo (findInfo (content file)) in
          data <-
            match mode return result (WaveCodingModeMap mode) with
            | raw_blob => Return (wave.data raw)
            | raw_buffer => bufferOf (wave.data raw)
            | channels_fmt =>
                buffer <- bufferOf (wave.data raw) ;;
                match dtypes (audioFormat format) (bitsPerChannel format) with
                | None => Throw (unsupportedBits (bitsPerChannel format))
                | Some (ArrayType, _, _) =>
                    content <- view ArrayType buffer ;;
                    deinterleave ArrayType (fun v => v) format
                                 (Z.of_nat (length buffer)) content
                end
            | channels_float32 =>
                buffer <- bufferOf (wave.data raw) ;;
                match dtypes (audioFormat format) (bitsPerChannel format) with
                | None => Throw (unsupportedBits (bitsPerChannel format))
                | Some (ArrayType, rawMin, rawMax) =>
                    content <- view ArrayType buffer ;;
                    deinterleave Float32Array
                      (fun v => sub (mul (div (sub v rawMin) (sub rawMax rawMin))
                                         (ofZ 2)) (ofZ 1))
                      format (Z.of_nat (length buffer)) content
                end
            end ;;
          Return {| format := format; info := info; data := data |}
      end
  end.

(** The entries [encodeWav] builds from the track information, in the
    order it creates them. *)
Definition infoEntriesOf (i : TrackInfo) : WaveListEntries :=
  let put (name : string) (value : option jsstring) (e : WaveListEntries) :=
    match value with
    | Some (c :: s) => set e (lit name) (c :: s)
    | _ => e
    end in
  let e := put "ICMT"%string (comment i) [] in
  let e := put "IART"%string (artist i) e in
  let e := put "INAM"%string (trackName i) e in
  let e := put "IPRD"%string (albumName i) e in
  let e := match albumTrackId i with
           | Some n => set e (lit "IPRT") (NumberToString n)
           | None => e
           end in
  let e := put "ICRD"%string (copyrightDate i) e in
  put "ISFT"%string (software i) e.

(** The two nested loops of [encodeWav], with [convert] what is done to
    a sample on its way into [typedContent]. [channels[ch]] is
    [undefined] past the last channel, and reading an element of it
    fails. *)
Definition interleave (ArrayType : ArrayType) (convert : number -> number)
           (format : WaveFormatChunk)
           (channels : Datatypes.list (Datatypes.list number))
  : result (Datatypes.list number) :=
  match channels with
  | [] => Throw TypeError
  | first :: _ =>
      let samples := length first in
      let n := match wave.channels format with Some n => n | None => 0 end in
      if Z.of_nat samples * n <? 0 then Throw RangeError
      else
        let typedContent := repeat (ofZ 0) (Z.to_nat (Z.of_nat samples * n)) in
        for_ samples 0 (fun i typedContent =>
          for_ (Z.to_nat n) 0 (fun ch typedContent =>
            match nth_error channels ch with
            | None => Throw TypeError
            | Some channel =>
                let p := at_ channel i in
                Return (update typedContent (i * Z.to_nat n + ch)
                               (store ArrayType (convert p)))
            end)
            typedContent)
          typedContent
  end.

(** Encode audio into [.wav] content. *)
Definition encodeWav (fuel : nat) (mode : Mode)
           (wav : WaveFile (WaveCodingModeMap mode)) : result Blob :=
  let format := format wav in
  let infoEntries := option_map infoEntriesOf (info wav) in
  content <-
    match mode return WaveCodingModeMap mode -> result BlobPart with
    | raw_blob => fun data => Return data
    | raw_buffer => fun data => Return (PartBlob (newBlob [PartBuffer data]))
    | channels_fmt => fun channels =>
        match dtypes (audioFormat format) (bitsPerChannel format) with
        | None => Throw (unsupportedBits (bitsPerChannel format))
        | Some (ArrayType, _, _) =>
            typedContent <- interleave ArrayType (fun p => p) format channels ;;
            Return (PartBlob (newBlob [PartBuffer (arrayBytes ArrayType typedContent)]))
        end
    | channels_float32 => fun channels =>
        match dtypes (audioFormat format) (bitsPerChannel format) with
        | None => Throw (unsupportedBits (bitsPerChannel format))
        | Some (ArrayType, rawMin, rawMax) =>
            typedContent <-
              interleave ArrayType
                (fun p => add (mul (div (add p (ofZ 1)) (ofZ 2)) (sub rawMax rawMin))
                              rawMin)
                format channels ;;
            Return (PartBlob (newBlob [PartBuffer (arrayBytes ArrayType typedContent)]))
        end
    end (data wav) ;;
  encodeRiff (Some (waveCodec fuel))
    {| riff.type := lit "WAVE";
       riff.content :=
         [FormatChunk format; DataChunk {| wave.data := content |}]
         ++ match infoEntries with
            | Some e => [ListChunk {| wave.type := lit "INFO"; entries := e |}]
            | None => []
            end;
       riff.unknowns := [] |}.

End Conversions.

End wav.

(* ===================================================================== *)
(** * Vocabulary of the statements                                         *)
(* ===================================================================== *)

Module vocabulary.

Import riff.

(** The record of an unknown chunk: its id, the length of its data and
    its data. *)
Definition unknownRecord (u : UnknownRiffChunk) : list BlobPart :=
  [PartString (unknown_id u);
   PartBuffer (Uint32Array_of [size (partBytes (data u))]);
   data u].

Section Chunks.

Context {T : Type} `{RiffChunk T}.
Variable codecs : option (RiffChunkCodecs T).

(** A chunk the loop over [content] refuses. *)
Definition refused (chunk : T) : Prop :=
  length (id chunk) <> 4%nat \/ lookup codecs (id chunk) = None.

(** The chunks before the first refused one have been encoded when it
    is met. *)
Definition accepted (chunk : T) : Prop :=
  length (id chunk) = 4%nat
  /\ exists codec bytes, lookup codecs (id chunk) = Some codec
                         /\ encode codec chunk = Return bytes.

End Chunks.

(** ** Sample files *)

(** A stand-in for the conversion of a string to a number. *)
Definition noNumber (s : jsstring) : number.number := number.NaN.

(** A stand-in for the conversion of a number to a string. *)
Definition noString (n : number.number) : jsstring := lit "0".

(** One channel of 16-bit PCM at 44100 Hz. *)
Definition mono16 : wave.WaveFormatChunk :=
  {| wave.audioFormat := wave.PCM;
     wave.channels := Some 1;
     wave.sampleRate := Some 44100;
     wave.byteRate := Some 88200;
     wave.blockAlign := Some 2;
     wave.bitsPerChannel := Some 16 |}.

(** A container of type [WAVE] without chunk. *)
Definition emptyWave : Blob :=
  riff.riff ++ [x04; x00; x00; x00] ++ [x57; x41; x56; x45].

(** A container of type [WAVE] whose only chunk is a [fmt ] chunk. *)
Definition formatOnlyWave : Blob :=
  riff.riff ++ [x1c; x00; x00; x00] ++ [x57; x41; x56; x45]
  ++ [x66; x6d; x74; x20; x10; x00; x00; x00;
      x01; x00; x01; x00; x44; xac; x00; x00;
      x88; x58; x01; x00; x02; x00; x10; x00].

(** The file [encodeWav] makes of one channel holding the sample 0. *)
Definition silentWave : Blob :=
  Eval vm_compute in
    match wav.encodeWav noString 0 wav.channels_float32
            {| wav.format := mono16; wav.info := None;
               wav.data := [[number.ofZ 0]] |} with
    | Return b => b
    | _ => []
    end.

(** ** The bytes of a container *)

(** The end of the bytes [decodeRiff] looks at: the end of the content
    the container size tells, and at least the end of the type. *)
Definition extent (blob : Blob) : Z :=
  match Uint32Array_view (slice blob 4 8) with
  | Return sizes =>
      match riff.first sizes with
      | Some size => Z.max (size + 8) 12
      | None => 12
      end
  | _ => 12
  end.

(** The tenth claim in the words of the specification: whatever follows
    the bytes [0, size + 8) has no effect on the result. *)
Definition reads_only_declared_extent : Prop :=
  forall (T : Type) (codecs : option (riff.RiffChunkCodecs T)) (b1 b2 : Blob)
         (validateHeader : bool) (sizes : list Z) (size : Z),
    Uint32Array_view (slice b1 4 8) = Return sizes ->
    riff.first sizes = Some size ->
    firstn (Z.to_nat (size + 8)) b1 = firstn (Z.to_nat (size + 8)) b2 ->
    riff.decodeRiff codecs b1 validateHeader = riff.decodeRiff codecs b2 validateHeader.

(** ** The last record of a walk *)

Section LastRecord.

Context {T : Type}.
Variable codecs : option (riff.RiffChunkCodecs T).

(** What the walk returns when the record with this id and this payload
    is the last one it stores: the payload goes through the codec of the
    id, or to the unknown chunks. *)
Definition lastRecord (id : jsstring) (payload : Blob)
           (content : list T) (unknowns : list riff.UnknownRiffChunk)
  : result (list T * list riff.UnknownRiffChunk) :=
  match riff.lookup codecs id with
  | Some codec =>
      bind (riff.decode codec payload) (fun data => Return (content ++ [data], unknowns))
  | None =>
      Return (content,
              unknowns ++ [{| riff.unknown_id := id; riff.data := riff.PartBlob payload |}])
  end.

End LastRecord.

(** A container whose only chunk tells 100 bytes of data and has 2, and
    a container whose content is 2 bytes, too few for an id. *)
Definition cutPayload : Blob :=
  riff.riff ++ [x0e; x00; x00; x00] ++ [x57; x41; x56; x45]
  ++ [x61; x62; x63; x64; x64; x00; x00; x00; x01; x02].

Definition cutId : Blob :=
  riff.riff ++ [x06; x00; x00; x00] ++ [x57; x41; x56; x45] ++ [x61; x62].

(** ** Well-formed records *)

(** The characters of an ASCII string are its bytes. *)
Definition ascii (s : jsstring) : Prop := Forall (fun c => 0 <= c < 128) s.

(** A tag: four ASCII characters. *)
Definition tag (s : jsstring) : Prop := length s = 4%nat /\ ascii s.

(** The bytes of the record of a chunk: the id, the length of the payload
    and the payload. *)
Definition recordBytes (r : jsstring * Blob) : Blob :=
  utf8_encode (fst r) ++ Uint32Array_of [size (snd r)] ++ snd r.

(** A record the walk of [decodeRiff] reads back as it was written: the
    id is a tag and the length of the payload fits its field. *)
Definition wellFormed (r : jsstring * Blob) : Prop :=
  tag (fst r) /\ size (snd r) < 2 ^ 32.

Section Records.

Context {T : Type}.
Variable codecs : option (riff.RiffChunkCodecs T).

(** The chunks of a list of records: each payload goes through the codec
    of its id, or to the unknown chunks. *)
Fixpoint decodeRecords (records : list (jsstring * Blob))
         (content : list T) (unknowns : list riff.UnknownRiffChunk)
  : result (list T * list riff.UnknownRiffChunk) :=
  match records with
  | [] => Return (content, unknowns)
  | (id, payload) :: rest =>
      match riff.lookup codecs id with
      | Some codec =>
          bind (riff.decode codec payload)
               (fun data => decodeRecords rest (content ++ [data]) unknowns)
      | None =>
          decodeRecords rest content
            (unknowns ++ [{| riff.unknown_id := id; riff.data := riff.PartBlob payload |}])
      end
  end.

End Records.

(** ** The round trip of unknown chunks *)

(** An unknown chunk as the decoder gives it back: the same id, and the
    bytes of the data as a blob. *)
Definition asBlob (u : riff.UnknownRiffChunk) : riff.UnknownRiffChunk :=
  {| riff.unknown_id := riff.unknown_id u;
     riff.data := riff.PartBlob (riff.partBytes (riff.data u)) |}.

(** The number of bytes after the container size: the type and the
    records of the unknown chunks. *)
Definition unknownsSize (f : riff.RiffFile riff.UnknownRiffChunk) : Z :=
  size (utf8_encode (riff.type f))
  + size (riff.newBlob (flat_map unknownRecord (riff.unknowns f))).

(** The first claim in the words of the specification. *)
Definition unknown_chunks_round_trip : Prop :=
  forall f : riff.RiffFile riff.UnknownRiffChunk,
    tag (riff.type f) ->
    riff.content f = [] ->
    Forall (fun u => length (riff.unknown_id u) = 4%nat) (riff.unknowns f) ->
    bind (riff.encodeRiff None f)
         (fun blob => riff.decodeRiff (T := riff.UnknownRiffChunk) None blob true)
    = Return {| riff.type := riff.type f;
                riff.content := [];
                riff.unknowns := map asBlob (riff.unknowns f) |}.

(** A file with one unknown chunk whose id is four times the letter e
    with an acute accent. *)
Definition accents : riff.RiffFile riff.UnknownRiffChunk :=
  {| riff.type := lit "WAVE";
     riff.content := [];
     riff.unknowns := [{| riff.unknown_id := [233; 233; 233; 233];
                          riff.data := riff.PartBuffer [x01] |}] |}.

(** A file with one unknown chunk of [2 ^ 32 - 12] bytes: with the type
    and the header of the record, [2 ^ 32] bytes after the container
    size. *)
Definition fourGigabytes : riff.RiffFile riff.UnknownRiffChunk :=
  {| riff.type := lit "WAVE";
     riff.content := [];
     riff.unknowns :=
       [{| riff.unknown_id := lit "abcd";
           riff.data := riff.PartBuffer (repeat x00 (Z.to_nat (2 ^ 32 - 12))) |}] |}.

(** ** The loops over samples and channels *)

(** The value at the place [(i', c')] while the loops are at [(i, c)]:
    [g] where they have been, the initial 0 elsewhere. *)
Definition filled (g : nat -> nat -> number.number) (i c i' c' : nat)
  : number.number :=
  if (i' <? i)%nat || ((i' =? i)%nat && (c' <? c)%nat) then g i' c' else number.ofZ 0.

(** The element [k] of the typed array of type [ty] over a buffer: the
    raw element of the data. *)
Definition rawElement (ty : number.ArrayType) (buffer : list byte) (k : nat)
  : number.number :=
  number.element ty
    (firstn (number.BYTES_PER_ELEMENT ty)
            (skipn (k * number.BYTES_PER_ELEMENT ty) buffer)).

(** The affine map of the decoder, from the raw range to [-1, 1], and the
    affine map of the encoder, from [-1, 1] to the raw range. *)
Definition normalized (rawMin rawMax raw : number.number) : number.number :=
  number.sub
    (number.mul (number.div (number.sub raw rawMin) (number.sub rawMax rawMin))
                (number.ofZ 2))
    (number.ofZ 1).

Definition denormalized (rawMin rawMax p : number.number) : number.number :=
  number.add
    (number.mul (number.div (number.add p (number.ofZ 1)) (number.ofZ 2))
                (number.sub rawMax rawMin))
    rawMin.

(** Two channels of 16-bit PCM at 44100 Hz, and a file of four samples
    per channel: the eight interleaved elements 1 to 8. *)
Definition stereo16 : wave.WaveFormatChunk :=
  {| wave.audioFormat := wave.PCM;
     wave.channels := Some 2;
     wave.sampleRate := Some 44100;
     wave.byteRate := Some 176400;
     wave.blockAlign := Some 4;
     wave.bitsPerChannel := Some 16 |}.

Definition stereoData : list byte :=
  [x01; x00; x02; x00; x03; x00; x04; x00; x05; x00; x06; x00; x07; x00; x08; x00].

Definition stereoWave : Blob :=
  Eval vm_compute in
    match wav.encodeWav noString 0 wav.raw_buffer
            {| wav.format := stereo16; wav.info := None; wav.data := stereoData |} with
    | Return b => b
    | _ => []
    end.

(** ** The records of a [LIST] chunk *)

Definition roundUpToEven (z : Z) : Z := z + z mod 2.

(** The null terminator of a text of [size - 1] bytes and its padding. *)
Definition listTail (size : Z) : list byte :=
  repeat x00 (Z.to_nat (1 + (if size mod 2 =? 0 then 0 else 2 - size mod 2))).

(** The bytes of the record of an entry: the key, the length of the text
    and of its terminator, the text, the terminator and the padding. *)
Definition listRecordBytes (r : jsstring * list byte) : Blob :=
  utf8_encode (fst r)
  ++ Uint32Array_of [size (snd r) + 1]
  ++ snd r
  ++ listTail (size (snd r) + 1).

(** The entries the encoder writes, with the bytes of their text: those
    whose value is a non-empty string. *)
Definition emitted (entries : wave.WaveListEntries) : list (jsstring * list byte) :=
  flat_map (fun entry =>
              match snd entry with
              | Some (c :: s) => [(fst entry, utf8_encode (c :: s))]
              | _ => []
              end) entries.

(** A record the decoder of [LIST] reads back as it was written: the key
    is a tag and the length is below the range of the 32-bit operators. *)
Definition listWellFormed (r : jsstring * list byte) : Prop :=
  tag (fst r) /\ size (snd r) + 2 < 2 ^ 31.

(** The entries the decoder makes of a list of records. *)
Definition decodedEntries (records : list (jsstring * list byte))
           (entries : wave.WaveListEntries) : wave.WaveListEntries :=
  fold_left (fun e r => wave.set e (fst r) (text (snd r))) records entries.

(** The payload of a [LIST] chunk of type [INFO] whose only entry, with
    the key [IART], tells a length of [0xFFFFFFF7] for its text. *)
Definition stuckList : Blob :=
  [x49; x4e; x46; x4f;
   x49; x41; x52; x54; xf7; xff; xff; xff; x41; x00].

(** ** The entries of the track information *)

(** A name [encodeWav] can give to an entry: a tag that is no array
    index. *)
Definition infoKey (name : jsstring) : Prop :=
  tag name /\ wave.arrayIndex name = None.

(** The entries of the track information have distinct names, which are
    tags and no array indices. *)
Definition infoEntries_ok (e : wave.WaveListEntries) : Prop :=
  NoDup (map fst e) /\ Forall infoKey (map fst e).

(** ** The round trip of a [.wav] file *)

(** The [fmt ] chunk as it is read back from the file: every field modulo
    the width of its place, [undefined] written as 0. *)
Definition readBack (c : wave.WaveFormatChunk) : wave.WaveFormatChunk :=
  {| wave.audioFormat := wave.audioFormat c;
     wave.channels := Some (wave.stored (wave.channels c) mod 2 ^ 16);
     wave.sampleRate := Some (wave.stored (wave.sampleRate c) mod 2 ^ 32);
     wave.byteRate := Some (wave.stored (wave.byteRate c) mod 2 ^ 32);
     wave.blockAlign := Some (wave.stored (wave.blockAlign c) mod 2 ^ 16);
     wave.bitsPerChannel := Some (wave.stored (wave.bitsPerChannel c) mod 2 ^ 16) |}.

(** The container [encodeWav] hands to [encodeRiff]. *)
Definition waveContainer (NumberToString : number.number -> jsstring)
           (format : wave.WaveFormatChunk) (content : riff.BlobPart)
           (info : option wav.TrackInfo) : riff.RiffFile wave.WaveRiffChunk :=
  {| riff.type := lit "WAVE";
     riff.content :=
       [wave.FormatChunk format; wave.DataChunk {| wave.data := content |}]
       ++ match info with
          | Some i =>
              [wave.ListChunk {| wave.type := lit "INFO";
                                 wave.entries := wav.infoEntriesOf NumberToString i |}]
          | None => []
          end;
     riff.unknowns := [] |}.

(** What a sample [p] is after the round trip through a file whose
    elements have the type [ty] and the raw range from [rawMin] to
    [rawMax]: the value of the encoder, stored in the typed array, written
    to the file, read from it, and put through the formula of the decoder
    into a 32-bit float. *)
Definition quantized (ty : number.ArrayType) (rawMin rawMax p : number.number)
  : number.number :=
  number.store number.Float32Array
    (normalized rawMin rawMax
       (number.element ty
          (number.elementBytes ty
             (number.store ty (denormalized rawMin rawMax p))))).




End vocabulary.

Import vocabulary.

(* ===================================================================== *)
(** * Vocabulary of the further properties                                 *)
(* ===================================================================== *)

Module behaviour.

Import riff.

(** A registry whose only codec is the passthrough codec of [data]. *)
Definition dataOnly : RiffChunkCodecs wave.WaveRiffChunk :=
  fun i => if str_eqb i (lit "data") then Some wave.data_codec else None.

(** The bytes of a container: the header, the length of what follows, the
    type and the records of the chunks, one after the other. *)
Definition container (ty : jsstring) (records : list (jsstring * Blob)) : Blob :=
  let contentBlob := utf8_encode ty ++ flat_map recordBytes records in
  riff ++ Uint32Array_of [size contentBlob] ++ contentBlob.

(** A record as an unknown chunk. *)
Definition asUnknown (r : jsstring * Blob) : UnknownRiffChunk :=
  {| unknown_id := fst r; data := PartBlob (snd r) |}.

Section Dispatch.

Context {T : Type} `{RiffChunk T}.
Variable codecs : option (RiffChunkCodecs T).

(** Whether the registry has a codec for the id of a record. *)
Definition hasCodec (r : jsstring * Blob) : bool :=
  match lookup codecs (fst r) with
  | Some _ => true
  | None => false
  end.

Definition noCodec (r : jsstring * Blob) : bool := negb (hasCodec r).

(** The codec of the id of the record makes this chunk of its payload. *)
Definition decodes (r : jsstring * Blob) (chunk : T) : Prop :=
  exists codec, lookup codecs (fst r) = Some codec /\ decode codec (snd r) = Return chunk.

(** The codec of the id of the chunk writes these bytes: what the loop
    over [content] asks of a chunk. *)
Definition writes (chunk : T) (bytes : Blob) : Prop :=
  length (id chunk) = 4%nat
  /\ exists codec, lookup codecs (id chunk) = Some codec
                   /\ encode codec chunk = Return bytes.

(** The id of the chunk is a tag, and its codec reads this chunk back
    from the bytes it writes for it. *)
Definition readsBack (chunk chunk' : T) : Prop :=
  tag (id chunk)
  /\ exists bytes, writes chunk bytes /\ decodes (id chunk, bytes) chunk'.

(** The records of a file: those of the chunks of [content], with the
    bytes their codecs write, and those of the unknown chunks. *)
Definition fileRecords (f : RiffFile T) (payloads : list Blob)
  : list (jsstring * Blob) :=
  combine (map id (content f)) payloads
  ++ map (fun u => (unknown_id u, partBytes (data u))) (unknowns f).

End Dispatch.

(** ** The [fmt ] chunk *)

(** A field that holds an integer of [w] bits. *)
Definition field (w : Z) (v : option Z) : Prop :=
  exists z, v = Some z /\ 0 <= z < 2 ^ w.

(** A chunk every field of which fits its place in the file. *)
Definition fits (c : wave.WaveFormatChunk) : Prop :=
  field 16 (wave.channels c) /\ field 32 (wave.sampleRate c)
  /\ field 32 (wave.byteRate c) /\ field 16 (wave.blockAlign c)
  /\ field 16 (wave.bitsPerChannel c).

(** The lengths below 16 at which the three views of the decoder of
    [fmt ] are all over whole elements. *)
Definition wholeViews (size : Z) : bool :=
  existsb (Z.eqb size) [4; 8; 12; 14].

(** ** The entries of a [LIST] chunk *)

(** The entries that come back from the file: those whose value is a
    non-empty string, with the text the decoder makes of the bytes of
    this value. *)
Definition kept (entries : wave.WaveListEntries) : wave.WaveListEntries :=
  flat_map (fun entry =>
              match snd entry with
              | Some (c :: s) => [(fst entry, Some (text (utf8_encode (c :: s))))]
              | _ => []
              end) entries.

(** The entries whose value is a non-empty string. *)
Definition nonEmptyEntries (entries : wave.WaveListEntries) : wave.WaveListEntries :=
  flat_map (fun entry =>
              match snd entry with
              | Some (c :: s) => [(fst entry, Some (c :: s))]
              | _ => []
              end) entries.

(** A value that is [undefined] or an ASCII string. *)
Definition asciiValue (v : option jsstring) : Prop :=
  match v with
  | Some s => ascii s
  | None => True
  end.

(** ** The bytes of a [.wav] file *)

(** The 44 bytes before the data of a file without track information:
    the header of the container, the [fmt ] chunk, and the id and the
    length of the [data] chunk, for [n] bytes of data. *)
Definition canonicalHeader (format : wave.WaveFormatChunk) (n : Z) : list byte :=
  riff ++ z2le 4 (36 + n) ++ utf8_encode (lit "WAVE")
  ++ utf8_encode (lit "fmt ") ++ z2le 4 16
  ++ z2le 2 (wave.formatId_of (wave.audioFormat format))
  ++ z2le 2 (wave.stored (wave.channels format))
  ++ z2le 4 (wave.stored (wave.sampleRate format))
  ++ z2le 4 (wave.stored (wave.byteRate format))
  ++ z2le 2 (wave.stored (wave.blockAlign format))
  ++ z2le 2 (wave.stored (wave.bitsPerChannel format))
  ++ utf8_encode (lit "data") ++ z2le 4 n.

(** ** The track information *)

(** A field of the track information as it comes back from a file: an
    empty string is not written. *)
Definition nonEmpty (v : option jsstring) : option jsstring :=
  match v with
  | Some (c :: s) => Some (c :: s)
  | _ => None
  end.

Section Info.

Variable ToNumber : jsstring -> number.number.
Variable NumberToString : number.number -> jsstring.

(** The track information as it comes back from a file: the texts that
    are not empty, and the number the platform reads from the string it
    wrote for the track number. *)
Definition infoBack (i : wav.TrackInfo) : wav.TrackInfo :=
  {| wav.comment := nonEmpty (wav.comment i);
     wav.artist := nonEmpty (wav.artist i);
     wav.copyrightDate := nonEmpty (wav.copyrightDate i);
     wav.trackName := nonEmpty (wav.trackName i);
     wav.albumName := nonEmpty (wav.albumName i);
     wav.albumTrackId :=
       option_map (fun n => ToNumber (NumberToString n)) (wav.albumTrackId i);
     wav.software := nonEmpty (wav.software i) |}.

(** Track information whose texts are ASCII; so is the string of a
    number, which is not empty. *)
Definition asciiInfo (i : wav.TrackInfo) : Prop :=
  asciiValue (wav.comment i) /\ asciiValue (wav.artist i)
  /\ asciiValue (wav.copyrightDate i) /\ asciiValue (wav.trackName i)
  /\ asciiValue (wav.albumName i) /\ asciiValue (wav.software i)
  /\ forall n, wav.albumTrackId i = Some n ->
                ascii (NumberToString n) /\ NumberToString n <> [].

(** The [LIST] chunk [decodeRiff] makes of the track information in the
    file [encodeWav] writes. *)
Definition listBack (info : option wav.TrackInfo) : option wave.WaveListChunk :=
  match info with
  | Some i => Some {| wave.type := lit "INFO";
                      wave.entries := kept (wav.infoEntriesOf NumberToString i) |}
  | None => None
  end.

(** The chunks [decodeRiff] makes of the file [encodeWav] writes. *)
Definition chunksBack (format : wave.WaveFormatChunk) (bytes : Blob)
           (info : option wav.TrackInfo) : list wave.WaveRiffChunk :=
  [wave.FormatChunk (readBack format);
   wave.DataChunk {| wave.data := PartBlob bytes |}]
  ++ match info with
     | Some i =>
         [wave.ListChunk {| wave.type := lit "INFO";
                            wave.entries := kept (wav.infoEntriesOf NumberToString i) |}]
     | None => []
     end.

(** What the decoder of [LIST] makes of the track information as the
    encoder writes it: the chunks that follow the [data] chunk in the
    file read back. Without track information there is none. *)
Definition listRead (fuel : nat) (info : option wav.TrackInfo)
  : result (list wave.WaveRiffChunk) :=
  match info with
  | None => Return []
  | Some i =>
      bind (wave.list_encode (lit "INFO") (wav.infoEntriesOf NumberToString i))
           (fun payload =>
              bind (wave.list_decode fuel payload)
                   (fun chunk => Return [wave.ListChunk chunk]))
  end.

End Info.

(** ** Samples *)

(** Two numbers with the same value, whatever mantissa and exponent they
    are kept with. *)
Definition sameNumber (x y : number.number) : Prop := number.canon x = number.canon y.

(** A number from -1 to 1. *)
Definition inUnit (x : number.number) : bool :=
  SFleb (number.canon (number.ofZ (-1))) (number.canon x)
  && SFleb (number.canon x) (number.canon (number.ofZ 1)).

(** The sample [decodeWav] makes of a byte of 8-bit PCM in the mode
    [channels-float32]. *)
Definition sample8 (b : byte) : number.number :=
  number.store number.Float32Array
    (normalized (number.ofZ 0) (number.ofZ 255) (number.element number.Uint8Array [b])).

(** 24-bit PCM, for which [dtypes] has no entry. *)
Definition mono24 : wave.WaveFormatChunk :=
  {| wave.audioFormat := wave.PCM;
     wave.channels := Some 1;
     wave.sampleRate := Some 44100;
     wave.byteRate := Some 132300;
     wave.blockAlign := Some 3;
     wave.bitsPerChannel := Some 24 |}.

(** One channel of 8-bit PCM, and a file of three samples. *)
Definition mono8 : wave.WaveFormatChunk :=
  {| wave.audioFormat := wave.PCM;
     wave.channels := Some 1;
     wave.sampleRate := Some 8000;
     wave.byteRate := Some 8000;
     wave.blockAlign := Some 1;
     wave.bitsPerChannel := Some 8 |}.

Definition mono8Wave : Blob :=
  Eval vm_compute in
    match wav.encodeWav noString 0 wav.raw_buffer
            {| wav.format := mono8; wav.info := None; wav.data := [x00; x80; xff] |} with
    | Return b => b
    | _ => []
    end.

(** 16-bit PCM that tells no channel. *)
Definition noChannel16 : wave.WaveFormatChunk :=
  {| wave.audioFormat := wave.PCM;
     wave.channels := Some 0;
     wave.sampleRate := Some 44100;
     wave.byteRate := Some 0;
     wave.blockAlign := Some 0;
     wave.bitsPerChannel := Some 16 |}.


(** ** Full scale *)

(** A sample at one end of the range, -1 or 1. *)
Definition fullScale (p : number.number) : Prop :=
  sameNumber p (number.ofZ (-1)) \/ sameNumber p (number.ofZ 1).

(** The raw value at the same end of the raw range as the sample. *)
Definition sameEnd (rawMin rawMax p raw : number.number) : Prop :=
  (sameNumber p (number.ofZ (-1)) -> sameNumber raw rawMin)
  /\ (sameNumber p (number.ofZ 1) -> sameNumber raw rawMax).

(** ** Audio too wide or too long for the fields of the file *)




(** ** Messages *)

(** The [k] digits of [n] in base [base], the most significant first. *)
Fixpoint positional (base : Z) (k : nat) (n : Z) : list Z :=
  match k with
  | O => []
  | S k' => positional base k' (n / base) ++ [n mod base]
  end.

(** The character of a digit: [0] to [9], then [a] to [f]. *)
Definition digitText (d : Z) : Z := nth (Z.to_nat d) (lit "0123456789abcdef") 0.

(** A number below 100000 written in decimal, without a leading zero. *)
Definition decimalText (n : Z) : jsstring :=
  map digitText
      (positional 10 (if n <? 10 then 1 else if n <? 100 then 2 else if n <? 1000 then 3
                      else if n <? 10000 then 4 else 5) n).

(** A number below 65536 written in hexadecimal, in lower case, with two
    digits at least. *)
Definition hexText (n : Z) : jsstring :=
  map digitText (positional 16 (if n <? 256 then 2 else if n <? 4096 then 3 else 4) n).

End behaviour.

Import behaviour.

(* ===================================================================== *)
(** * Properties of the platform                                           *)
(* ===================================================================== *)

Section PlatformFacts.

Lemma b2z_range (b : byte) : 0 <= b2z b < 256.
Proof.
  unfold b2z. pose proof (Byte.to_N_bounded b). lia.
Qed.

Lemma z2b_b2z (b : byte) : z2b (b2z b) = b.
Proof.
  unfold z2b. pose proof (b2z_range b) as R.
  rewrite Z.mod_small by exact R.
  unfold b2z. rewrite N2Z.id, Byte.of_to_N. reflexivity.
Qed.

Lemma b2z_z2b (z : Z) : b2z (z2b z) = z mod 256.
Proof.
  unfold z2b, b2z.
  pose proof (Z.mod_pos_bound z 256 ltac:(lia)) as R.
  destruct (Byte.of_N (Z.to_N (z mod 256))) as [b|] eqn:E.
  - apply Byte.to_of_N in E. rewrite E. lia.
  - apply Byte.of_N_None_iff in E. lia.
Qed.

Lemma b2z_inj (a b : byte) : b2z a = b2z b -> a = b.
Proof.
  intros E. rewrite <- (z2b_b2z a), <- (z2b_b2z b), E. reflexivity.
Qed.

Lemma b2z_eqb (a b : byte) : (b2z a =? b2z b) = true <-> a = b.
Proof.
  rewrite Z.eqb_eq. split; [apply b2z_inj | congruence].
Qed.

Lemma size_nonneg (b : Blob) : 0 <= size b.
Proof. unfold size. lia. Qed.

Lemma size_app (a b : Blob) : size (a ++ b) = size a + size b.
Proof. unfold size. rewrite length_app. lia. Qed.

(** Between non-negative bounds [slice] is [firstn] of [skipn]: the
    clamping to the size is what [firstn] and [skipn] do at the end of
    a list. *)
Lemma slice_nonneg (b : Blob) (start stop : Z) :
  0 <= start -> 0 <= stop ->
  slice b start stop = firstn (Z.to_nat (stop - start)) (skipn (Z.to_nat start) b).
Proof.
  intros Hs He. unfold slice, relative, size.
  destruct (start <? 0) eqn:E1; [lia|].
  destruct (stop <? 0) eqn:E2; [lia|].
  destruct (Z_le_gt_dec start (Z.of_nat (length b))) as [Hle|Hgt].
  - rewrite (Z.min_l start) by lia.
    destruct (Z_le_gt_dec stop (Z.of_nat (length b))) as [Hle'|Hgt'].
    + rewrite (Z.min_l stop) by lia.
      destruct (Z_le_gt_dec start stop).
      * rewrite Z.max_l by lia. reflexivity.
      * rewrite Z.max_r by lia.
        replace (Z.to_nat (stop - start)) with 0%nat by lia. reflexivity.
    + rewrite (Z.min_r stop) by lia. rewrite Z.max_l by lia.
      rewrite !firstn_all2; [reflexivity| |]; rewrite length_skipn; lia.
  - rewrite (Z.min_r start) by lia.
    rewrite !skipn_all2 by lia. rewrite !firstn_nil. reflexivity.
Qed.

Lemma slice_prefix (b : Blob) (n : Z) :
  0 <= n -> slice b 0 n = firstn (Z.to_nat n) b.
Proof.
  intros Hn. rewrite slice_nonneg by lia. rewrite Z.sub_0_r. reflexivity.
Qed.

Lemma size_slice_le (b : Blob) (start stop : Z) :
  0 <= start -> 0 <= stop -> size (slice b start stop) <= Z.max (stop - start) 0.
Proof.
  intros Hs He. rewrite slice_nonneg by lia. unfold size.
  rewrite length_firstn. lia.
Qed.

Lemma le2z_nonneg (bs : list byte) : 0 <= le2z bs.
Proof.
  induction bs as [|b bs IH]; cbn [le2z]; [lia|].
  pose proof (b2z_range b). lia.
Qed.

Lemma elements_nonneg (fuel w : nat) :
  forall buf z, In z (elements fuel w buf) -> 0 <= z.
Proof.
  induction fuel as [|fuel IH]; intros buf z; cbn [elements]; [intros []|].
  destruct buf as [|b buf]; [intros []|].
  intros [<-|Hin]; [apply le2z_nonneg | eapply IH; exact Hin].
Qed.

(** The first element of a view of unsigned integers is not negative. *)
Lemma first_view_nonneg (w : nat) (buf : list byte) (l : list Z) (z : Z) :
  typedView w buf = Return l -> riff.first l = Some z -> 0 <= z.
Proof.
  unfold typedView. destruct (_ =? 0); [|discriminate].
  intros [= <-] Hf. unfold riff.first in Hf.
  apply nth_error_In in Hf. eapply elements_nonneg; exact Hf.
Qed.

Lemma bind_Return {A B} (a : A) (k : A -> result B) : bind (Return a) k = k a.
Proof. reflexivity. Qed.

Lemma bind_assoc {A B C} (m : result A) (k : A -> result B) (h : B -> result C) :
  bind (bind m k) h = bind m (fun a => bind (k a) h).
Proof. destruct m; reflexivity. Qed.

End PlatformFacts.

(* ===================================================================== *)
(** * Numbers in messages                                                  *)
(* ===================================================================== *)

Section Messages.

Import riff.

Lemma digit_char_digitText (d : Z) : 0 <= d < 16 -> digit_char d = digitText d.
Proof.
  intros Hd.
  assert (d = 0 \/ d = 1 \/ d = 2 \/ d = 3 \/ d = 4 \/ d = 5 \/ d = 6 \/ d = 7 \/ d = 8
          \/ d = 9 \/ d = 10 \/ d = 11 \/ d = 12 \/ d = 13 \/ d = 14 \/ d = 15) as H by lia.
  repeat (destruct H as [->|H]; [reflexivity|]). subst d. reflexivity.
Qed.

Lemma length_positional (base : Z) (k : nat) :
  forall n, length (positional base k n) = k.
Proof.
  induction k as [|k IH]; intros n; cbn [positional]; [reflexivity|].
  rewrite length_app, IH. cbn. lia.
Qed.

Lemma positional_digits (base : Z) (k : nat) :
  0 < base -> forall n, Forall (fun d => 0 <= d < base) (positional base k n).
Proof.
  intros Hb. induction k as [|k IH]; intros n; cbn [positional]; [constructor|].
  apply Forall_app. split; [apply IH|].
  constructor; [|constructor]. apply Z.mod_pos_bound. exact Hb.
Qed.

Lemma map_digit_char (base : Z) (k : nat) (n : Z) :
  0 < base <= 16 ->
  map digit_char (positional base k n) = map digitText (positional base k n).
Proof.
  intros Hb. apply map_ext_in. intros d Hd.
  pose proof (positional_digits base k ltac:(lia) n) as Hall.
  rewrite Forall_forall in Hall. specialize (Hall d Hd).
  apply digit_char_digitText. lia.
Qed.

(** The digit loop of [toString] writes the digits of the number, the most
    significant first, in front of what it was given. *)
Lemma digits_positional (radix : Z) (k : nat) :
  1 < radix ->
  forall (fuel : nat) (n : Z) (acc : jsstring),
    (S k <= fuel)%nat ->
    0 <= n < radix ^ Z.of_nat (S k) ->
    (k = O \/ radix ^ Z.of_nat k <= n) ->
    digits fuel radix n acc = map digit_char (positional radix (S k) n) ++ acc.
Proof.
  intros Hr. induction k as [|k IH]; intros fuel n acc Hfuel Hn Hlow.
  - destruct fuel as [|fuel]; [lia|]. cbn [digits positional map app].
    change (Z.of_nat 1) with 1 in Hn. rewrite Z.pow_1_r in Hn.
    rewrite Z.div_small by lia. reflexivity.
  - destruct fuel as [|fuel]; [lia|]. cbn [digits].
    destruct Hlow as [Hk|Hlow]; [discriminate|].
    replace (Z.of_nat (S (S k))) with (Z.succ (Z.of_nat (S k))) in Hn by lia.
    rewrite Z.pow_succ_r in Hn by lia.
    replace (Z.of_nat (S k)) with (Z.succ (Z.of_nat k)) in Hlow by lia.
    rewrite Z.pow_succ_r in Hlow by lia.
    assert (radix ^ Z.of_nat k <= n / radix) as Hq.
    { apply Z.div_le_lower_bound; lia. }
    assert (n / radix < radix ^ Z.of_nat (S k)) as Hq'.
    { apply Z.div_lt_upper_bound; lia. }
    assert (0 < radix ^ Z.of_nat k) as Hp by (apply Z.pow_pos_nonneg; lia).
    destruct (n / radix =? 0) eqn:E; [apply Z.eqb_eq in E; lia|].
    rewrite (IH fuel (n / radix)) by lia.
    change (positional radix (S (S k)) n)
      with (positional radix (S k) (n / radix) ++ [n mod radix]).
    rewrite map_app. cbn [map]. rewrite <- app_assoc. reflexivity.
Qed.

(** [n.toString(radix)] has the [k + 1] digits of [n]. *)
Lemma toString_positional (radix : Z) (k : nat) (n : Z) :
  1 < radix <= 16 ->
  0 <= n < radix ^ Z.of_nat (S k) ->
  (k = O \/ radix ^ Z.of_nat k <= n) ->
  toString radix n = map digitText (positional radix (S k) n).
Proof.
  intros Hr Hn Hlow. unfold toString.
  rewrite (digits_positional radix k) ; try lia; try assumption.
  - rewrite app_nil_r. apply map_digit_char. lia.
  - destruct Hlow as [->|Hlow]; [lia|].
    assert (Z.of_nat k <= Z.log2 n).
    { apply Z.log2_le_pow2.
      - assert (0 < radix ^ Z.of_nat k) by (apply Z.pow_pos_nonneg; lia). lia.
      - apply Z.le_trans with (radix ^ Z.of_nat k); [|exact Hlow].
        apply Z.pow_le_mono_l. lia. }
    lia.
Qed.

Lemma toString_decimal (n : Z) : 0 <= n < 100000 -> toString 10 n = decimalText n.
Proof.
  intros Hn. unfold decimalText.
  destruct (Z.ltb_spec n 10); [apply (toString_positional 10 0); cbn; lia|].
  destruct (Z.ltb_spec n 100); [apply (toString_positional 10 1); cbn; lia|].
  destruct (Z.ltb_spec n 1000); [apply (toString_positional 10 2); cbn; lia|].
  destruct (Z.ltb_spec n 10000); [apply (toString_positional 10 3); cbn; lia|].
  apply (toString_positional 10 4); cbn; lia.
Qed.

Lemma hex2_hexText (n : Z) : 0 <= n < 65536 -> hex2 n = hexText n.
Proof.
  intros Hn. unfold hexText, hex2, padStart0.
  destruct (Z.ltb_spec n 16).
  - rewrite (toString_positional 16 0) by (cbn; lia).
    destruct (Z.ltb_spec n 256); [|lia].
    cbn [positional map app length Nat.sub repeat].
    rewrite Z.div_small by lia. rewrite Z.mod_0_l by lia. reflexivity.
  - destruct (Z.ltb_spec n 256).
    { rewrite (toString_positional 16 1) by (cbn; lia).
      rewrite length_map, length_positional. reflexivity. }
    destruct (Z.ltb_spec n 4096).
    { rewrite (toString_positional 16 2) by (cbn; lia).
      rewrite length_map, length_positional. reflexivity. }
    rewrite (toString_positional 16 3) by (cbn; lia).
    rewrite length_map, length_positional. reflexivity.
Qed.

Lemma hex2_byte (b : byte) : hex2 (b2z b) = hexText (b2z b).
Proof. pose proof (b2z_range b). apply hex2_hexText. lia. Qed.

(** The message of the header error, letter by letter. *)
Lemma headerMessage_text (j : nat) (e f : byte) :
  (j < 4)%nat ->
  headerMessage j e f
  = lit "Invalid RIFF header (expecting file[" ++ decimalText (Z.of_nat j)
    ++ lit "] == 0x" ++ hexText (b2z e)
    ++ lit ", but found 0x" ++ hexText (b2z f) ++ lit ")".
Proof.
  intros Hj. unfold headerMessage.
  rewrite toString_decimal by lia. rewrite !hex2_byte. reflexivity.
Qed.

Lemma cons_inj {A} (x y : A) (l l' : list A) : x :: l = y :: l' -> x = y /\ l = l'.
Proof. intros [= -> ->]. split; reflexivity. Qed.

Lemma digitText_inj (d d' : Z) :
  0 <= d < 16 -> 0 <= d' < 16 -> digitText d = digitText d' -> d = d'.
Proof.
  intros Hd Hd' He.
  pose (value := fun c : Z => if c <? 58 then c - 48 else c - 87).
  assert (forall x, 0 <= x < 16 -> value (digitText x) = x) as Hv.
  { intros x Hx.
    assert (x = 0 \/ x = 1 \/ x = 2 \/ x = 3 \/ x = 4 \/ x = 5 \/ x = 6 \/ x = 7 \/ x = 8
            \/ x = 9 \/ x = 10 \/ x = 11 \/ x = 12 \/ x = 13 \/ x = 14 \/ x = 15) as H by lia.
    repeat (destruct H as [->|H]; [reflexivity|]). subst x. reflexivity. }
  rewrite <- (Hv d Hd), <- (Hv d' Hd'), He. reflexivity.
Qed.

(** The two hexadecimal digits of a byte. *)
Lemma hexText_byte (b : byte) :
  hexText (b2z b) = [digitText (b2z b / 16); digitText (b2z b mod 16)].
Proof.
  pose proof (b2z_range b) as Hb. unfold hexText.
  destruct (Z.ltb_spec (b2z b) 256); [|lia].
  cbn [positional map app].
  rewrite (Z.mod_small (b2z b / 16)); [reflexivity|].
  split; [apply Z.div_pos; lia | apply Z.div_lt_upper_bound; lia].
Qed.

Lemma hexText_byte_inj (a b : byte) : hexText (b2z a) = hexText (b2z b) -> a = b.
Proof.
  rewrite !hexText_byte. intros [= Hh Hl].
  pose proof (b2z_range a) as Ha. pose proof (b2z_range b) as Hb.
  apply digitText_inj in Hh.
  2,3: split; [apply Z.div_pos; lia | apply Z.div_lt_upper_bound; lia].
  apply digitText_inj in Hl.
  2,3: apply Z.mod_pos_bound; lia.
  apply b2z_inj.
  rewrite (Z.div_mod (b2z a) 16), (Z.div_mod (b2z b) 16) by lia. lia.
Qed.

(** The message of the header error tells the index, the byte expected
    and the byte found: two messages are the same for the same three
    only. *)
Lemma headerMessage_inj (j j' : nat) (e e' f f' : byte) :
  (j < 4)%nat -> (j' < 4)%nat ->
  headerMessage j' e' f' = headerMessage j e f ->
  j' = j /\ e' = e /\ f' = f.
Proof.
  intros Hj Hj'. rewrite !headerMessage_text by assumption.
  intros H. apply app_inv_head in H.
  assert (forall k : nat, (k < 4)%nat -> decimalText (Z.of_nat k) = [48 + Z.of_nat k]) as Hd.
  { intros [|[|[|[|k]]]] Hk; try lia; reflexivity. }
  rewrite !Hd in H by assumption. cbn [app] in H.
  apply cons_inj in H as [Hjj H'].
  assert (j' = j) as -> by lia.
  apply app_inv_head in H'. rewrite !hexText_byte in H'.
  cbn [app] in H'. apply cons_inj in H' as [Hh H']. apply cons_inj in H' as [Hl H'].
  apply app_inv_head in H'. cbn [app] in H'.
  apply cons_inj in H' as [Hh' H']. apply cons_inj in H' as [Hl' _].
  repeat split.
  - apply hexText_byte_inj. rewrite !hexText_byte. congruence.
  - apply hexText_byte_inj. rewrite !hexText_byte. congruence.
Qed.

End Messages.

(* ===================================================================== *)
(** * The RIFF container: header validation                                *)
(* ===================================================================== *)

Section HeaderValidation.

Import riff.

(** The header loop stops at the first index where the file differs from
    [riff], the byte at a later index [i] being there. *)
Lemma validate_first_mismatch (n : nat) :
  forall (k i : nat) (file : list byte) (expected found : byte),
    (k <= i < k + n)%nat ->
    nth_error riff i = Some expected ->
    nth_error file i = Some found ->
    found <> expected ->
    exists j e f,
      (k <= j <= i)%nat /\ nth_error riff j = Some e /\ nth_error file j = Some f
      /\ f <> e /\ validate n k file = Throw (Error (headerMessage j e f)).
Proof.
  induction n as [|n IH]; intros k i file expected found Hi Hr Hf Hne; [lia|].
  cbn [validate].
  destruct (nth_error riff k) as [e|] eqn:Ek.
  2:{ apply nth_error_None in Ek.
      assert (nth_error riff i <> None) as Hs by congruence.
      apply nth_error_Some in Hs. lia. }
  destruct (nth_error file k) as [f|] eqn:Efk.
  2:{ apply nth_error_None in Efk.
      assert (nth_error file i <> None) as Hs by congruence.
      apply nth_error_Some in Hs. lia. }
  destruct (b2z e =? b2z f) eqn:Eq; cbn [negb].
  - apply b2z_eqb in Eq. subst f.
    assert (k <> i) as Hki by (intros ->; congruence).
    destruct (IH (S k) i file expected found) as (j & e' & f' & Hj & H1 & H2 & H3 & H4);
      try assumption; try lia.
    exists j, e', f'. repeat split; try assumption; lia.
  - exists k, e, f. repeat split; try assumption; try lia.
    intros ->. rewrite Z.eqb_refl in Eq. discriminate.
Qed.

(** A file that starts with the four bytes passes the validation. *)
Lemma validate_riff (rest : list byte) :
  validate (length riff) 0 (slice (riff ++ rest) 0 (size riff)) = Return tt.
Proof.
  rewrite slice_prefix by apply size_nonneg. reflexivity.
Qed.

Lemma nth_error_header (blob : Blob) (i : nat) :
  (i < 4)%nat -> nth_error (slice blob 0 (size riff)) i = nth_error blob i.
Proof.
  intros Hi. rewrite slice_prefix by apply size_nonneg.
  change (Z.to_nat (size riff)) with 4%nat.
  rewrite nth_error_firstn.
  destruct (Nat.ltb_spec i 4); [reflexivity | lia].
Qed.

(** Past the header every slice the decoder takes depends on the bytes
    from offset 4 on only. *)
Lemma slice_past_header (blob blob' : Blob) (start stop : Z) :
  skipn 4 blob' = skipn 4 blob ->
  4 <= start -> 0 <= stop ->
  slice blob' start stop = slice blob start stop.
Proof.
  intros Hk Hs He. rewrite !slice_nonneg by lia.
  replace (Z.to_nat start) with (Z.to_nat (start - 4) + 4)%nat by lia.
  rewrite <- !skipn_skipn, Hk. reflexivity.
Qed.

Context {T : Type}.
Variable codecs : option (RiffChunkCodecs T).

(** What the chunk walk throws is a [RangeError] of the size read or
    what a codec threw. *)
Lemma walk_throws (P : exn -> Prop) :
  P RangeError ->
  (forall i c b e, lookup codecs i = Some c -> decode c b = Throw e -> P e) ->
  forall fuel contentRaw pointer content unknowns e,
    walk codecs fuel contentRaw pointer content unknowns = Throw e -> P e.
Proof.
  intros HR HC. induction fuel as [|fuel IH]; intros contentRaw pointer content unknowns e;
    cbn [walk]; [discriminate|].
  destruct (pointer <? size contentRaw); [|discriminate].
  unfold Uint32Array_view, typedView.
  destruct (_ =? 0); cbn [bind]; [|intros [= <-]; exact HR].
  destruct (first _) as [subchunkSize|].
  - destruct (lookup codecs _) as [codec|] eqn:El.
    + destruct (decode codec _) as [d| e' |] eqn:Ed; cbn [bind].
      * apply IH.
      * intros [= <-]. eapply HC; eassumption.
      * discriminate.
    + apply IH.
  - destruct (lookup codecs _) as [codec|] eqn:El; [|discriminate].
    destruct (decode codec _) as [d| e' |] eqn:Ed; cbn [bind]; try discriminate.
    intros [= <-]. eapply HC; eassumption.
Qed.

Lemma decodeRiff_unvalidated_throws (P : exn -> Prop) :
  P RangeError ->
  (forall i c b e, lookup codecs i = Some c -> decode c b = Throw e -> P e) ->
  forall blob e, decodeRiff codecs blob false = Throw e -> P e.
Proof.
  intros HR HC blob e. unfold decodeRiff. cbn [bind].
  unfold Uint32Array_view at 1. unfold typedView.
  destruct (_ =? 0); cbn [bind]; [|intros [= <-]; exact HR].
  destruct (walk _ _ _ _ _ _) as [[c u]| e' |] eqn:Ew; cbn [bind]; try discriminate.
  intros [= <-]. eapply walk_throws; eassumption.
Qed.

(** ** C6 *)

(** C6. With header validation on, [decodeRiff] fails whenever one of the
    first four bytes of the input differs from the byte of [RIFF] at the
    same index: the error is the header error, and its message gives an
    index where the file differs (the first one), the expected byte and
    the byte found. The message reads [Invalid RIFF header (expecting
    file[j] == 0xee, but found 0xff)], the index in decimal and each byte
    as two hexadecimal digits, so that no other index, expected byte or
    found byte gives the same message. With [validateHeader] false the
    first four bytes are not looked at: two inputs that differ there only
    decode alike, and no header error comes out of [decodeRiff] unless a
    codec of the registry throws one itself. *)
Theorem C6_header_validation (blob : Blob) :
  (forall (i : nat) (expected found : byte),
      nth_error riff i = Some expected ->
      nth_error blob i = Some found ->
      found <> expected ->
      exists j e f,
        (j <= i)%nat /\ nth_error riff j = Some e /\ nth_error blob j = Some f
        /\ f <> e
        /\ decodeRiff codecs blob true = Throw (Error (headerMessage j e f))
        /\ headerMessage j e f
           = lit "Invalid RIFF header (expecting file[" ++ decimalText (Z.of_nat j)
             ++ lit "] == 0x" ++ hexText (b2z e)
             ++ lit ", but found 0x" ++ hexText (b2z f) ++ lit ")"
        /\ (forall (j' : nat) (e' f' : byte),
               (j' < 4)%nat ->
               headerMessage j' e' f' = headerMessage j e f ->
               j' = j /\ e' = e /\ f' = f))
  /\ (forall blob' : Blob,
         length blob' = length blob ->
         skipn 4 blob' = skipn 4 blob ->
         decodeRiff codecs blob' false = decodeRiff codecs blob false)
  /\ ((forall i c b j e f,
          lookup codecs i = Some c ->
          decode c b <> Throw (Error (headerMessage j e f))) ->
      forall j e f,
        decodeRiff codecs blob false <> Throw (Error (headerMessage j e f))).
Proof.
  split; [|split].
  - intros i expected found Hr Hb Hne.
    assert (i < 4)%nat as Hi.
    { assert (nth_error riff i <> None) as Hs by congruence.
      apply nth_error_Some in Hs. exact Hs. }
    destruct (validate_first_mismatch (length riff) 0 i (slice blob 0 (size riff))
                expected found) as (j & e & f & Hj & H1 & H2 & H3 & H4);
      try assumption.
    + change (length riff) with 4%nat. lia.
    + rewrite nth_error_header by exact Hi. exact Hb.
    + exists j, e, f. rewrite nth_error_header in H2 by lia.
      split; [lia|]. split; [exact H1|]. split; [exact H2|]. split; [exact H3|].
      split; [unfold decodeRiff; rewrite H4; reflexivity|].
      split; [apply headerMessage_text; lia|].
      intros j' e' f' Hj'. apply headerMessage_inj; lia.
  - intros blob' Hlen Hk. unfold decodeRiff. cbn [bind].
    rewrite (slice_past_header blob blob' 4 8) by (assumption || lia).
    rewrite (slice_past_header blob blob' 8 12) by (assumption || lia).
    rewrite (slice_past_header blob blob' 12 0) by (assumption || lia).
    destruct (Uint32Array_view (slice blob 4 8)) as [sizes| |] eqn:Es;
      cbn [bind]; try reflexivity.
    destruct (first sizes) as [sz|] eqn:Ef; [|reflexivity].
    pose proof (first_view_nonneg _ _ _ _ Es Ef).
    rewrite (slice_past_header blob blob' 12 (sz + 8)) by (assumption || lia).
    reflexivity.
  - intros Hc j e f Hthrow.
    refine (decodeRiff_unvalidated_throws
              (fun x => forall j e f, x <> Error (headerMessage j e f))
              _ _ blob _ Hthrow j e f eq_refl).
    + discriminate.
    + intros i c b x Hl Hd j' e' f' ->. exact (Hc i c b j' e' f' Hl Hd).
Qed.

End HeaderValidation.

(** A file whose fourth byte is [G], not the [F] of [RIFF], is refused
    with the message that names the index 3 and the bytes 0x46 and 0x47;
    two files that differ in their first bytes only decode alike without
    validation, and then no header error comes out. *)
Lemma C6_header_validation_witness :
  riff.decodeRiff (T := riff.UnknownRiffChunk) None [x52; x49; x46; x47; x00] true
  = Throw (Error (lit "Invalid RIFF header (expecting file[3] == 0x46, but found 0x47)"))
  /\ riff.decodeRiff (T := riff.UnknownRiffChunk) None [x00; x00; x00; x00; x00] false
     = riff.decodeRiff None [x52; x49; x46; x47; x00] false
  /\ (forall j e f,
         riff.decodeRiff (T := riff.UnknownRiffChunk) None [x52; x49; x46; x47; x00] false
         <> Throw (Error (riff.headerMessage j e f))).
Proof.
  pose proof (C6_header_validation (T := riff.UnknownRiffChunk) None
                [x52; x49; x46; x47; x00]) as (H1 & H2 & H3).
  split; [|split].
  - destruct (H1 3%nat x46 x47) as (j & e & f & Hj & He & Hf & Hne & Hd & Hm & _);
      [reflexivity | reflexivity | discriminate |].
    rewrite Hd, Hm.
    destruct j as [|[|[|[|j]]]]; cbn in He, Hf; try lia;
      injection He as <-; injection Hf as <-; try (exfalso; apply Hne; reflexivity).
    reflexivity.
  - apply H2; reflexivity.
  - apply H3. intros i c b j e f Hl. discriminate Hl.
Defined.

(* ===================================================================== *)
(** * The RIFF container: encoding                                         *)
(* ===================================================================== *)

Section EncodeRiff.

Import riff.

Lemma newBlob_app (a b : list BlobPart) : newBlob (a ++ b) = newBlob a ++ newBlob b.
Proof. unfold newBlob. apply flat_map_app. Qed.

Context {T : Type} `{RiffChunk T}.
Variable codecs : option (RiffChunkCodecs T).

Lemma dataSize_bytes (d : BlobPart) : dataSize d = size (partBytes d).
Proof.
  destruct d as [s|b|bytes]; cbn [dataSize partBytes]; try reflexivity.
  unfold newBlob. cbn [flat_map partBytes]. rewrite app_nil_r. reflexivity.
Qed.

Lemma encodeUnknowns_spec (us : list UnknownRiffChunk) :
  forall parts, encodeUnknowns us parts = parts ++ flat_map unknownRecord us.
Proof.
  induction us as [|u us IH]; intros parts; cbn [encodeUnknowns flat_map].
  - rewrite app_nil_r. reflexivity.
  - rewrite IH, dataSize_bytes, <- app_assoc. reflexivity.
Qed.

Lemma encodeContent_refused (chunks : list T) :
  forall parts chunk,
    In chunk chunks -> refused codecs chunk ->
    forall out, encodeContent codecs chunks parts <> Return out.
Proof.
  induction chunks as [|c chunks IH]; intros parts chunk Hin Hbad out; [destruct Hin|].
  cbn [encodeContent].
  destruct (length (id c) =? 4)%nat eqn:El; cbn [negb]; [|discriminate].
  destruct (lookup codecs (id c)) as [codec|] eqn:Ec; [|discriminate].
  destruct Hin as [->|Hin].
  - destruct Hbad as [Hbad|Hbad]; [|congruence].
    apply Nat.eqb_eq in El. contradiction.
  - destruct (encode codec c) as [chunk'| |]; cbn [bind]; try discriminate.
    eapply IH; eassumption.
Qed.

Lemma encodeContent_first_refused (before : list T) :
  forall parts chunk after,
    Forall (accepted codecs) before ->
    (length (id chunk) <> 4%nat ->
     encodeContent codecs (before ++ chunk :: after) parts
     = Throw (Error (lit "Chunk ID must have a length of 4 (found '"
                     ++ id chunk ++ lit "')")))
    /\ (length (id chunk) = 4%nat -> lookup codecs (id chunk) = None ->
        encodeContent codecs (before ++ chunk :: after) parts
        = Throw (Error (lit "No chunk codec for '" ++ id chunk ++ lit "'"))).
Proof.
  induction before as [|c before IH]; intros parts chunk after Hacc.
  - cbn [app encodeContent]. split.
    + intros Hl. apply Nat.eqb_neq in Hl. rewrite Hl. reflexivity.
    + intros Hl Hc. apply Nat.eqb_eq in Hl. rewrite Hl, Hc. reflexivity.
  - inversion Hacc as [|? ? (Hl & codec & bytes & Hc & He) Hacc']; subst.
    cbn [app encodeContent]. apply Nat.eqb_eq in Hl. rewrite Hl, Hc, He.
    cbn [negb bind]. apply IH. exact Hacc'.
Qed.

(** Once the content is encoded the blob is made: the header, the size
    of what follows, and the parts of the content followed by the records
    of the unknown chunks. *)
Lemma encodeRiff_returns (file : RiffFile T) (parts : list BlobPart) :
  length (type file) = 4%nat ->
  encodeContent codecs (content file) [PartString (type file)] = Return parts ->
  let contentBlob := newBlob (parts ++ flat_map unknownRecord (unknowns file)) in
  encodeRiff codecs file
  = Return (riff ++ Uint32Array_of [size contentBlob] ++ contentBlob).
Proof.
  intros Hl Hp. unfold encodeRiff. apply Nat.eqb_eq in Hl. rewrite Hl, Hp.
  cbn [negb bind]. rewrite encodeUnknowns_spec.
  unfold newBlob at 1. cbn [flat_map partBytes]. rewrite app_nil_r. reflexivity.
Qed.

(** ** C7 *)

(** C7. [encodeRiff] fails when [file.type] has not exactly four
    characters. A chunk of [content] whose id has not exactly four
    characters, or for whose id the registry has no codec, makes it fail
    too: no blob is returned whatever the place of the chunk, and the
    error is the one of the first such chunk when the chunks before it
    are encoded by their codecs. The unknown chunks are never looked up
    and never checked: once the content is encoded, the blob is returned
    and holds, after the records of the content, the id, the byte length
    and the bytes of every unknown chunk, in order. *)
Theorem C7_encodeRiff_validation (file : RiffFile T) :
  (length (type file) <> 4%nat ->
   encodeRiff codecs file
   = Throw (Error (lit "RIFF type must have a length of 4 (found '"
                   ++ type file ++ lit "')")))
  /\ (forall chunk, In chunk (content file) -> refused codecs chunk ->
      forall blob, encodeRiff codecs file <> Return blob)
  /\ (length (type file) = 4%nat ->
      forall before chunk after,
        content file = before ++ chunk :: after ->
        Forall (accepted codecs) before ->
        (length (id chunk) <> 4%nat ->
         encodeRiff codecs file
         = Throw (Error (lit "Chunk ID must have a length of 4 (found '"
                         ++ id chunk ++ lit "')")))
        /\ (length (id chunk) = 4%nat -> lookup codecs (id chunk) = None ->
            encodeRiff codecs file
            = Throw (Error (lit "No chunk codec for '" ++ id chunk ++ lit "'"))))
  /\ (length (type file) = 4%nat ->
      forall parts,
        encodeContent codecs (content file) [PartString (type file)] = Return parts ->
        let contentBlob := newBlob (parts ++ flat_map unknownRecord (unknowns file)) in
        encodeRiff codecs file
        = Return (riff ++ Uint32Array_of [size contentBlob] ++ contentBlob)).
Proof.
  unfold encodeRiff. split; [|split; [|split]].
  - intros Hl. apply Nat.eqb_neq in Hl. rewrite Hl. reflexivity.
  - intros chunk Hin Hbad blob.
    destruct (length (type file) =? 4)%nat; cbn [negb]; [|discriminate].
    destruct (encodeContent codecs (content file) _) as [parts| |] eqn:E;
      cbn [bind]; try discriminate.
    exfalso. eapply encodeContent_refused; eassumption.
  - intros Hl before chunk after Hc Hacc. apply Nat.eqb_eq in Hl.
    rewrite Hl, Hc. cbn [negb].
    destruct (encodeContent_first_refused before [PartString (type file)] chunk after Hacc)
      as [H1 H2].
    split.
    + intros Hn. rewrite (H1 Hn). reflexivity.
    + intros Hn Hk. rewrite (H2 Hn Hk). reflexivity.
  - intros Hl parts Hp. apply encodeRiff_returns; assumption.
Qed.

End EncodeRiff.

(** A type of three characters, a chunk of three characters and a chunk
    without codec are refused; a file with unknown chunks only is
    encoded, whatever their ids. *)
Lemma C7_encodeRiff_validation_witness :
  let chunk := {| riff.unknown_id := lit "abc"; riff.data := riff.PartBuffer [x01] |} in
  let good := {| riff.unknown_id := lit "abcd"; riff.data := riff.PartBuffer [x01] |} in
  riff.encodeRiff None {| riff.type := lit "WAV"; riff.content := [chunk]; riff.unknowns := [] |}
  = Throw (Error (lit "RIFF type must have a length of 4 (found 'WAV')"))
  /\ (forall blob,
         riff.encodeRiff None
           {| riff.type := lit "WAVE"; riff.content := [good]; riff.unknowns := [] |}
         <> Return blob)
  /\ riff.encodeRiff None
       {| riff.type := lit "WAVE"; riff.content := [chunk]; riff.unknowns := [] |}
     = Throw (Error (lit "Chunk ID must have a length of 4 (found 'abc')"))
  /\ riff.encodeRiff None
       {| riff.type := lit "WAVE"; riff.content := [good]; riff.unknowns := [] |}
     = Throw (Error (lit "No chunk codec for 'abcd'"))
  /\ riff.encodeRiff (T := riff.UnknownRiffChunk) None
       {| riff.type := lit "WAVE"; riff.content := []; riff.unknowns := [chunk] |}
     = Return (riff.riff ++ [x0c; x00; x00; x00]
               ++ [x57; x41; x56; x45; x61; x62; x63; x01; x00; x00; x00; x01]).
Proof.
  intros chunk good.
  pose proof (C7_encodeRiff_validation None
                {| riff.type := lit "WAV"; riff.content := [chunk]; riff.unknowns := [] |})
    as (Htype & _).
  pose proof (C7_encodeRiff_validation None
                {| riff.type := lit "WAVE"; riff.content := [good]; riff.unknowns := [] |})
    as (_ & Hany & Hfirst & _).
  pose proof (C7_encodeRiff_validation None
                {| riff.type := lit "WAVE"; riff.content := [chunk]; riff.unknowns := [] |})
    as (_ & _ & Hid & _).
  pose proof (C7_encodeRiff_validation (T := riff.UnknownRiffChunk) None
                {| riff.type := lit "WAVE"; riff.content := []; riff.unknowns := [chunk] |})
    as (_ & _ & _ & Hunknown).
  split; [|split; [|split; [|split]]].
  - apply Htype. cbn. lia.
  - apply (Hany good); [left; reflexivity | right; reflexivity].
  - apply (Hid eq_refl [] chunk [] eq_refl (Forall_nil _)). cbn. lia.
  - apply (Hfirst eq_refl [] good [] eq_refl (Forall_nil _)); reflexivity.
  - apply (Hunknown eq_refl [riff.PartString (lit "WAVE")] eq_refl).
Defined.

(* ===================================================================== *)
(** * The [fmt ] codec                                                     *)
(* ===================================================================== *)

Section FmtCodec.

Import wave.

Lemma size_cons (b : byte) (bs : Blob) : size (b :: bs) = 1 + size bs.
Proof. unfold size. cbn [length]. lia. Qed.

(** A blob of at least [n] bytes is its first [n] bytes and a rest. *)
Lemma long_blob (n : nat) (b : Blob) :
  Z.of_nat n <= size b -> b = firstn n b ++ skipn n b /\ length (firstn n b) = n.
Proof.
  unfold size. intros Hn. split.
  - symmetry. apply firstn_skipn.
  - rewrite length_firstn. lia.
Qed.

(** The format decoded for a format id: the [switch] of the decoder. *)
Lemma fmt_decode_short_head (blob : Blob) (formatId : Z) :
  size blob = 2 \/ 4 <= size blob ->
  le2z (firstn 2 blob) = formatId ->
  formatId <> 1 -> formatId <> 3 ->
  fmt_decode blob
  = Throw (Error (lit "Unsupported audio data format: 0x" ++ hex2 formatId)).
Proof.
  intros Hsz Hid H1 H3. unfold fmt_decode.
  rewrite slice_prefix by lia.
  destruct blob as [|b0 [|b1 blob]]; try (unfold size in Hsz; cbn in Hsz; lia).
  destruct blob as [|b2 [|b3 blob]].
  - cbn [firstn] in Hid. change (firstn (Z.to_nat 4) [b0; b1]) with [b0; b1].
    unfold Uint16Array_view, typedView. cbn -[le2z hex2 lit].
    rewrite Hid.
    destruct formatId as [|[[p|p|]|p|]|p]; try reflexivity; congruence.
  - unfold size in Hsz; cbn in Hsz; lia.
  - change (firstn (Z.to_nat 4) (b0 :: b1 :: b2 :: b3 :: blob)) with [b0; b1; b2; b3].
    cbn [firstn] in Hid. unfold Uint16Array_view, typedView.
    cbn -[le2z hex2 lit]. rewrite Hid.
    destruct formatId as [|[[p|p|]|p|]|p]; try reflexivity; congruence.
Qed.

(** A chunk of the fixed layout whose format id is 1 or 3 is decoded: the
    six fields are the little-endian integers at their offsets. *)
Lemma fmt_decode_fields (blob : Blob) :
  16 <= size blob ->
  le2z (firstn 2 blob) = 1 \/ le2z (firstn 2 blob) = 3 ->
  fmt_decode blob
  = Return {| audioFormat := if le2z (firstn 2 blob) =? 1 then PCM else Floats;
              channels := Some (le2z (firstn 2 (skipn 2 blob)));
              sampleRate := Some (le2z (firstn 4 (skipn 4 blob)));
              byteRate := Some (le2z (firstn 4 (skipn 8 blob)));
              blockAlign := Some (le2z (firstn 2 (skipn 12 blob)));
              bitsPerChannel := Some (le2z (firstn 2 (skipn 14 blob))) |}.
Proof.
  intros Hsz Hid. unfold fmt_decode.
  rewrite !slice_nonneg by lia.
  destruct (long_blob 16 blob Hsz) as [Hb Hl].
  destruct (firstn 16 blob)
    as [|b0 [|b1 [|b2 [|b3 [|b4 [|b5 [|b6 [|b7 [|b8 [|b9 [|b10 [|b11 [|b12
        [|b13 [|b14 [|b15 [|? ?]]]]]]]]]]]]]]]]] eqn:E; try discriminate Hl.
  rewrite Hb in *. clear Hb Hl E.
  cbn [firstn skipn app] in *.
  change (Z.to_nat (4 - 0)) with 4%nat. change (Z.to_nat 0) with 0%nat.
  change (Z.to_nat (12 - 4)) with 8%nat. change (Z.to_nat 4) with 4%nat.
  change (Z.to_nat (16 - 12)) with 4%nat. change (Z.to_nat 12) with 12%nat.
  cbn [firstn skipn].
  unfold Uint16Array_view, Uint32Array_view, typedView.
  cbn -[le2z].
  destruct Hid as [Hid|Hid]; rewrite Hid; reflexivity.
Qed.

(** The format id is a 16-bit number. *)
Lemma formatId_range (blob : Blob) : 0 <= le2z (firstn 2 blob) < 65536.
Proof.
  destruct blob as [|a [|b blob]]; cbn [firstn le2z].
  - lia.
  - pose proof (b2z_range a). lia.
  - pose proof (b2z_range a). pose proof (b2z_range b). lia.
Qed.

(** ** C5 *)

(** C5. Decoding a [fmt ] chunk fails with the unsupported-format error
    for every format id other than 1 and 3: the message is [Unsupported
    audio data format: 0x] followed by the format id in hexadecimal, in
    lower case, with two digits at least (65534 gives [0xfffe], 2 gives
    [0x02]). For 1 ([PCM]) and 3 ([Floats]) decoding a chunk of the fixed
    layout of 16 bytes succeeds, and the six fields are the little-endian
    integers at the offsets 0, 2, 4, 8, 12 and 14. *)
Theorem C5_fmt_decode (blob : Blob) :
  let formatId := le2z (firstn 2 blob) in
  (size blob = 2 \/ 4 <= size blob ->
   formatId <> 1 -> formatId <> 3 ->
   fmt_decode blob
   = Throw (Error (lit "Unsupported audio data format: 0x" ++ hexText formatId)))
  /\ (16 <= size blob ->
      formatId = 1 \/ formatId = 3 ->
      fmt_decode blob
      = Return {| audioFormat := if formatId =? 1 then PCM else Floats;
                  channels := Some (le2z (firstn 2 (skipn 2 blob)));
                  sampleRate := Some (le2z (firstn 4 (skipn 4 blob)));
                  byteRate := Some (le2z (firstn 4 (skipn 8 blob)));
                  blockAlign := Some (le2z (firstn 2 (skipn 12 blob)));
                  bitsPerChannel := Some (le2z (firstn 2 (skipn 14 blob))) |}).
Proof.
  intros formatId. split.
  - intros Hsz H1 H3.
    rewrite <- (hex2_hexText formatId) by apply formatId_range.
    apply fmt_decode_short_head; auto.
  - intros Hsz Hid. apply fmt_decode_fields; assumption.
Qed.

End FmtCodec.

(** The 16 bytes of a PCM format chunk (2 channels, 44100 Hz, 16 bits)
    are decoded; the same bytes with the format id 2, with the id 17 of
    IMA ADPCM and with the id 65534 of the extensible format are refused,
    the id being written in hexadecimal. *)
Lemma C5_fmt_decode_witness :
  wave.fmt_decode [x02; x00; x02; x00; x44; xac; x00; x00;
                   x10; xb1; x02; x00; x04; x00; x10; x00]
  = Throw (Error (lit "Unsupported audio data format: 0x02"))
  /\ wave.fmt_decode [x11; x00; x02; x00; x44; xac; x00; x00;
                      x10; xb1; x02; x00; x04; x00; x10; x00]
     = Throw (Error (lit "Unsupported audio data format: 0x11"))
  /\ wave.fmt_decode [xfe; xff; x02; x00; x44; xac; x00; x00;
                      x10; xb1; x02; x00; x04; x00; x10; x00]
     = Throw (Error (lit "Unsupported audio data format: 0xfffe"))
  /\ wave.fmt_decode [x01; x00; x02; x00; x44; xac; x00; x00;
                      x10; xb1; x02; x00; x04; x00; x10; x00]
     = Return {| wave.audioFormat := wave.PCM;
                 wave.channels := Some 2;
                 wave.sampleRate := Some 44100;
                 wave.byteRate := Some 176400;
                 wave.blockAlign := Some 4;
                 wave.bitsPerChannel := Some 16 |}.
Proof.
  split; [|split; [|split]].
  - apply (proj1 (C5_fmt_decode [x02; x00; x02; x00; x44; xac; x00; x00;
                                 x10; xb1; x02; x00; x04; x00; x10; x00]));
      [right | |]; vm_compute; congruence.
  - apply (proj1 (C5_fmt_decode [x11; x00; x02; x00; x44; xac; x00; x00;
                                 x10; xb1; x02; x00; x04; x00; x10; x00]));
      [right | |]; vm_compute; congruence.
  - apply (proj1 (C5_fmt_decode [xfe; xff; x02; x00; x44; xac; x00; x00;
                                 x10; xb1; x02; x00; x04; x00; x10; x00]));
      [right | |]; vm_compute; congruence.
  - apply (proj2 (C5_fmt_decode [x01; x00; x02; x00; x44; xac; x00; x00;
                                 x10; xb1; x02; x00; x04; x00; x10; x00])).
    + vm_compute. congruence.
    + left. reflexivity.
Defined.

(* ===================================================================== *)
(** * [decodeWav]: the chunks it requires                                  *)
(* ===================================================================== *)

Section RequiredChunks.

Import riff wave wav.

Lemma str_eqb_eq (a b : jsstring) : str_eqb a b = true <-> a = b.
Proof.
  revert b. induction a as [|x a IH]; intros [|y b]; cbn [str_eqb];
    try (split; [discriminate | congruence]); try tauto.
  rewrite andb_true_iff, Z.eqb_eq, IH. split; [intros [-> ->]; reflexivity|].
  intros [= -> ->]. split; reflexivity.
Qed.

Lemma str_eqb_refl (a : jsstring) : str_eqb a a = true.
Proof. apply str_eqb_eq. reflexivity. Qed.

Lemma findFormat_None (content : Datatypes.list WaveRiffChunk) :
  findFormat content = None <-> (forall c, In c content -> id c <> lit "fmt ").
Proof.
  unfold findFormat. split.
  - intros Hf c Hin Hid.
    destruct (find _ content) as [found|] eqn:E.
    + apply find_some in E. destruct E as [_ E]. apply str_eqb_eq in E.
      destruct found; try discriminate.
    + eapply find_none in E; [|exact Hin]. cbv beta in E.
      rewrite Hid, str_eqb_refl in E. discriminate.
  - intros Hno. destruct (find _ content) as [found|] eqn:E; [|reflexivity].
    apply find_some in E. destruct E as [Hin E]. apply str_eqb_eq in E.
    exfalso. exact (Hno found Hin E).
Qed.

Lemma findData_None (content : Datatypes.list WaveRiffChunk) :
  findData content = None <-> (forall c, In c content -> id c <> lit "data").
Proof.
  unfold findData. split.
  - intros Hf c Hin Hid.
    destruct (find _ content) as [found|] eqn:E.
    + apply find_some in E. destruct E as [_ E]. apply str_eqb_eq in E.
      destruct found; try discriminate.
    + eapply find_none in E; [|exact Hin]. cbv beta in E.
      rewrite Hid, str_eqb_refl in E. discriminate.
  - intros Hno. destruct (find _ content) as [found|] eqn:E; [|reflexivity].
    apply find_some in E. destruct E as [Hin E]. apply str_eqb_eq in E.
    exfalso. exact (Hno found Hin E).
Qed.

Lemma findInfo_None (content : Datatypes.list WaveRiffChunk) :
  findInfo content = None
  <-> (forall l, In (ListChunk l) content -> wave.type l <> lit "INFO").
Proof.
  unfold findInfo. split.
  - intros Hf l Hin Hty.
    destruct (find _ content) as [found|] eqn:E.
    + apply find_some in E. destruct E as [_ E].
      destruct found; (discriminate || (cbn in E; discriminate)).
    + eapply find_none in E; [|exact Hin]. cbv beta iota in E.
      rewrite Hty, !str_eqb_refl in E. discriminate.
  - intros Hno. destruct (find _ content) as [found|] eqn:E; [|reflexivity].
    apply find_some in E. destruct E as [Hin E].
    destruct found as [c|l|c]; try reflexivity.
    apply andb_true_iff in E. destruct E as [_ E]. apply str_eqb_eq in E.
    exfalso. exact (Hno l Hin E).
Qed.

(** A counted loop whose body returns, returns. *)
Lemma for_returns {S : Type} (body : nat -> S -> result S) :
  (forall i s, exists s', body i s = Return s') ->
  forall n i s, exists s', for_ n i body s = Return s'.
Proof.
  intros Hb. induction n as [|n IH]; intros i s; cbn [for_].
  - exists s. reflexivity.
  - destruct (Hb i s) as [s' ->]. cbn [bind]. apply IH.
Qed.

(** The de-interleaving loops throw nothing. *)
Lemma deinterleave_no_throw out convert format byteLength content e :
  deinterleave out convert format byteLength content <> Throw e.
Proof.
  unfold deinterleave. destruct (channels format) as [n|]; [|discriminate].
  destruct (n =? 0); [destruct (byteLength =? 0); discriminate|].
  match goal with
  | |- for_ ?k ?j ?body ?s0 <> _ =>
      assert (forall i s, exists s', body i s = Return s') as Hbody;
        [|destruct (for_returns body Hbody k j s0) as [s' ->]; discriminate]
  end.
  intros i s. apply for_returns. intros ch s'. eexists. reflexivity.
Qed.

Variable ToNumber : jsstring -> number.number.

(** ** C8 *)

(** C8. After the container is decoded, [decodeWav] fails with the error
    that names the [fmt ] chunk when no chunk has that id, and with the
    error that names the [data] chunk when there is a [fmt ] chunk and no
    chunk has that id. When both are there neither error is raised, and
    when no [LIST] chunk has the type [INFO] the track information of the
    file returned is [null]. *)
Theorem C8_decodeWav_required_chunks (fuel : nat) (blob : Blob) (mode : Mode)
        (file : RiffFile WaveRiffChunk) :
  decodeRiff (Some (waveCodec fuel)) blob true = Return file ->
  ((forall c, In c (content file) -> id c <> lit "fmt ") ->
   decodeWav ToNumber fuel blob mode
   = Throw (Error (lit "Missing 'fmt ' chunk in provided .wav file")))
  /\ ((exists c, In c (content file) /\ id c = lit "fmt ") ->
      (forall c, In c (content file) -> id c <> lit "data") ->
      decodeWav ToNumber fuel blob mode
      = Throw (Error (lit "Missing 'data' chunk in provided .wav file")))
  /\ ((exists c, In c (content file) /\ id c = lit "fmt ") ->
      (exists c, In c (content file) /\ id c = lit "data") ->
      decodeWav ToNumber fuel blob mode
      <> Throw (Error (lit "Missing 'fmt ' chunk in provided .wav file"))
      /\ decodeWav ToNumber fuel blob mode
         <> Throw (Error (lit "Missing 'data' chunk in provided .wav file")))
  /\ ((forall l, In (ListChunk l) (content file) -> wave.type l <> lit "INFO") ->
      forall w, decodeWav ToNumber fuel blob mode = Return w -> info w = None).
Proof.
  intros Hfile. unfold decodeWav. rewrite Hfile. cbn [bind].
  assert (forall i, (exists c, In c (content file) /\ id c = i) ->
                    ~ (forall c, In c (content file) -> id c <> i)) as Hex.
  { intros i (c & Hin & Hid) Hno. exact (Hno c Hin Hid). }
  split; [|split; [|split]].
  - intros Hno. apply findFormat_None in Hno. rewrite Hno. reflexivity.
  - intros Hf Hno. apply Hex in Hf. rewrite <- findFormat_None in Hf.
    destruct (findFormat (content file)); [|contradiction].
    apply findData_None in Hno. rewrite Hno. reflexivity.
  - intros Hf Hd. apply Hex in Hf. apply Hex in Hd.
    rewrite <- findFormat_None in Hf. rewrite <- findData_None in Hd.
    destruct (findFormat (content file)) as [format|]; [|contradiction].
    destruct (findData (content file)) as [raw|]; [|contradiction].
    assert (forall e,
               e = lit "Missing 'fmt ' chunk in provided .wav file"
               \/ e = lit "Missing 'data' chunk in provided .wav file" ->
               forall (conv : result (WaveCodingModeMap mode)),
                 (forall x, conv = Throw x -> x = TypeError \/ x = RangeError
                                              \/ x = unsupportedBits (bitsPerChannel format)) ->
                 (data <- conv ;;
                  Return {| format := format;
                            info := trackInfo ToNumber (findInfo (content file));
                            data := data |}) <> Throw (Error e)) as Hconv.
    { intros e He conv Hc. destruct conv as [d|x|]; cbn [bind]; try discriminate.
      intros [= ->]. destruct (Hc _ eq_refl) as [H|[H|H]]; try discriminate H.
      unfold unsupportedBits in H. destruct He as [-> | ->]; discriminate H. }
    match goal with
    | |- (data <- ?conv ;; _) <> _ /\ _ =>
        assert (forall x, conv = Throw x ->
                          x = TypeError \/ x = RangeError
                          \/ x = unsupportedBits (bitsPerChannel format)) as Hthrows
    end.
    { intros x. destruct mode; cbn [WaveCodingModeMap].
      - discriminate.
      - destruct (wave.data raw); cbn [bufferOf]; intros [= <-]; auto.
      - destruct (wave.data raw); cbn [bufferOf bind]; try (intros [= <-]; auto).
        all: destruct (dtypes _ _) as [[[ty lo] hi]|]; [|intros [= <-]; auto].
        all: unfold number.view; destruct (_ =? 0); cbn [bind]; [|intros [= <-]; auto].
        all: intros Hd'; apply deinterleave_no_throw in Hd'; destruct Hd'.
      - destruct (wave.data raw); cbn [bufferOf bind]; try (intros [= <-]; auto).
        all: destruct (dtypes _ _) as [[[ty lo] hi]|]; [|intros [= <-]; auto].
        all: unfold number.view; destruct (_ =? 0); cbn [bind]; [|intros [= <-]; auto].
        all: intros Hd'; apply deinterleave_no_throw in Hd'; destruct Hd'. }
    split; apply Hconv; auto.
  - intros Hno w. apply findInfo_None in Hno. rewrite Hno.
    destruct (findFormat (content file)); [|discriminate].
    destruct (findData (content file)); [|discriminate].
    match goal with |- (data <- ?conv ;; _) = _ -> _ => destruct conv end;
      cbn [bind]; try discriminate.
    intros [= <-]. reflexivity.
Qed.

End RequiredChunks.

(** A file without chunk misses the [fmt ] chunk, a file with a [fmt ]
    chunk only misses the [data] chunk, and a file with both and no
    [LIST] chunk is decoded with no track information. *)
Lemma C8_decodeWav_required_chunks_witness :
  wav.decodeWav noNumber 0 emptyWave wav.raw_blob
  = Throw (Error (lit "Missing 'fmt ' chunk in provided .wav file"))
  /\ wav.decodeWav noNumber 0 formatOnlyWave wav.raw_blob
     = Throw (Error (lit "Missing 'data' chunk in provided .wav file"))
  /\ (wav.decodeWav noNumber 0 silentWave wav.channels_float32
      <> Throw (Error (lit "Missing 'fmt ' chunk in provided .wav file"))
      /\ wav.decodeWav noNumber 0 silentWave wav.channels_float32
         <> Throw (Error (lit "Missing 'data' chunk in provided .wav file")))
  /\ (forall w, wav.decodeWav noNumber 0 silentWave wav.channels_float32 = Return w ->
                wav.info w = None).
Proof.
  pose proof (C8_decodeWav_required_chunks noNumber 0 emptyWave wav.raw_blob
                {| riff.type := lit "WAVE"; riff.content := []; riff.unknowns := [] |}
                ltac:(vm_compute; reflexivity)) as (Hfmt & _).
  pose proof (C8_decodeWav_required_chunks noNumber 0 formatOnlyWave wav.raw_blob
                {| riff.type := lit "WAVE";
                   riff.content := [wave.FormatChunk mono16];
                   riff.unknowns := [] |}
                ltac:(vm_compute; reflexivity)) as (_ & Hdata & _).
  pose proof (C8_decodeWav_required_chunks noNumber 0 silentWave wav.channels_float32
                {| riff.type := lit "WAVE";
                   riff.content :=
                     [wave.FormatChunk mono16;
                      wave.DataChunk {| wave.data := riff.PartBlob [x00; x00] |}];
                   riff.unknowns := [] |}
                ltac:(vm_compute; reflexivity)) as (_ & _ & Hboth & Hinfo).
  split; [|split; [|split]].
  - apply Hfmt. intros c [].
  - apply Hdata.
    + exists (wave.FormatChunk mono16). split; [left|]; reflexivity.
    + intros c [<-|[]]. discriminate.
  - apply Hboth.
    + exists (wave.FormatChunk mono16). split; [left|]; reflexivity.
    + exists (wave.DataChunk {| wave.data := riff.PartBlob [x00; x00] |}).
      split; [right; left|]; reflexivity.
  - apply Hinfo. intros l [H|[H|[]]]; discriminate H.
Defined.

(* ===================================================================== *)
(** * The RIFF container: the bytes the decoder reads                      *)
(* ===================================================================== *)

Section DecodedExtent.

Import riff.

(** A slice that ends inside the first [n] bytes is a slice of them. *)
Lemma slice_firstn (b : Blob) (n : nat) (start stop : Z) :
  0 <= start -> 0 <= stop <= Z.of_nat n ->
  slice (firstn n b) start stop = slice b start stop.
Proof.
  intros Hs He. rewrite !slice_nonneg by lia.
  destruct (Z_le_gt_dec start (Z.of_nat n)) as [Hle|Hgt].
  - rewrite skipn_firstn_comm, firstn_firstn.
    f_equal. lia.
  - replace (Z.to_nat (stop - start)) with 0%nat by lia. reflexivity.
Qed.

Lemma extent_firstn (b : Blob) (n : nat) :
  (12 <= n)%nat -> extent (firstn n b) = extent b.
Proof.
  intros Hn. unfold extent. rewrite slice_firstn by lia. reflexivity.
Qed.

Lemma extent_min (b : Blob) : 12 <= extent b.
Proof.
  unfold extent. destruct (Uint32Array_view _) as [l| |]; try lia.
  destruct (first l); lia.
Qed.

Context {T : Type}.
Variable codecs : option (RiffChunkCodecs T).

(** Decoding the first [n] bytes of a blob, [n] reaching its extent, is
    decoding the blob. *)
Lemma decodeRiff_firstn (b : Blob) (n : nat) (validateHeader : bool) :
  extent b <= Z.of_nat n ->
  decodeRiff codecs (firstn n b) validateHeader = decodeRiff codecs b validateHeader.
Proof.
  intros Hn. pose proof (extent_min b) as Hmin. unfold decodeRiff.
  rewrite (slice_firstn b n 0 (size riff)) by (change (size riff) with 4; lia).
  rewrite (slice_firstn b n 4 8) by lia.
  rewrite (slice_firstn b n 8 12) by lia.
  rewrite (slice_firstn b n 12 0) by lia.
  destruct (if validateHeader then _ else _) as [[]| |]; cbn [bind]; try reflexivity.
  unfold extent in Hn.
  destruct (Uint32Array_view (slice b 4 8)) as [sizes| |] eqn:Es; cbn [bind]; try reflexivity.
  destruct (first sizes) as [sz|] eqn:Ef; [|reflexivity].
  pose proof (first_view_nonneg _ _ _ _ Es Ef).
  rewrite (slice_firstn b n 12 (sz + 8)) by lia. reflexivity.
Qed.

(** ** C10 *)

(** C10 (amended). [decodeRiff] reads the bytes [0, max (size + 8) 12) of
    its input only, [size] being the container size at the bytes 4 to 8:
    two inputs that agree on these bytes are decoded alike, so that bytes
    appended after them change neither the type, nor the content, nor the
    unknown chunks. (The type at the bytes 8 to 12 is read whatever the
    container size.) *)
Theorem C10_decodeRiff_reads_extent (b1 b2 : Blob) (validateHeader : bool) :
  firstn (Z.to_nat (extent b1)) b1 = firstn (Z.to_nat (extent b1)) b2 ->
  decodeRiff codecs b1 validateHeader = decodeRiff codecs b2 validateHeader.
Proof.
  intros Hagree. pose proof (extent_min b1) as Hmin.
  assert (extent b2 = extent b1) as He.
  { rewrite <- (extent_firstn b2 (Z.to_nat (extent b1))) by lia.
    rewrite <- Hagree. apply extent_firstn. lia. }
  rewrite <- (decodeRiff_firstn b1 (Z.to_nat (extent b1))) by lia.
  rewrite <- (decodeRiff_firstn b2 (Z.to_nat (extent b1))) by lia.
  rewrite Hagree. reflexivity.
Qed.

End DecodedExtent.

(** Two bytes appended to [silentWave] are not read. *)
Lemma C10_decodeRiff_reads_extent_witness :
  riff.decodeRiff (Some (wave.waveCodec 0)) silentWave true
  = riff.decodeRiff (Some (wave.waveCodec 0)) (silentWave ++ [xff; xff]) true.
Proof.
  apply (C10_decodeRiff_reads_extent (Some (wave.waveCodec 0)) silentWave
           (silentWave ++ [xff; xff]) true).
  vm_compute. reflexivity.
Defined.

(** C10 as it is stated fails: with a container size of 0 the two files
    agree on the bytes [0, size + 8), and the bytes 8 to 12, which follow
    them, are decoded as the type. *)
Lemma C10_counterexample :
  let b1 := riff.riff ++ [x00; x00; x00; x00] in
  let b2 := b1 ++ [x57; x41; x56; x45] in
  riff.first [0] = Some 0
  /\ Uint32Array_view (slice b1 4 8) = Return [0]
  /\ firstn (Z.to_nat (0 + 8)) b1 = firstn (Z.to_nat (0 + 8)) b2
  /\ riff.decodeRiff (T := riff.UnknownRiffChunk) None b1 true
     = Return {| riff.type := []; riff.content := []; riff.unknowns := [] |}
  /\ riff.decodeRiff (T := riff.UnknownRiffChunk) None b2 true
     = Return {| riff.type := lit "WAVE"; riff.content := []; riff.unknowns := [] |}
  /\ ~ reads_only_declared_extent.
Proof.
  intros b1 b2.
  assert (riff.decodeRiff (T := riff.UnknownRiffChunk) None b1 true
          = Return {| riff.type := []; riff.content := []; riff.unknowns := [] |}) as H1
      by (vm_compute; reflexivity).
  assert (riff.decodeRiff (T := riff.UnknownRiffChunk) None b2 true
          = Return {| riff.type := lit "WAVE"; riff.content := []; riff.unknowns := [] |})
    as H2 by (vm_compute; reflexivity).
  repeat split; try assumption; try reflexivity.
  intros Hclaim.
  specialize (Hclaim riff.UnknownRiffChunk None b1 b2 true [0] 0 eq_refl eq_refl eq_refl).
  rewrite H1, H2 in Hclaim. discriminate Hclaim.
Qed.

(* ===================================================================== *)
(** * The RIFF container: records cut short                                *)
(* ===================================================================== *)

Section CutRecords.

Import riff.

Lemma size_slice (b : Blob) (start stop : Z) :
  0 <= start -> 0 <= stop ->
  size (slice b start stop) = Z.max 0 (Z.min stop (size b) - Z.min start (size b)).
Proof.
  intros Hs He. rewrite slice_nonneg by lia. unfold size.
  rewrite length_firstn, length_skipn. lia.
Qed.

(** A slice whose end is past the end of the blob is what is left of the
    blob. *)
Lemma slice_to_end (b : Blob) (start stop : Z) :
  0 <= start -> size b <= stop -> slice b start stop = skipn (Z.to_nat start) b.
Proof.
  intros Hs He. pose proof (size_nonneg b). rewrite slice_nonneg by lia.
  apply firstn_all2. rewrite length_skipn. unfold size in *. lia.
Qed.

Lemma slice_empty (b : Blob) (start stop : Z) :
  0 <= start -> 0 <= stop -> Z.min stop (size b) <= start -> slice b start stop = [].
Proof.
  intros Hs He Hle. pose proof (size_slice b start stop Hs He) as Hz.
  unfold size in Hz. destruct (slice b start stop); [reflexivity|].
  cbn [length] in Hz. unfold size in Hle. lia.
Qed.

(** The view of four bytes is the integer they stand for. *)
Lemma Uint32Array_view_word (bytes : list byte) :
  length bytes = 4%nat -> Uint32Array_view bytes = Return [le2z bytes].
Proof.
  intros Hl. unfold Uint32Array_view, typedView. rewrite Hl.
  destruct bytes as [|b0 [|b1 [|b2 [|b3 [|? ?]]]]]; try discriminate Hl.
  reflexivity.
Qed.

Context {T : Type}.
Variable codecs : option (RiffChunkCodecs T).

(** ** C9 *)

(** C9 (amended). In the chunk walk of [decodeRiff] only a size field cut
    to one, two or three bytes makes the decoding fail, with the
    [RangeError] of the typed array. An id cut short is the text of the
    bytes that are there; without any byte of the size field the record
    is stored with an empty payload and the walk ends; a payload told
    longer than the bytes that are left is the bytes that are left, and
    the walk ends. In these cases no error is raised, unless the codec of
    the id raises one on the payload. *)
Theorem C9_walk_cut_records (fuel : nat) (contentRaw : Blob) (pointer : Z)
        (content : list T) (unknowns : list UnknownRiffChunk) :
  0 <= pointer < size contentRaw ->
  let remaining := size contentRaw - pointer in
  let id := text (slice contentRaw pointer (pointer + 4)) in
  (4 < remaining < 8 ->
   walk codecs (S fuel) contentRaw pointer content unknowns = Throw RangeError)
  /\ (remaining <= 4 ->
      id = text (skipn (Z.to_nat pointer) contentRaw)
      /\ walk codecs (S fuel) contentRaw pointer content unknowns
         = lastRecord codecs id [] content unknowns)
  /\ (8 <= remaining ->
      remaining - 8 < le2z (slice contentRaw (pointer + 4) (pointer + 8)) ->
      walk codecs (S (S fuel)) contentRaw pointer content unknowns
      = lastRecord codecs id (skipn (Z.to_nat (pointer + 8)) contentRaw) content unknowns).
Proof.
  intros Hp remaining id. subst remaining.
  assert ((pointer <? size contentRaw) = true) as Hlt by (apply Z.ltb_lt; lia).
  pose proof (size_slice contentRaw (pointer + 4) (pointer + 8)) as Hsz.
  split; [|split].
  - intros Hleft. cbn [walk]. rewrite Hlt.
    unfold Uint32Array_view, typedView. fold (size (slice contentRaw (pointer + 4) (pointer + 8))).
    rewrite Hsz by lia.
    replace (Z.max 0 (Z.min (pointer + 8) (size contentRaw)
                      - Z.min (pointer + 4) (size contentRaw)))
      with (size contentRaw - pointer - 4) by lia.
    destruct (Z.eqb_spec ((size contentRaw - pointer - 4) mod Z.of_nat 4) 0) as [E|E];
      [|reflexivity].
    exfalso. change (Z.of_nat 4) with 4 in E.
    rewrite Z.mod_small in E by lia. lia.
  - intros Hleft. split.
    + subst id. f_equal. apply slice_to_end; lia.
    + cbn [walk]. rewrite Hlt.
      rewrite (slice_empty contentRaw (pointer + 4) (pointer + 8)) by lia.
      cbn [Uint32Array_view typedView length Z.of_nat Z.modulo Z.eqb elements bind first
           nth_error].
      rewrite (slice_empty contentRaw (pointer + 8) 0) by lia.
      unfold lastRecord. fold id. destruct (lookup codecs id); reflexivity.
  - intros Hleft Hbig.
    assert (length (slice contentRaw (pointer + 4) (pointer + 8)) = 4%nat) as Hl4.
    { specialize (Hsz ltac:(lia) ltac:(lia)). unfold size in Hsz. unfold size in Hleft. lia. }
    remember (S fuel) as fuel' eqn:Ef. cbn [walk]. rewrite Hlt.
    rewrite (Uint32Array_view_word _ Hl4). cbn [bind first nth_error].
    set (subchunkSize := le2z (slice contentRaw (pointer + 4) (pointer + 8))) in *.
    rewrite (slice_to_end contentRaw (pointer + 8) (pointer + 8 + subchunkSize)) by lia.
    assert (forall c u, walk codecs fuel' contentRaw (pointer + (subchunkSize + 8)) c u
                        = Return (c, u)) as Hend.
    { intros c u. subst fuel'. cbn [walk].
      destruct (Z.ltb_spec (pointer + (subchunkSize + 8)) (size contentRaw)); [lia|].
      reflexivity. }
    unfold lastRecord. fold id. destruct (lookup codecs id) as [codec|].
    + destruct (decode codec _); cbn [bind]; try reflexivity. apply Hend.
    + apply Hend.
Qed.

End CutRecords.

(** Four bytes of id and two of its size field are refused; two bytes of
    id are stored as a chunk; two bytes of a payload told to have 100 are
    stored as the payload. *)
Lemma C9_walk_cut_records_witness :
  riff.walk (T := riff.UnknownRiffChunk) None 1 [x61; x62; x63; x64; x64; x00] 0 [] []
  = Throw RangeError
  /\ riff.walk (T := riff.UnknownRiffChunk) None 1 [x61; x62] 0 [] []
     = Return ([], [{| riff.unknown_id := lit "ab"; riff.data := riff.PartBlob [] |}])
  /\ riff.walk (T := riff.UnknownRiffChunk) None 2
       [x61; x62; x63; x64; x64; x00; x00; x00; x01; x02] 0 [] []
     = Return ([], [{| riff.unknown_id := lit "abcd";
                       riff.data := riff.PartBlob [x01; x02] |}]).
Proof.
  split; [|split].
  - apply (proj1 (C9_walk_cut_records (T := riff.UnknownRiffChunk) None 0
                    [x61; x62; x63; x64; x64; x00] 0 [] [] ltac:(vm_compute; split; congruence))).
    vm_compute. split; reflexivity.
  - apply (proj1 (proj2 (C9_walk_cut_records (T := riff.UnknownRiffChunk) None 0
                    [x61; x62] 0 [] [] ltac:(vm_compute; split; congruence)))).
    vm_compute. congruence.
  - apply (proj2 (proj2 (C9_walk_cut_records (T := riff.UnknownRiffChunk) None 0
                    [x61; x62; x63; x64; x64; x00; x00; x00; x01; x02] 0 [] []
                    ltac:(vm_compute; split; congruence)))).
    + vm_compute. congruence.
    + vm_compute. reflexivity.
Defined.

(** C9 as it is stated fails: a payload told to have 100 bytes of which 2
    are there, and an id of which 2 bytes are there, are decoded into a
    file, and no error is raised. *)
Lemma C9_counterexample :
  riff.decodeRiff (T := riff.UnknownRiffChunk) None cutPayload true
  = Return {| riff.type := lit "WAVE"; riff.content := [];
              riff.unknowns := [{| riff.unknown_id := lit "abcd";
                                   riff.data := riff.PartBlob [x01; x02] |}] |}
  /\ riff.decodeRiff (T := riff.UnknownRiffChunk) None cutId true
     = Return {| riff.type := lit "WAVE"; riff.content := [];
                 riff.unknowns := [{| riff.unknown_id := lit "ab";
                                      riff.data := riff.PartBlob [] |}] |}.
Proof.
  split; vm_compute; reflexivity.
Qed.

(* ===================================================================== *)
(** * Tags and 32-bit lengths                                              *)
(* ===================================================================== *)

Section TagsAndLengths.

Lemma ascii_code_points (s : jsstring) : ascii s -> code_points s = s.
Proof.
  induction 1 as [|c s Hc Hs IH]; [reflexivity|].
  cbn [code_points]. unfold is_high, is_low.
  destruct (Z.leb_spec 0xD800 c); [lia|]. cbn [andb].
  destruct (Z.leb_spec 0xDC00 c); [lia|]. cbn [andb].
  rewrite IH. reflexivity.
Qed.

(** The UTF-8 encoding of an ASCII string has one byte per character. *)
Lemma utf8_encode_ascii (s : jsstring) : ascii s -> utf8_encode s = map z2b s.
Proof.
  intros Hs. unfold utf8_encode. rewrite (ascii_code_points s Hs).
  induction Hs as [|c s Hc Hs IH]; [reflexivity|].
  cbn [flat_map map]. rewrite IH. unfold utf8_of_code_point.
  destruct (Z.ltb_spec c 0x80); [reflexivity | lia].
Qed.

Lemma utf8_decode_ascii (s : jsstring) :
  ascii s -> utf8_decode (map z2b s) None = s.
Proof.
  induction 1 as [|c s Hc Hs IH]; [reflexivity|].
  cbn [map utf8_decode]. rewrite b2z_z2b, Z.mod_small by lia.
  unfold utf8_lead. destruct (Z.leb_spec c 0x7F); [|lia].
  cbn [app]. rewrite IH. reflexivity.
Qed.

Lemma strip_bom_ascii (s : jsstring) : ascii s -> strip_bom (map z2b s) = map z2b s.
Proof.
  intros Hs. destruct Hs as [|c0 s H0 Hs]; [reflexivity|].
  destruct Hs as [|c1 s H1 Hs]; [reflexivity|].
  destruct Hs as [|c2 s H2 Hs]; [reflexivity|].
  cbn [map strip_bom]. rewrite b2z_z2b, Z.mod_small by lia.
  destruct (Z.eqb_spec c0 0xEF); [lia|]. reflexivity.
Qed.

Lemma utf16_ascii (s : jsstring) : ascii s -> flat_map utf16_of_code_point s = s.
Proof.
  induction 1 as [|c s Hc Hs IH]; [reflexivity|].
  cbn [flat_map]. rewrite IH. unfold utf16_of_code_point.
  destruct (Z.ltb_spec c 0x10000); [reflexivity | lia].
Qed.

(** The text of the bytes of an ASCII string is the string. *)
Lemma text_utf8_ascii (s : jsstring) : ascii s -> text (utf8_encode s) = s.
Proof.
  intros Hs. rewrite utf8_encode_ascii by exact Hs. unfold text.
  rewrite strip_bom_ascii, utf8_decode_ascii, utf16_ascii by exact Hs.
  reflexivity.
Qed.

Lemma length_utf8_tag (s : jsstring) : tag s -> length (utf8_encode s) = 4%nat.
Proof.
  intros [Hl Hs]. rewrite utf8_encode_ascii by exact Hs.
  rewrite length_map. exact Hl.
Qed.

Lemma size_utf8_tag (s : jsstring) : tag s -> size (utf8_encode s) = 4.
Proof. intros Hs. unfold size. rewrite length_utf8_tag by exact Hs. reflexivity. Qed.

Lemma length_z2le (w : nat) : forall z, length (z2le w z) = w.
Proof.
  induction w as [|w IH]; intros z; cbn [z2le length]; [reflexivity|].
  rewrite IH. reflexivity.
Qed.

(** Reading back the [w] little-endian bytes of [z] gives [z] modulo
    [2 ^ (8 w)]. *)
Lemma le2z_z2le (w : nat) : forall z, le2z (z2le w z) = z mod 2 ^ (8 * Z.of_nat w).
Proof.
  induction w as [|w IH]; intros z; cbn [z2le le2z].
  - rewrite Z.mod_1_r. reflexivity.
  - rewrite IH, b2z_z2b.
    replace (8 * Z.of_nat (S w)) with (8 + 8 * Z.of_nat w) by lia.
    rewrite Z.pow_add_r by lia. change (2 ^ 8) with 256.
    rewrite (Z.rem_mul_r z 256 (2 ^ (8 * Z.of_nat w))) by lia.
    reflexivity.
Qed.

Lemma Uint32Array_of_one (z : Z) : Uint32Array_of [z] = z2le 4 z.
Proof. unfold Uint32Array_of. cbn [flat_map]. apply app_nil_r. Qed.

(** A length below [2 ^ 32] is read back from its field. *)
Lemma Uint32Array_view_of (z : Z) :
  0 <= z < 2 ^ 32 -> Uint32Array_view (Uint32Array_of [z]) = Return [z].
Proof.
  intros Hz. rewrite Uint32Array_of_one, Uint32Array_view_word by apply length_z2le.
  rewrite le2z_z2le. change (8 * Z.of_nat 4) with 32.
  rewrite Z.mod_small by exact Hz. reflexivity.
Qed.

(** The part of a blob between a prefix and a suffix. *)
Lemma slice_middle (a b c : Blob) (start stop : Z) :
  start = size a -> stop = size a + size b -> slice (a ++ b ++ c) start stop = b.
Proof.
  intros -> ->. pose proof (size_nonneg a). pose proof (size_nonneg b).
  rewrite slice_nonneg by lia. unfold size.
  rewrite Nat2Z.id, skipn_app, skipn_all, Nat.sub_diag. cbn [skipn app].
  replace (Z.to_nat _) with (length b) by lia.
  rewrite firstn_app, firstn_all, Nat.sub_diag. cbn [firstn]. apply app_nil_r.
Qed.

End TagsAndLengths.

(* ===================================================================== *)
(** * The RIFF container: reading back what was written                    *)
(* ===================================================================== *)

Section ReadBack.

Import riff.

Lemma size_recordBytes (r : jsstring * Blob) :
  tag (fst r) -> size (recordBytes r) = 8 + size (snd r).
Proof.
  intros Ht. unfold recordBytes. rewrite !size_app, size_utf8_tag by exact Ht.
  rewrite Uint32Array_of_one. unfold size at 1. rewrite length_z2le. lia.
Qed.

Context {T : Type}.
Variable codecs : option (RiffChunkCodecs T).

(** The walk over the bytes of well-formed records gives the chunks of
    the records, with fuel for one step more than there are records. *)
Lemma walk_records (records : list (jsstring * Blob)) :
  Forall wellFormed records ->
  forall fuel before content unknowns,
    (length records < fuel)%nat ->
    walk codecs fuel (before ++ flat_map recordBytes records) (size before)
         content unknowns
    = decodeRecords codecs records content unknowns.
Proof.
  induction 1 as [|[i payload] records [Ht Hsz] Hwf IH];
    intros fuel before content unknowns Hfuel.
  - destruct fuel as [|fuel]; [cbn in Hfuel; lia|].
    cbn [flat_map walk decodeRecords]. rewrite app_nil_r.
    rewrite Z.ltb_irrefl. reflexivity.
  - destruct fuel as [|fuel]; [cbn in Hfuel; lia|].
    cbn [fst snd] in Ht, Hsz.
    pose proof (size_nonneg before) as Hb. pose proof (size_nonneg payload) as Hp.
    pose proof (size_utf8_tag i Ht) as Hi.
    assert (size (Uint32Array_of [size payload]) = 4) as Hw.
    { rewrite Uint32Array_of_one. unfold size at 1. rewrite length_z2le. reflexivity. }
    cbn [flat_map decodeRecords].
    set (rest := flat_map recordBytes records).
    set (contentRaw := before ++ recordBytes (i, payload) ++ rest).
    assert (contentRaw
            = before ++ utf8_encode i ++ Uint32Array_of [size payload] ++ payload ++ rest)
      as Hraw.
    { unfold contentRaw, recordBytes. cbn [fst snd]. rewrite <- !app_assoc. reflexivity. }
    assert (slice contentRaw (size before) (size before + 4) = utf8_encode i) as H1.
    { rewrite Hraw. apply slice_middle; [reflexivity | lia]. }
    assert (slice contentRaw (size before + 4) (size before + 8)
            = Uint32Array_of [size payload]) as H2.
    { rewrite Hraw, (app_assoc before). apply slice_middle; rewrite size_app; lia. }
    assert (slice contentRaw (size before + 8) (size before + 8 + size payload) = payload) as H3.
    { rewrite Hraw, (app_assoc before), (app_assoc (before ++ utf8_encode i)).
      apply slice_middle; rewrite !size_app; lia. }
    assert ((size before <? size contentRaw) = true) as Hlt.
    { apply Z.ltb_lt. rewrite Hraw, !size_app. pose proof (size_nonneg rest). lia. }
    assert (forall c u,
               walk codecs fuel contentRaw (size before + (size payload + 8)) c u
               = decodeRecords codecs records c u) as Hnext.
    { intros c u.
      specialize (IH fuel (before ++ recordBytes (i, payload)) c u ltac:(cbn in Hfuel; lia)).
      rewrite size_app, size_recordBytes in IH by exact Ht. cbn [snd] in IH.
      rewrite <- app_assoc in IH.
      replace (size before + (size payload + 8)) with (size before + (8 + size payload)) by lia.
      exact IH. }
    cbn [walk]. rewrite Hlt, H1, H2, text_utf8_ascii by apply Ht.
    rewrite Uint32Array_view_of by lia. cbn [bind first nth_error]. rewrite H3.
    destruct (lookup codecs i) as [codec|].
    + destruct (decode codec payload); cbn [bind]; try reflexivity. apply Hnext.
    + apply Hnext.
Qed.

Lemma length_records (records : list (jsstring * Blob)) :
  Forall wellFormed records ->
  (length records <= length (flat_map recordBytes records))%nat.
Proof.
  induction 1 as [|r records [Ht _] Hwf IH]; cbn [flat_map length]; [lia|].
  rewrite length_app. pose proof (size_recordBytes r Ht) as Hs.
  pose proof (size_nonneg (snd r)). unfold size in *. lia.
Qed.

(** Decoding a container written as [RIFF], the size, a tag and records:
    the type is the tag and the chunks are those of the records. *)
Lemma decodeRiff_container (ty : jsstring) (records : list (jsstring * Blob))
      (validateHeader : bool) :
  tag ty ->
  Forall wellFormed records ->
  let contentBlob := utf8_encode ty ++ flat_map recordBytes records in
  size contentBlob < 2 ^ 32 ->
  decodeRiff codecs (riff ++ Uint32Array_of [size contentBlob] ++ contentBlob) validateHeader
  = '(content, unknowns) <- decodeRecords codecs records [] [] ;;
    Return {| type := ty; content := content; unknowns := unknowns |}.
Proof.
  intros Ht Hwf contentBlob Hsz. unfold decodeRiff.
  pose proof (size_utf8_tag ty Ht) as Hty.
  pose proof (size_nonneg (flat_map recordBytes records)) as Hrec.
  assert (size contentBlob = 4 + size (flat_map recordBytes records)) as Hcb.
  { unfold contentBlob. rewrite size_app. lia. }
  assert (size (Uint32Array_of [size contentBlob]) = 4) as Hw.
  { rewrite Uint32Array_of_one. unfold size at 1. rewrite length_z2le. reflexivity. }
  set (recs := flat_map recordBytes records) in *.
  set (field := Uint32Array_of [size contentBlob]) in *.
  assert (slice (riff ++ field ++ contentBlob) 4 8 = field) as H1.
  { apply slice_middle; [reflexivity | change (size riff) with 4; lia]. }
  assert (slice (riff ++ field ++ contentBlob) 8 12 = utf8_encode ty) as H2.
  { unfold contentBlob. rewrite (app_assoc riff).
    apply slice_middle; rewrite size_app; change (size riff) with 4; lia. }
  assert (slice (riff ++ field ++ contentBlob) 12 (size contentBlob + 8) = recs) as H3.
  { unfold contentBlob at 1. rewrite (app_assoc riff), (app_assoc (riff ++ field)).
    rewrite <- (app_nil_r recs) at 1.
    apply slice_middle; rewrite !size_app; change (size riff) with 4; lia. }
  rewrite validate_riff.
  replace (if validateHeader then Return tt else Return tt) with (Return tt)
    by (destruct validateHeader; reflexivity).
  cbn [bind]. rewrite H1, H2, text_utf8_ascii by apply Ht.
  unfold field at 1. rewrite Uint32Array_view_of by lia.
  cbn [bind first nth_error]. rewrite H3.
  pose proof (walk_records records Hwf (S (length recs)) [] [] []
                ltac:(pose proof (length_records records Hwf); unfold recs; lia)) as Hwalk.
  cbn [app] in Hwalk. change (size []) with 0 in Hwalk.
  fold recs in Hwalk. rewrite Hwalk. reflexivity.
Qed.

End ReadBack.

(* ===================================================================== *)
(** * The RIFF container: the round trip of unknown chunks                 *)
(* ===================================================================== *)

Section UnknownRoundTrip.

Import riff.

(** The record of an unknown chunk, as bytes. *)
Lemma newBlob_unknownRecords (us : list UnknownRiffChunk) :
  newBlob (flat_map unknownRecord us)
  = flat_map recordBytes (map (fun u => (unknown_id u, partBytes (data u))) us).
Proof.
  induction us as [|u us IH]; [reflexivity|].
  cbn [flat_map map]. rewrite newBlob_app, IH.
  unfold unknownRecord, newBlob at 1, recordBytes.
  cbn [flat_map partBytes fst snd]. rewrite app_nil_r, <- !app_assoc. reflexivity.
Qed.

(** Without registry every record is an unknown chunk. *)
Lemma decodeRecords_unknown (us : list UnknownRiffChunk) :
  forall (content : list UnknownRiffChunk) unknowns,
    decodeRecords None (map (fun u => (unknown_id u, partBytes (data u))) us)
                  content unknowns
    = Return (content, unknowns ++ map asBlob us).
Proof.
  induction us as [|u us IH]; intros content unknowns; cbn [map decodeRecords lookup].
  - rewrite app_nil_r. reflexivity.
  - rewrite IH, <- app_assoc. reflexivity.
Qed.

Lemma size_flat_map_le {A : Type} (f : A -> Blob) (l : list A) (x : A) :
  In x l -> size (f x) <= size (flat_map f l).
Proof.
  induction l as [|y l IH]; intros Hin; [destruct Hin|].
  cbn [flat_map]. rewrite size_app.
  pose proof (size_nonneg (f y)). pose proof (size_nonneg (flat_map f l)).
  destruct Hin as [->|Hin]; [lia | specialize (IH Hin); lia].
Qed.

(** ** C1 *)

(** C1 (amended). For every [RiffFile] whose type is four ASCII
    characters, whose content is empty, whose unknown chunks all have ids
    of four ASCII characters, and whose type and records take less than
    [2 ^ 32] bytes, decoding without registry what [encodeRiff] wrote
    gives the file back: the same type, an empty content, and the same
    unknown chunks in the same order, each with the same id and the same
    bytes. *)
Theorem C1_unknown_chunks_round_trip (f : RiffFile UnknownRiffChunk) :
  tag (type f) ->
  content f = [] ->
  Forall (fun u => tag (unknown_id u)) (unknowns f) ->
  unknownsSize f < 2 ^ 32 ->
  bind (encodeRiff None f) (fun blob => decodeRiff (T := UnknownRiffChunk) None blob true)
  = Return {| type := type f; content := []; unknowns := map asBlob (unknowns f) |}.
Proof.
  intros Ht Hc Hids Hsz.
  rewrite (encodeRiff_returns None f [PartString (type f)] (proj1 Ht))
    by (rewrite Hc; reflexivity).
  cbn [bind]. rewrite newBlob_app, newBlob_unknownRecords.
  change (newBlob [PartString (type f)]) with (utf8_encode (type f) ++ []).
  rewrite app_nil_r.
  set (records := map (fun u => (unknown_id u, partBytes (data u))) (unknowns f)).
  assert (size (utf8_encode (type f) ++ flat_map recordBytes records) < 2 ^ 32) as Hsz'.
  { unfold unknownsSize in Hsz. rewrite newBlob_unknownRecords in Hsz.
    rewrite size_app. exact Hsz. }
  assert (Forall wellFormed records) as Hwf.
  { apply Forall_forall. intros r Hr. unfold records in Hr.
    apply in_map_iff in Hr. destruct Hr as (u & <- & Hu).
    split; cbn [fst snd].
    - rewrite Forall_forall in Hids. exact (Hids u Hu).
    - pose proof (size_flat_map_le recordBytes records (unknown_id u, partBytes (data u))
                    ltac:(unfold records; apply in_map_iff; exists u; auto)) as Hle.
      rewrite size_recordBytes in Hle by (rewrite Forall_forall in Hids; exact (Hids u Hu)).
      cbn [snd] in Hle. rewrite size_app in Hsz'.
      pose proof (size_nonneg (utf8_encode (type f))). lia. }
  rewrite (decodeRiff_container None (type f) records true Ht Hwf Hsz').
  unfold records. rewrite decodeRecords_unknown. reflexivity.
Qed.

End UnknownRoundTrip.

(** A file with two unknown chunks, one of them empty, comes back. *)
Lemma C1_unknown_chunks_round_trip_witness :
  let f : riff.RiffFile riff.UnknownRiffChunk :=
         {| riff.type := lit "WAVE";
              riff.content := [];
              riff.unknowns :=
                [{| riff.unknown_id := lit "abcd"; riff.data := riff.PartString (lit "hello") |};
                 {| riff.unknown_id := lit "smpl"; riff.data := riff.PartBuffer [] |}] |} in
  bind (riff.encodeRiff None f)
       (fun blob => riff.decodeRiff (T := riff.UnknownRiffChunk) None blob true)
  = Return {| riff.type := lit "WAVE";
              riff.content := [];
              riff.unknowns :=
                [{| riff.unknown_id := lit "abcd";
                    riff.data := riff.PartBlob [x68; x65; x6c; x6c; x6f] |};
                 {| riff.unknown_id := lit "smpl"; riff.data := riff.PartBlob [] |}] |}.
Proof.
  intros f. apply (C1_unknown_chunks_round_trip f).
  - split; [reflexivity|]. repeat constructor; cbn; lia.
  - reflexivity.
  - repeat constructor; cbn; lia.
  - vm_compute. reflexivity.
Defined.

(** The container size is stored modulo [2 ^ 32]: the size of
    [fourGigabytes] is stored as 0, and the decoder finds no chunk. *)
Lemma fourGigabytes_round_trip :
  unknownsSize fourGigabytes = 2 ^ 32
  /\ bind (riff.encodeRiff None fourGigabytes)
          (fun blob => riff.decodeRiff (T := riff.UnknownRiffChunk) None blob true)
     = Return {| riff.type := lit "WAVE"; riff.content := []; riff.unknowns := [] |}.
Proof.
  unfold fourGigabytes.
  set (payload := repeat x00 (Z.to_nat (2 ^ 32 - 12))).
  set (f := {| riff.type := lit "WAVE"; riff.content := [];
               riff.unknowns := [{| riff.unknown_id := lit "abcd";
                                    riff.data := riff.PartBuffer payload |}] |}).
  assert (size payload = 2 ^ 32 - 12) as Hp.
  { unfold size, payload. rewrite repeat_length. apply Z2Nat.id. lia. }
  clearbody payload.
  assert (unknownsSize f = 2 ^ 32) as Hu.
  { unfold unknownsSize, f. cbn [riff.type riff.unknowns flat_map unknownRecord app].
    unfold riff.newBlob. cbn [flat_map riff.partBytes riff.data riff.unknown_id].
    rewrite app_nil_r, !size_app, Hp.
    change (size (utf8_encode (lit "WAVE"))) with 4.
    change (size (utf8_encode (lit "abcd"))) with 4.
    rewrite Uint32Array_of_one. unfold size at 1. rewrite length_z2le. lia. }
  split; [exact Hu|].
  rewrite (encodeRiff_returns None f [riff.PartString (riff.type f)] eq_refl eq_refl).
  cbn [bind].
  rewrite newBlob_app.
  change (riff.newBlob [riff.PartString (riff.type f)]) with (utf8_encode (lit "WAVE") ++ []).
  rewrite app_nil_r.
  set (recs := riff.newBlob (flat_map unknownRecord (riff.unknowns f))).
  assert (size (utf8_encode (lit "WAVE") ++ recs) = 2 ^ 32) as Hsz.
  { rewrite size_app. exact Hu. }
  rewrite Hsz.
  change (Uint32Array_of [2 ^ 32]) with [x00; x00; x00; x00].
  unfold riff.decodeRiff. rewrite validate_riff. cbn [bind].
  rewrite (slice_middle riff.riff [x00; x00; x00; x00] _ 4 8) by reflexivity.
  change (Uint32Array_view [x00; x00; x00; x00]) with (Return (A := list Z) [0]).
  cbn [bind riff.first nth_error].
  rewrite (app_assoc riff.riff).
  rewrite (slice_middle (riff.riff ++ [x00; x00; x00; x00]) (utf8_encode (lit "WAVE")) recs 8 12)
    by reflexivity.
  rewrite (slice_empty _ 12 (0 + 8)) by (try lia; apply Z.min_le_iff; left; lia).
  reflexivity.
Qed.

(** C1 as it is stated fails. An id of four characters that are not
    ASCII takes more than four bytes: the decoder reads the first four of
    them as the id and the next four as the length. And a file as large
    as [fourGigabytes] comes back without its chunk. *)
Lemma C1_counterexample :
  (tag (riff.type accents)
   /\ riff.content accents = []
   /\ Forall (fun u => length (riff.unknown_id u) = 4%nat) (riff.unknowns accents)
   /\ bind (riff.encodeRiff None accents)
           (fun blob => riff.decodeRiff (T := riff.UnknownRiffChunk) None blob true)
      = Return {| riff.type := lit "WAVE";
                  riff.content := [];
                  riff.unknowns :=
                    [{| riff.unknown_id := [233; 233];
                        riff.data := riff.PartBlob [x01; x00; x00; x00; x01] |}] |})
  /\ (tag (riff.type fourGigabytes)
      /\ riff.content fourGigabytes = []
      /\ Forall (fun u => tag (riff.unknown_id u)) (riff.unknowns fourGigabytes)
      /\ bind (riff.encodeRiff None fourGigabytes)
              (fun blob => riff.decodeRiff (T := riff.UnknownRiffChunk) None blob true)
         = Return {| riff.type := lit "WAVE"; riff.content := []; riff.unknowns := [] |})
  /\ ~ unknown_chunks_round_trip.
Proof.
  assert (tag (lit "WAVE")) as Ht.
  { split; [reflexivity|]. repeat constructor; cbn; lia. }
  assert (tag (lit "abcd")) as Ha.
  { split; [reflexivity|]. repeat constructor; cbn; lia. }
  assert (Forall (fun u => length (riff.unknown_id u) = 4%nat) (riff.unknowns accents)) as Hi.
  { repeat constructor. }
  split; [|split].
  - split; [exact Ht|]. split; [reflexivity|]. split; [exact Hi|].
    vm_compute; reflexivity.
  - split; [exact Ht|]. split; [reflexivity|]. split; [constructor; [exact Ha | constructor]|].
    apply fourGigabytes_round_trip.
  - intros Hclaim. specialize (Hclaim accents Ht eq_refl Hi).
    vm_compute in Hclaim. discriminate Hclaim.
Qed.

(* ===================================================================== *)
(** * The loops over samples and channels                                  *)
(* ===================================================================== *)

Section SampleLoops.

Import number wave wav.

(** A counted loop whose body keeps an invariant returns, and the
    invariant holds of what it returns. *)
Lemma for_invariant {S : Type} (Inv : nat -> S -> Prop) (body : nat -> S -> result S) :
  forall n j s,
    Inv j s ->
    (forall c s, (j <= c < j + n)%nat -> Inv c s ->
                 exists s', body c s = Return s' /\ Inv (Datatypes.S c) s') ->
    exists s', for_ n j body s = Return s' /\ Inv (j + n)%nat s'.
Proof.
  induction n as [|n IH]; intros j s Hinv Hbody; cbn [for_].
  - exists s. rewrite Nat.add_0_r. split; [reflexivity | exact Hinv].
  - destruct (Hbody j s ltac:(lia) Hinv) as (s1 & -> & Hinv1). cbn [bind].
    destruct (IH (Datatypes.S j) s1 Hinv1) as (s' & Hfor & Hinv').
    + intros c s2 Hc. apply Hbody. lia.
    + exists s'. split; [exact Hfor|].
      replace (j + Datatypes.S n)%nat with (Datatypes.S j + n)%nat by lia. exact Hinv'.
Qed.

Lemma length_update {A : Type} (l : Datatypes.list A) :
  forall i x, length (update l i x) = length l.
Proof.
  induction l as [|y l IH]; intros [|i] x; cbn [update length]; try reflexivity.
  rewrite IH. reflexivity.
Qed.

Lemma nth_update {A : Type} (l : Datatypes.list A) :
  forall i k x d,
    nth k (update l i x) d = if (k =? i)%nat && (i <? length l)%nat then x else nth k l d.
Proof.
  induction l as [|y l IH]; intros i k x d.
  - cbn [update length]. destruct i; rewrite andb_false_r; reflexivity.
  - destruct i as [|i], k as [|k]; cbn [update nth length]; try reflexivity.
    rewrite IH. reflexivity.
Qed.

Lemma index_inj (n i c i' c' : nat) :
  (c < n)%nat -> (c' < n)%nat -> (i * n + c = i' * n + c')%nat -> i = i' /\ c = c'.
Proof.
  intros Hc Hc' He.
  assert (i = i') as ->.
  { destruct (Nat.lt_trichotomy i i') as [Hlt|[Heq|Hgt]]; [|exact Heq|]; exfalso; nia. }
  split; [reflexivity | lia].
Qed.

Lemma filled_next_row g i n i' c' :
  (c' < n)%nat -> filled g i n i' c' = filled g (Datatypes.S i) 0 i' c'.
Proof.
  intros Hc. unfold filled.
  destruct (Nat.ltb_spec i' i), (Nat.eqb_spec i' i), (Nat.ltb_spec c' n),
    (Nat.ltb_spec i' (Datatypes.S i)), (Nat.eqb_spec i' (Datatypes.S i));
    cbn [orb andb]; try reflexivity; try lia.
Qed.

(** [interleave]: the typed array the encoder fills has an element for
    every sample of every channel, the element [i * n + ch] being made of
    the sample [i] of the channel [ch]. *)
Lemma interleave_spec (ty : ArrayType) (convert : number -> number)
      (format : WaveFormatChunk) (channels : Datatypes.list (Datatypes.list number))
      (n samples : nat) :
  wave.channels format = Some (Z.of_nat n) ->
  (1 <= n <= length channels)%nat ->
  length (nth 0 channels []) = samples ->
  exists typedContent,
    interleave ty convert format channels = Return typedContent
    /\ length typedContent = (samples * n)%nat
    /\ forall i ch, (i < samples)%nat -> (ch < n)%nat ->
                    nth (i * n + ch) typedContent NaN
                    = store ty (convert (at_ (nth ch channels []) i)).
Proof.
  intros Hn Hlen Hs. unfold interleave. rewrite Hn.
  destruct channels as [|first rest] eqn:Ech; [cbn [length] in Hlen; lia|].
  rewrite <- Ech in *. assert (length first = samples) as Hf by (rewrite Ech in Hs; exact Hs).
  rewrite Hf. clear Hf.
  destruct (Z.ltb_spec (Z.of_nat samples * Z.of_nat n) 0) as [Hneg|_]; [lia|].
  rewrite Nat2Z.id, <- Nat2Z.inj_mul, Nat2Z.id.
  set (g := fun i ch => store ty (convert (at_ (nth ch channels []) i))).
  set (Inv := fun (i c : nat) (tc : Datatypes.list number) =>
                length tc = (samples * n)%nat
                /\ forall i' c', (i' < samples)%nat -> (c' < n)%nat ->
                                 nth (i' * n + c') tc NaN = filled g i c i' c').
  assert (Inv 0%nat 0%nat (repeat (ofZ 0) (samples * n))) as Hinit.
  { split; [apply repeat_length|].
    intros i' c' Hi' Hc'. unfold filled. cbn [Nat.ltb Nat.leb orb].
    rewrite andb_false_r. apply nth_repeat_lt. nia. }
  match goal with
  | |- exists tc, for_ samples 0 ?body ?s0 = _ /\ _ =>
      assert (forall i tc, (0 <= i < 0 + samples)%nat -> Inv i 0%nat tc ->
                           exists tc', body i tc = Return tc' /\ Inv (Datatypes.S i) 0%nat tc')
        as Hrow;
      [|destruct (for_invariant (fun i tc => Inv i 0%nat tc) body samples 0%nat s0 Hinit Hrow)
         as (out & Hfor & Hlen' & Hval)]
  end.
  - intros i tc Hi Hinv.
    match goal with
    | |- exists s', for_ n 0 ?body tc = _ /\ _ =>
        assert (forall c tc1, (0 <= c < 0 + n)%nat -> Inv i c tc1 ->
                              exists tc', body c tc1 = Return tc' /\ Inv i (Datatypes.S c) tc')
          as Hcell;
        [|destruct (for_invariant (fun c tc => Inv i c tc) body n 0%nat tc Hinv Hcell)
           as (row & Hfor & Hlen' & Hval)]
    end.
    + intros c tc1 Hc (Hl1 & Hv1).
      assert (nth_error channels c = Some (nth c channels [])) as ->
          by (apply nth_error_nth'; lia).
      eexists. split; [reflexivity|]. split.
      * rewrite length_update. exact Hl1.
      * intros i' c' Hi' Hc'. rewrite nth_update, Hl1, (Hv1 i' c' Hi' Hc').
        fold (g i c). unfold filled.
        destruct (Nat.eqb_spec (i' * n + c') (i * n + c)) as [E|E].
        -- apply index_inj in E; [|lia|lia]. destruct E as [-> ->].
           destruct (Nat.ltb_spec (i * n + c) (samples * n)) as [_|Hge]; [|nia].
           cbn [andb]. rewrite Nat.eqb_refl, Nat.ltb_irrefl.
           destruct (Nat.ltb_spec c (Datatypes.S c)); [|lia].
           rewrite orb_true_r. reflexivity.
        -- cbn [andb].
           destruct (Nat.ltb_spec i' i), (Nat.eqb_spec i' i), (Nat.ltb_spec c' c),
             (Nat.ltb_spec c' (Datatypes.S c)); cbn [orb andb]; try reflexivity; try lia.
    + exists row. split; [exact Hfor|]. split; [exact Hlen'|].
      intros i' c' Hi' Hc'. rewrite (Hval i' c' Hi' Hc'). cbn [Nat.add].
      apply filled_next_row. exact Hc'.
  - exists out. split; [exact Hfor|]. split; [exact Hlen'|].
    intros i ch Hi Hch. rewrite (Hval i ch Hi Hch). unfold filled. cbn [Nat.add].
    destruct (Nat.ltb_spec i samples); [reflexivity | lia].
Qed.

(** [deinterleave]: the decoder makes one array per channel, each as long
    as there are whole samples, the element [i] of the channel [ch] being
    made of the element [i * n + ch] of the data. *)
Lemma deinterleave_spec (out : ArrayType) (convert : number -> number)
      (format : WaveFormatChunk) (byteLength : Z) (content : Datatypes.list number)
      (n : nat) :
  wave.channels format = Some (Z.of_nat n) ->
  (1 <= n)%nat ->
  0 < stored (bitsPerChannel format) ->
  0 <= byteLength ->
  let samples := Z.to_nat (byteLength * 8 / (stored (bitsPerChannel format) * Z.of_nat n)) in
  exists channels,
    deinterleave out convert format byteLength content = Return channels
    /\ length channels = n
    /\ (forall ch, (ch < n)%nat -> length (nth ch channels []) = samples)
    /\ forall i ch, (i < samples)%nat -> (ch < n)%nat ->
                    nth i (nth ch channels []) NaN
                    = store out (convert (at_ content (i * n + ch))).
Proof.
  intros Hn Hn1 Hbits Hbytes samples. unfold deinterleave. rewrite Hn.
  destruct (Z.eqb_spec (Z.of_nat n) 0) as [E|_]; [lia|].
  rewrite Nat2Z.id. fold samples.
  set (bits := stored (bitsPerChannel format)) in *.
  set (steps := Z.to_nat ((byteLength * 8 + bits * Z.of_nat n - 1) / (bits * Z.of_nat n))).
  assert (samples <= steps)%nat as Hsteps.
  { unfold samples, steps. apply Z2Nat.inj_le.
    - apply Z.div_pos; nia.
    - apply Z.div_pos; nia.
    - apply Z.div_le_mono; nia. }
  set (g := fun i ch => store out (convert (at_ content (i * n + ch)))).
  set (Inv := fun (i c : nat) (chs : Datatypes.list (Datatypes.list number)) =>
                length chs = n
                /\ (forall c', (c' < n)%nat -> length (nth c' chs []) = samples)
                /\ forall i' c', (i' < samples)%nat -> (c' < n)%nat ->
                                 nth i' (nth c' chs []) NaN = filled g i c i' c').
  assert (Inv 0%nat 0%nat (repeat (repeat (ofZ 0) samples) n)) as Hinit.
  { split; [apply repeat_length|]. split.
    - intros c' Hc'. rewrite nth_repeat_lt by exact Hc'. apply repeat_length.
    - intros i' c' Hi' Hc'. rewrite nth_repeat_lt by exact Hc'.
      rewrite nth_repeat_lt by exact Hi'. unfold filled. cbn [Nat.ltb Nat.leb orb].
      rewrite andb_false_r. reflexivity. }
  match goal with
  | |- exists chs, for_ steps 0 ?body ?s0 = _ /\ _ =>
      assert (forall i chs, (0 <= i < 0 + steps)%nat -> Inv i 0%nat chs ->
                            exists chs', body i chs = Return chs'
                                         /\ Inv (Datatypes.S i) 0%nat chs')
        as Hrow;
      [|destruct (for_invariant (fun i chs => Inv i 0%nat chs) body steps 0%nat s0 Hinit Hrow)
         as (result & Hfor & Hlen & Hlens & Hval)]
  end.
  - intros i chs Hi Hinv.
    match goal with
    | |- exists s', for_ n 0 ?body chs = _ /\ _ =>
        assert (forall c chs1, (0 <= c < 0 + n)%nat -> Inv i c chs1 ->
                               exists chs', body c chs1 = Return chs'
                                            /\ Inv i (Datatypes.S c) chs')
          as Hcell;
        [|destruct (for_invariant (fun c chs => Inv i c chs) body n 0%nat chs Hinv Hcell)
           as (row & Hfor & Hlen & Hlens & Hval)]
    end.
    + intros c chs1 Hc (Hl1 & Hls1 & Hv1).
      eexists. split; [reflexivity|]. fold (g i c). split; [|split].
      * rewrite length_update. exact Hl1.
      * intros c' Hc'. rewrite nth_update, Hl1.
        destruct (Nat.eqb_spec c' c) as [->|Hne]; cbn [andb].
        -- destruct (Nat.ltb_spec c n); [|lia]. rewrite length_update. apply Hls1. lia.
        -- apply Hls1. exact Hc'.
      * intros i' c' Hi' Hc'. rewrite nth_update, Hl1.
        destruct (Nat.eqb_spec c' c) as [->|Hne]; cbn [andb].
        -- destruct (Nat.ltb_spec c n); [|lia].
           rewrite nth_update, (Hls1 c ltac:(lia)), (Hv1 i' c Hi' ltac:(lia)).
           unfold filled.
           destruct (Nat.eqb_spec i' i) as [->|Hni]; cbn [andb].
           ++ destruct (Nat.ltb_spec i samples); [|lia].
              rewrite Nat.ltb_irrefl. destruct (Nat.ltb_spec c (Datatypes.S c)); [|lia].
              reflexivity.
           ++ reflexivity.
        -- rewrite (Hv1 i' c' Hi' Hc'). unfold filled.
           destruct (Nat.ltb_spec i' i), (Nat.eqb_spec i' i), (Nat.ltb_spec c' c),
             (Nat.ltb_spec c' (Datatypes.S c)); cbn [orb andb]; try reflexivity; try lia.
    + exists row. split; [exact Hfor|]. split; [exact Hlen|]. split; [exact Hlens|].
      intros i' c' Hi' Hc'. rewrite (Hval i' c' Hi' Hc'). cbn [Nat.add].
      apply filled_next_row. exact Hc'.
  - exists result. split; [exact Hfor|]. split; [exact Hlen|]. split; [exact Hlens|].
    intros i ch Hi Hch. rewrite (Hval i ch Hi Hch). unfold filled. cbn [Nat.add].
    destruct (Nat.ltb_spec i steps); [reflexivity | lia].
Qed.

Lemma truncate_ofZ (z : Z) : truncate (ofZ z) = z.
Proof.
  destruct z as [|p|p]; cbn [ofZ truncate Z.leb Z.compare]; try reflexivity;
    rewrite Z.pow_0_r, Z.mul_1_r; reflexivity.
Qed.

Lemma signed_signed (w z : Z) : 0 < w -> signed w (signed w z) = signed w z.
Proof.
  intros Hw. unfold signed.
  replace ((z + 2 ^ (w - 1)) mod 2 ^ w - 2 ^ (w - 1) + 2 ^ (w - 1))
    with ((z + 2 ^ (w - 1)) mod 2 ^ w) by lia.
  rewrite Z.mod_mod by (apply Z.pow_nonzero; lia). reflexivity.
Qed.

Lemma le2z_bound (bytes : Datatypes.list byte) :
  0 <= le2z bytes < 2 ^ (8 * Z.of_nat (length bytes)).
Proof.
  induction bytes as [|b bytes IH]; cbn [le2z length]; [cbn; lia|].
  pose proof (b2z_range b).
  replace (8 * Z.of_nat (S (length bytes))) with (8 + 8 * Z.of_nat (length bytes)) by lia.
  rewrite Z.pow_add_r by lia. change (2 ^ 8) with 256. nia.
Qed.

(** The number of binary digits of a positive number. *)
Lemma digits2_pos_spec (p : positive) :
  2 ^ (Zpos (digits2_pos p) - 1) <= Zpos p < 2 ^ Zpos (digits2_pos p).
Proof.
  induction p as [p IH|p IH|]; cbn [digits2_pos].
  - rewrite Pos2Z.inj_succ.
    replace (Z.succ (Zpos (digits2_pos p)) - 1) with (Z.succ (Zpos (digits2_pos p) - 1)) by lia.
    rewrite !Z.pow_succ_r by lia. lia.
  - rewrite Pos2Z.inj_succ.
    replace (Z.succ (Zpos (digits2_pos p)) - 1) with (Z.succ (Zpos (digits2_pos p) - 1)) by lia.
    rewrite !Z.pow_succ_r by lia. lia.
  - cbn. lia.
Qed.

Lemma digits2_pos_unique (p : positive) (d : Z) :
  0 < d -> 2 ^ (d - 1) <= Zpos p < 2 ^ d -> Zpos (digits2_pos p) = d.
Proof.
  intros Hd Hp. pose proof (digits2_pos_spec p) as Hs.
  assert (Z.log2 (Zpos p) = d - 1) as H1.
  { apply Z.log2_unique; [lia|]. replace (Z.succ (d - 1)) with d by lia. exact Hp. }
  assert (Z.log2 (Zpos p) = Zpos (digits2_pos p) - 1) as H2.
  { apply Z.log2_unique; [lia|].
    replace (Z.succ (Zpos (digits2_pos p) - 1)) with (Zpos (digits2_pos p)) by lia.
    exact Hs. }
  lia.
Qed.

(** Rounding a float to its own format leaves it as it is. *)
Lemma binary_round_bounded (prec emax : Z) (s : bool) (m : positive) (e : Z) :
  bounded prec emax m e = true -> binary_round prec emax s m e = S754_finite s m e.
Proof.
  unfold bounded, canonical_mantissa. intros Hb.
  apply andb_true_iff in Hb. destruct Hb as [Hc He]. apply Z.eqb_eq in Hc.
  unfold binary_round. rewrite Hc. unfold shl_align. rewrite Z.sub_diag.
  unfold binary_round_aux, shr_fexp. cbn [Zdigits2]. rewrite Hc, Z.sub_diag.
  cbn [shr shr_record_of_loc shr_m loc_of_shr_record round_nearest_even Zdigits2].
  rewrite Hc, Z.sub_diag. cbn [shr shr_m]. rewrite He. reflexivity.
Qed.

(** The float of a bit pattern is a float of the format. *)
Lemma float_of_bits_valid (mw ew bits : Z) :
  0 < mw -> 1 < ew ->
  valid_binary (mw + 1) (2 ^ (ew - 1)) (float_of_bits mw ew bits) = true.
Proof.
  intros Hmw Hew. unfold float_of_bits.
  set (emax := 2 ^ (ew - 1)). set (emin := 3 - emax - (mw + 1)).
  set (e := (bits / 2 ^ mw) mod 2 ^ ew). set (m := bits mod 2 ^ mw).
  assert (0 < 2 ^ mw) as Hpm by (apply Z.pow_pos_nonneg; lia).
  assert (2 <= emax) as Hemax.
  { unfold emax. change 2 with (2 ^ 1) at 1. apply Z.pow_le_mono_r; lia. }
  assert (2 ^ ew = 2 * emax) as Hpe.
  { unfold emax. rewrite <- Z.pow_succ_r by lia. f_equal. lia. }
  assert (emin = 3 - emax - (mw + 1)) as Hemin by reflexivity.
  assert (0 <= m < 2 ^ mw) as Hm by (apply Z.mod_pos_bound; lia).
  assert (0 <= e < 2 ^ ew) as He by (apply Z.mod_pos_bound; lia).
  assert (forall d x, fexp (mw + 1) emax (d + x) = Z.max (d + x - (mw + 1)) emin) as Hfexp
      by reflexivity.
  destruct (Z.eqb_spec e 0) as [E0|E0].
  - destruct m as [|p|p] eqn:Em; try reflexivity.
    cbn [valid_binary]. unfold bounded, canonical_mantissa.
    pose proof (digits2_pos_spec p) as Hd.
    assert (Zpos (digits2_pos p) <= mw) as Hle.
    { destruct (Z_le_gt_dec (Zpos (digits2_pos p)) mw) as [H|H]; [exact H|].
      exfalso. assert (2 ^ mw <= 2 ^ (Zpos (digits2_pos p) - 1))
        by (apply Z.pow_le_mono_r; lia). lia. }
    rewrite Hfexp. fold emin. clearbody emin emax.
    apply andb_true_iff. split; [apply Z.eqb_eq | apply Z.leb_le]; lia.
  - destruct (Z.eqb_spec e (2 ^ ew - 1)) as [E1|E1].
    + destruct (m =? 0); reflexivity.
    + destruct (m + 2 ^ mw) as [|p|p] eqn:Ep; try reflexivity.
      cbn [valid_binary]. unfold bounded, canonical_mantissa.
      assert (Zpos (digits2_pos p) = mw + 1) as Hd.
      { apply digits2_pos_unique; [lia|].
        replace (mw + 1 - 1) with mw by lia. rewrite Z.pow_add_r by lia.
        change (2 ^ 1) with 2. lia. }
      rewrite Hd, Hfexp. fold emin. clearbody emin emax.
      apply andb_true_iff. split; [apply Z.eqb_eq | apply Z.leb_le]; lia.
Qed.

(** Writing an element of a typed array into an array of the same type
    leaves its value as it is. *)
Lemma store_element (ty : ArrayType) (bytes : Datatypes.list byte) :
  length bytes = BYTES_PER_ELEMENT ty ->
  store ty (element ty bytes) = element ty bytes.
Proof.
  intros Hl. pose proof (le2z_bound bytes) as Hb. rewrite Hl in Hb.
  destruct ty; cbn [store element BYTES_PER_ELEMENT] in *.
  - rewrite truncate_ofZ, Z.mod_small by (change (8 * Z.of_nat 1) with 8 in Hb; lia).
    reflexivity.
  - rewrite truncate_ofZ, signed_signed by lia. reflexivity.
  - rewrite truncate_ofZ, signed_signed by lia. reflexivity.
  - pose proof (float_of_bits_valid 10 5 (le2z bytes) ltac:(lia) ltac:(lia)) as Hv.
    destruct (float_of_bits 10 5 (le2z bytes)); try reflexivity.
    apply (binary_round_bounded 11 16). exact Hv.
  - pose proof (float_of_bits_valid 23 8 (le2z bytes) ltac:(lia) ltac:(lia)) as Hv.
    destruct (float_of_bits 23 8 (le2z bytes)); try reflexivity.
    apply (binary_round_bounded 24 128). exact Hv.
  - pose proof (float_of_bits_valid 52 11 (le2z bytes) ltac:(lia) ltac:(lia)) as Hv.
    destruct (float_of_bits 52 11 (le2z bytes)); try reflexivity.
    apply (binary_round_bounded 53 1024). exact Hv.
Qed.

Lemma BYTES_PER_ELEMENT_pos (ty : ArrayType) : (1 <= BYTES_PER_ELEMENT ty)%nat.
Proof. destruct ty; cbn; lia. Qed.

Lemma viewElements_spec (ty : ArrayType) (count : nat) :
  forall fuel buffer,
    length buffer = (count * BYTES_PER_ELEMENT ty)%nat ->
    (count <= fuel)%nat ->
    length (viewElements fuel ty buffer) = count
    /\ forall k, (k < count)%nat ->
                 nth k (viewElements fuel ty buffer) NaN = rawElement ty buffer k.
Proof.
  pose proof (BYTES_PER_ELEMENT_pos ty) as Hw.
  induction count as [|count IH]; intros fuel buffer Hlen Hfuel.
  - destruct buffer; [|discriminate Hlen].
    destruct fuel; cbn [viewElements length]; (split; [reflexivity | intros k Hk; lia]).
  - destruct fuel as [|fuel]; [lia|].
    destruct buffer as [|b buffer]; [cbn in Hlen; lia|].
    cbn [viewElements]. remember (b :: buffer) as buf eqn:Ebuf.
    destruct (IH fuel (skipn (BYTES_PER_ELEMENT ty) buf)) as [Hl Hv].
    + rewrite length_skipn, Hlen. lia.
    + lia.
    + cbn [length]. split; [rewrite Hl; reflexivity|].
      intros [|k] Hk; cbn [nth].
      * unfold rawElement. cbn [Nat.mul skipn]. reflexivity.
      * rewrite Hv by lia. unfold rawElement. rewrite skipn_skipn.
        do 3 f_equal. lia.
Qed.

(** [new ArrayType(buffer)] over a buffer of whole elements. *)
Lemma view_spec (ty : ArrayType) (buffer : Datatypes.list byte) (count : nat) :
  length buffer = (count * BYTES_PER_ELEMENT ty)%nat ->
  exists content,
    view ty buffer = Return content
    /\ length content = count
    /\ forall k, (k < count)%nat -> nth k content NaN = rawElement ty buffer k.
Proof.
  intros Hlen. pose proof (BYTES_PER_ELEMENT_pos ty) as Hw. unfold view.
  destruct (Z.eqb_spec (Z.of_nat (length buffer) mod Z.of_nat (BYTES_PER_ELEMENT ty)) 0)
    as [_|Hne].
  - eexists. split; [reflexivity|].
    apply viewElements_spec; [exact Hlen | rewrite Hlen; nia].
  - exfalso. apply Hne. rewrite Hlen, Nat2Z.inj_mul. apply Z.mod_mul. lia.
Qed.

(** The entries of [dtypes]: the bits per channel are those of an
    element of the array type. *)
Lemma dtypes_bits (a : WaveAudioFormat) (bits : option Z) (entry : DtypeEntry) :
  dtypes a bits = Some entry ->
  bits = Some (8 * Z.of_nat (BYTES_PER_ELEMENT (fst (fst entry)))).
Proof.
  unfold dtypes. destruct a, bits as [[|p|p]|]; try discriminate;
    repeat (destruct p as [p|p|]; try discriminate); intros [= <-]; reflexivity.
Qed.

Lemma whole_samples (count w n : nat) :
  (1 <= w)%nat -> (1 <= n)%nat ->
  Z.to_nat (Z.of_nat (count * w) * 8 / (8 * Z.of_nat w * Z.of_nat n)) = (count / n)%nat.
Proof.
  intros Hw Hn. rewrite Nat2Z.inj_mul.
  replace (Z.of_nat count * Z.of_nat w * 8) with (Z.of_nat count * (8 * Z.of_nat w)) by lia.
  replace (8 * Z.of_nat w * Z.of_nat n) with (Z.of_nat n * (8 * Z.of_nat w)) by lia.
  rewrite Z.div_mul_cancel_r by lia.
  rewrite <- Nat2Z.inj_div. apply Nat2Z.id.
Qed.

Variable ToNumber : jsstring -> number.
Variable NumberToString : number -> jsstring.

(** The layout of the channels [decodeWav] returns. *)
Lemma decodeWav_layout :
  forall (fuel : nat) (blob : Blob) (file : riff.RiffFile WaveRiffChunk)
          (format : WaveFormatChunk) (buffer : Datatypes.list byte)
          (ty : ArrayType) (rawMin rawMax : number) (n count : nat),
      riff.decodeRiff (Some (waveCodec fuel)) blob true = Return file ->
      findFormat (riff.content file) = Some format ->
      findData (riff.content file) = Some {| wave.data := riff.PartBlob buffer |} ->
      dtypes (audioFormat format) (bitsPerChannel format) = Some (ty, rawMin, rawMax) ->
      wave.channels format = Some (Z.of_nat n) ->
      (1 <= n)%nat ->
      length buffer = (count * BYTES_PER_ELEMENT ty)%nat ->
      (exists channels,
          decodeWav ToNumber fuel blob channels_fmt
          = Return {| format := format;
                      info := trackInfo ToNumber (findInfo (riff.content file));
                      data := channels |}
          /\ length channels = n
          /\ (forall c, (c < n)%nat -> length (nth c channels []) = (count / n)%nat)
          /\ forall i c, (i < count / n)%nat -> (c < n)%nat ->
                         nth i (nth c channels []) NaN = rawElement ty buffer (i * n + c))
      /\ (exists channels,
             decodeWav ToNumber fuel blob channels_float32
             = Return {| format := format;
                         info := trackInfo ToNumber (findInfo (riff.content file));
                         data := channels |}
             /\ length channels = n
             /\ (forall c, (c < n)%nat -> length (nth c channels []) = (count / n)%nat)
             /\ forall i c, (i < count / n)%nat -> (c < n)%nat ->
                            nth i (nth c channels []) NaN
                            = store Float32Array
                                (normalized rawMin rawMax
                                            (rawElement ty buffer (i * n + c)))).
Proof.
  intros fuel blob file format buffer ty rawMin rawMax n count
         Hfile Hformat Hdata Hdtype Hn Hn1 Hlen.
  pose proof (BYTES_PER_ELEMENT_pos ty) as Hw.
  pose proof (dtypes_bits _ _ _ Hdtype) as Hbits. cbn [fst] in Hbits.
  destruct (view_spec ty buffer count Hlen) as (content & Hview & Hcount & Hraw).
  assert (forall i c, (i < count / n)%nat -> (c < n)%nat -> (i * n + c < count)%nat) as Hidx.
  { intros i c Hi Hc. pose proof (Nat.Div0.mul_div_le count n). nia. }
  assert (forall out convert,
             exists channels,
               deinterleave out convert format (Z.of_nat (length buffer)) content
               = Return channels
               /\ length channels = n
               /\ (forall c, (c < n)%nat -> length (nth c channels []) = (count / n)%nat)
               /\ forall i c, (i < count / n)%nat -> (c < n)%nat ->
                              nth i (nth c channels []) NaN
                              = store out (convert (rawElement ty buffer (i * n + c))))
    as Hde.
  { intros out convert.
    destruct (deinterleave_spec out convert format (Z.of_nat (length buffer)) content n
                Hn Hn1) as (channels & Hret & Hl & Hls & Hv).
    - rewrite Hbits. cbn [stored]. lia.
    - lia.
    - rewrite Hbits in Hls, Hv. cbn [stored] in Hls, Hv.
      rewrite Hlen, whole_samples in Hls, Hv by lia.
      exists channels. split; [exact Hret|]. split; [exact Hl|]. split; [exact Hls|].
      intros i c Hi Hc. rewrite (Hv i c Hi Hc). unfold at_.
      rewrite Hraw by (apply Hidx; assumption). reflexivity. }
  unfold decodeWav. rewrite Hfile. cbn [bind]. rewrite Hformat, Hdata.
  cbn [wave.data bufferOf bind]. rewrite Hdtype, Hview. cbn [bind].
  split.
  + destruct (Hde ty (fun v => v)) as (channels & Hret & Hl & Hls & Hv).
    exists channels. rewrite Hret. cbn [bind].
    split; [reflexivity|]. split; [exact Hl|]. split; [exact Hls|].
    intros i c Hi Hc. rewrite (Hv i c Hi Hc). unfold rawElement.
    apply store_element. rewrite length_firstn, length_skipn, Hlen.
    specialize (Hidx i c Hi Hc). nia.
  + destruct (Hde Float32Array (normalized rawMin rawMax))
      as (channels & Hret & Hl & Hls & Hv).
    exists channels. unfold normalized in Hret. rewrite Hret. cbn [bind].
    split; [reflexivity|]. split; [exact Hl|]. split; [exact Hls|]. exact Hv.
Qed.

(** The layout of the data [encodeWav] writes. *)
Lemma encodeWav_layout :
  forall (fuel : nat) (format : WaveFormatChunk) (info : option TrackInfo)
             (channels : Datatypes.list (Datatypes.list number))
             (ty : ArrayType) (rawMin rawMax : number) (n : nat),
         dtypes (audioFormat format) (bitsPerChannel format) = Some (ty, rawMin, rawMax) ->
         wave.channels format = Some (Z.of_nat n) ->
         (1 <= n <= length channels)%nat ->
         exists typedContent,
           encodeWav NumberToString fuel channels_float32
                     {| format := format; info := info; data := channels |}
           = riff.encodeRiff (Some (waveCodec fuel))
               {| riff.type := lit "WAVE";
                  riff.content :=
                    [FormatChunk format;
                     DataChunk {| wave.data := riff.PartBlob (arrayBytes ty typedContent) |}]
                    ++ match info with
                       | Some i =>
                           [ListChunk {| wave.type := lit "INFO";
                                         entries := infoEntriesOf NumberToString i |}]
                       | None => []
                       end;
                  riff.unknowns := [] |}
           /\ length typedContent = (length (nth 0 channels []) * n)%nat
           /\ forall i c, (i < length (nth 0 channels []))%nat -> (c < n)%nat ->
                          nth (i * n + c) typedContent NaN
                          = store ty (denormalized rawMin rawMax
                                                   (at_ (nth c channels []) i)).
Proof.
  intros fuel format info channels ty rawMin rawMax n Hdtype Hn Hlen.
  destruct (interleave_spec ty (denormalized rawMin rawMax) format channels n
              (length (nth 0 channels [])) Hn Hlen eq_refl)
    as (typedContent & Hret & Hl & Hv).
  exists typedContent. split; [|split; [exact Hl | exact Hv]].
  unfold encodeWav. cbn [wav.format wav.data wav.info]. rewrite Hdtype.
  unfold denormalized in Hret. rewrite Hret. cbn [bind].
  unfold riff.newBlob. cbn [flat_map riff.partBytes]. rewrite app_nil_r.
  destruct info; reflexivity.
Qed.

(** ** C3 *)

(** C3. For a data chunk that holds [count] interleaved elements of a
    supported format and [n >= 1] channels, [decodeWav] returns [n] arrays
    of [count / n] elements: in the mode [channels-fmt] the element [i] of
    the channel [c] is the raw element [i * n + c] of the data, as it is;
    in the mode [channels-float32] it is the 32-bit float made of
    [((raw - rawMin) / (rawMax - rawMin)) * 2 - 1] for that raw element.
    In the mode [channels-float32] [encodeWav] puts into the element
    [i * n + c] of the data the value
    [(p + 1) / 2 * (rawMax - rawMin) + rawMin] for the sample [i] of the
    channel [c], turned into an element of the array type of the
    format. *)
Theorem C3_sample_layout :
  (forall (fuel : nat) (blob : Blob) (file : riff.RiffFile WaveRiffChunk)
          (format : WaveFormatChunk) (buffer : Datatypes.list byte)
          (ty : ArrayType) (rawMin rawMax : number) (n count : nat),
      riff.decodeRiff (Some (waveCodec fuel)) blob true = Return file ->
      findFormat (riff.content file) = Some format ->
      findData (riff.content file) = Some {| wave.data := riff.PartBlob buffer |} ->
      dtypes (audioFormat format) (bitsPerChannel format) = Some (ty, rawMin, rawMax) ->
      wave.channels format = Some (Z.of_nat n) ->
      (1 <= n)%nat ->
      length buffer = (count * BYTES_PER_ELEMENT ty)%nat ->
      (exists channels,
          decodeWav ToNumber fuel blob channels_fmt
          = Return {| format := format;
                      info := trackInfo ToNumber (findInfo (riff.content file));
                      data := channels |}
          /\ length channels = n
          /\ (forall c, (c < n)%nat -> length (nth c channels []) = (count / n)%nat)
          /\ forall i c, (i < count / n)%nat -> (c < n)%nat ->
                         nth i (nth c channels []) NaN = rawElement ty buffer (i * n + c))
      /\ (exists channels,
             decodeWav ToNumber fuel blob channels_float32
             = Return {| format := format;
                         info := trackInfo ToNumber (findInfo (riff.content file));
                         data := channels |}
             /\ length channels = n
             /\ (forall c, (c < n)%nat -> length (nth c channels []) = (count / n)%nat)
             /\ forall i c, (i < count / n)%nat -> (c < n)%nat ->
                            nth i (nth c channels []) NaN
                            = store Float32Array
                                (normalized rawMin rawMax
                                            (rawElement ty buffer (i * n + c)))))
  /\ (forall (fuel : nat) (format : WaveFormatChunk) (info : option TrackInfo)
             (channels : Datatypes.list (Datatypes.list number))
             (ty : ArrayType) (rawMin rawMax : number) (n : nat),
         dtypes (audioFormat format) (bitsPerChannel format) = Some (ty, rawMin, rawMax) ->
         wave.channels format = Some (Z.of_nat n) ->
         (1 <= n <= length channels)%nat ->
         exists typedContent,
           encodeWav NumberToString fuel channels_float32
                     {| format := format; info := info; data := channels |}
           = riff.encodeRiff (Some (waveCodec fuel))
               {| riff.type := lit "WAVE";
                  riff.content :=
                    [FormatChunk format;
                     DataChunk {| wave.data := riff.PartBlob (arrayBytes ty typedContent) |}]
                    ++ match info with
                       | Some i =>
                           [ListChunk {| wave.type := lit "INFO";
                                         entries := infoEntriesOf NumberToString i |}]
                       | None => []
                       end;
                  riff.unknowns := [] |}
           /\ length typedContent = (length (nth 0 channels []) * n)%nat
           /\ forall i c, (i < length (nth 0 channels []))%nat -> (c < n)%nat ->
                          nth (i * n + c) typedContent NaN
                          = store ty (denormalized rawMin rawMax
                                                   (at_ (nth c channels []) i))).
Proof.
  split; [exact decodeWav_layout | exact encodeWav_layout].
Qed.

End SampleLoops.

(** The file of eight interleaved 16-bit elements is decoded into two
    channels of four, and two channels of two samples are encoded into
    four elements. *)
Lemma C3_sample_layout_witness :
  ((exists channels,
       wav.decodeWav noNumber 0 stereoWave wav.channels_fmt
       = Return {| wav.format := stereo16; wav.info := None; wav.data := channels |}
       /\ length channels = 2%nat
       /\ (forall c, (c < 2)%nat -> length (nth c channels []) = (8 / 2)%nat)
       /\ forall i c, (i < 8 / 2)%nat -> (c < 2)%nat ->
                      nth i (nth c channels []) number.NaN
                      = rawElement number.Int16Array stereoData (i * 2 + c))
   /\ (exists channels,
          wav.decodeWav noNumber 0 stereoWave wav.channels_float32
          = Return {| wav.format := stereo16; wav.info := None; wav.data := channels |}
          /\ length channels = 2%nat
          /\ (forall c, (c < 2)%nat -> length (nth c channels []) = (8 / 2)%nat)
          /\ forall i c, (i < 8 / 2)%nat -> (c < 2)%nat ->
                         nth i (nth c channels []) number.NaN
                         = number.store number.Float32Array
                             (normalized (number.ofZ (-32768)) (number.ofZ 32767)
                                (rawElement number.Int16Array stereoData (i * 2 + c)))))
  /\ (exists typedContent,
         wav.encodeWav noString 0 wav.channels_float32
           {| wav.format := stereo16; wav.info := None;
              wav.data := [[number.ofZ 0; number.ofZ 1]; [number.ofZ (-1); number.ofZ 0]] |}
         = riff.encodeRiff (Some (wave.waveCodec 0))
             {| riff.type := lit "WAVE";
                riff.content :=
                  [wave.FormatChunk stereo16;
                   wave.DataChunk
                     {| wave.data :=
                          riff.PartBlob (number.arrayBytes number.Int16Array typedContent) |}]
                  ++ [];
                riff.unknowns := [] |}
         /\ length typedContent = (2 * 2)%nat
         /\ forall i c, (i < 2)%nat -> (c < 2)%nat ->
                        nth (i * 2 + c) typedContent number.NaN
                        = number.store number.Int16Array
                            (denormalized (number.ofZ (-32768)) (number.ofZ 32767)
                               (wav.at_ (nth c [[number.ofZ 0; number.ofZ 1];
                                                [number.ofZ (-1); number.ofZ 0]] []) i))).
Proof.
  destruct (C3_sample_layout noNumber noString) as [Hdecode Hencode].
  split.
  - apply (Hdecode 0%nat stereoWave
             {| riff.type := lit "WAVE";
                riff.content :=
                  [wave.FormatChunk stereo16;
                   wave.DataChunk {| wave.data := riff.PartBlob stereoData |}];
                riff.unknowns := [] |}
             stereo16 stereoData number.Int16Array
             (number.ofZ (-32768)) (number.ofZ 32767) 2%nat 8%nat);
      try (vm_compute; reflexivity). lia.
  - apply (Hencode 0%nat stereo16 None
             [[number.ofZ 0; number.ofZ 1]; [number.ofZ (-1); number.ofZ 0]]
             number.Int16Array (number.ofZ (-32768)) (number.ofZ 32767) 2%nat);
      try (vm_compute; reflexivity). cbn. lia.
Defined.

(* ===================================================================== *)
(** * The [LIST] codec                                                     *)
(* ===================================================================== *)

Section ListCodec.

Import riff wave.

(** Below [2 ^ 31] the 32-bit operators round up to the next even
    number. *)
Lemma shl_sar_even (size : Z) :
  0 <= size -> size + 1 < 2 ^ 31 -> shl (sar (size + 1) 1) 1 = roundUpToEven size.
Proof.
  intros H0 H1. unfold shl, sar, ToInt32, roundUpToEven.
  change (2 ^ 31) with 2147483648 in *. change (2 ^ 32) with 4294967296.
  rewrite (Z.mod_small (size + 1 + 2147483648)) by lia.
  replace (size + 1 + 2147483648 - 2147483648) with (size + 1) by lia.
  rewrite Z.shiftr_div_pow2 by lia. change (2 ^ 1) with 2.
  pose proof (Z.div_mod (size + 1) 2 ltac:(lia)) as Hd.
  pose proof (Z.mod_pos_bound (size + 1) 2 ltac:(lia)) as Hm.
  rewrite (Z.mod_small ((size + 1) / 2 + 2147483648)) by lia.
  replace ((size + 1) / 2 + 2147483648 - 2147483648) with ((size + 1) / 2) by lia.
  rewrite Z.shiftl_mul_pow2 by lia. change (2 ^ 1) with 2.
  rewrite (Z.mod_small ((size + 1) / 2 * 2 + 2147483648)) by lia.
  pose proof (Z.div_mod size 2 ltac:(lia)) as Hd'.
  pose proof (Z.mod_pos_bound size 2 ltac:(lia)) as Hm'.
  assert ((size + 1) mod 2 = 1 - size mod 2) as Hpar.
  { rewrite Z.add_mod by lia. change (1 mod 2) with 1.
    destruct (Z.eq_dec (size mod 2) 0) as [->|Hn]; [reflexivity|].
    replace (size mod 2) with 1 by lia. reflexivity. }
  lia.
Qed.

Lemma size_listTail (size : Z) :
  0 <= size -> Platform.size (listTail size) = 1 + roundUpToEven size - size.
Proof.
  intros Hs. unfold listTail, Platform.size, roundUpToEven. rewrite repeat_length.
  pose proof (Z.mod_pos_bound size 2 ltac:(lia)).
  destruct (Z.eqb_spec (size mod 2) 0); lia.
Qed.

Lemma size_listRecordBytes (r : jsstring * Datatypes.list byte) :
  tag (fst r) -> size (listRecordBytes r) = 8 + roundUpToEven (size (snd r) + 1).
Proof.
  intros Ht. unfold listRecordBytes. pose proof (size_nonneg (snd r)).
  rewrite !size_app, size_utf8_tag, size_listTail by (assumption || lia).
  rewrite Uint32Array_of_one. unfold size at 1. rewrite length_z2le. lia.
Qed.

(** The loop of the decoder over the bytes of well-formed records stores
    the entry of every record, with fuel for one step more than there are
    records. *)
Lemma list_decode_records (records : Datatypes.list (jsstring * Datatypes.list byte)) :
  Forall listWellFormed records ->
  forall fuel before entries,
    (length records < fuel)%nat ->
    list_decode_loop fuel (before ++ flat_map listRecordBytes records) (size before) entries
    = Return (decodedEntries records entries).
Proof.
  induction 1 as [|[name encoded] records [Ht Hsz] Hwf IH]; intros fuel before entries Hfuel.
  - destruct fuel as [|fuel]; [cbn in Hfuel; lia|].
    cbn [flat_map list_decode_loop decodedEntries fold_left]. rewrite app_nil_r.
    rewrite Z.ltb_irrefl. reflexivity.
  - destruct fuel as [|fuel]; [cbn in Hfuel; lia|].
    cbn [fst snd] in Ht, Hsz.
    pose proof (size_nonneg before) as Hb. pose proof (size_nonneg encoded) as He.
    pose proof (size_utf8_tag name Ht) as Hn.
    assert (size (Uint32Array_of [size encoded + 1]) = 4) as Hw.
    { rewrite Uint32Array_of_one. unfold size at 1. rewrite length_z2le. reflexivity. }
    cbn [flat_map decodedEntries fold_left fst snd].
    set (rest := flat_map listRecordBytes records).
    set (blob := before ++ listRecordBytes (name, encoded) ++ rest).
    set (tail := listTail (size encoded + 1)).
    assert (blob = before ++ utf8_encode name ++ Uint32Array_of [size encoded + 1]
                          ++ encoded ++ tail ++ rest) as Hraw.
    { unfold blob, listRecordBytes. cbn [fst snd]. rewrite <- !app_assoc. reflexivity. }
    assert (slice blob (size before) (size before + 4) = utf8_encode name) as H1.
    { rewrite Hraw. apply slice_middle; [reflexivity | lia]. }
    assert (slice blob (size before + 4) (size before + 8)
            = Uint32Array_of [size encoded + 1]) as H2.
    { rewrite Hraw, (app_assoc before). apply slice_middle; rewrite size_app; lia. }
    assert (slice blob (size before + 8) (size before + 8 + (size encoded + 1) - 1) = encoded)
      as H3.
    { rewrite Hraw, (app_assoc before), (app_assoc (before ++ utf8_encode name)).
      apply slice_middle; rewrite !size_app; lia. }
    assert ((size before <? size blob) = true) as Hlt.
    { apply Z.ltb_lt. rewrite Hraw, !size_app. pose proof (size_nonneg rest).
      pose proof (size_nonneg tail). lia. }
    cbn [list_decode_loop]. rewrite Hlt, H1, H2, text_utf8_ascii by apply Ht.
    change (2 ^ 31) with 2147483648 in Hsz.
    rewrite Uint32Array_view_of by (change (2 ^ 32) with 4294967296; lia).
    cbn [bind first nth_error]. rewrite H3.
    rewrite shl_sar_even by (change (2 ^ 31) with 2147483648; lia).
    specialize (IH fuel (before ++ listRecordBytes (name, encoded))
                   (set entries name (text encoded)) ltac:(cbn in Hfuel; lia)).
    rewrite size_app, size_listRecordBytes in IH by exact Ht. cbn [snd] in IH.
    rewrite <- app_assoc in IH. exact IH.
Qed.

Lemma length_listRecords (records : Datatypes.list (jsstring * Datatypes.list byte)) :
  Forall listWellFormed records ->
  (length records <= length (flat_map listRecordBytes records))%nat.
Proof.
  induction 1 as [|r records [Ht _] Hwf IH]; cbn [flat_map length]; [lia|].
  rewrite length_app. pose proof (size_listRecordBytes r Ht) as Hs.
  pose proof (size_nonneg (snd r)). unfold roundUpToEven in Hs.
  pose proof (Z.mod_pos_bound (size (snd r) + 1) 2 ltac:(lia)).
  unfold size in *. lia.
Qed.

(** Decoding the payload made of a tag and well-formed records. *)
Lemma list_decode_payload (ty : jsstring)
      (records : Datatypes.list (jsstring * Datatypes.list byte)) (fuel : nat) :
  tag ty ->
  Forall listWellFormed records ->
  (length records < fuel)%nat ->
  list_decode fuel (utf8_encode ty ++ flat_map listRecordBytes records)
  = Return {| type := ty; entries := decodedEntries records [] |}.
Proof.
  intros Ht Hwf Hfuel. unfold list_decode.
  pose proof (size_utf8_tag ty Ht) as Hsz.
  assert (slice (utf8_encode ty ++ flat_map listRecordBytes records) 0 4 = utf8_encode ty)
    as Hty.
  { apply (slice_middle [] (utf8_encode ty) (flat_map listRecordBytes records) 0 4);
      [reflexivity | rewrite Hsz; reflexivity]. }
  rewrite Hty, text_utf8_ascii by apply Ht.
  pose proof (list_decode_records records Hwf fuel (utf8_encode ty) [] Hfuel) as Hloop.
  rewrite Hsz in Hloop. rewrite Hloop. reflexivity.
Qed.

Lemma str_eqb_neq (a b : jsstring) : a <> b -> str_eqb a b = false.
Proof.
  intros Hne. destruct (str_eqb a b) eqn:E; [|reflexivity].
  apply str_eqb_eq in E. contradiction.
Qed.

(** With distinct names every entry is the value of its name. *)
Lemma get_NoDup (entries : WaveListEntries) :
  NoDup (map fst entries) ->
  forall entry, In entry entries -> get entries (fst entry) = snd entry.
Proof.
  induction entries as [|[k v] entries IH]; intros Hnd entry Hin; [destruct Hin|].
  cbn [map fst] in Hnd. inversion Hnd as [|? ? Hout Hnd']; subst.
  cbn [get]. destruct Hin as [<-|Hin].
  - cbn [fst snd]. rewrite str_eqb_refl. reflexivity.
  - rewrite str_eqb_neq; [apply IH; assumption|].
    intros ->. apply Hout. apply in_map. exact Hin.
Qed.

(** Without array index among the names, the names are visited in the
    order of the entries. *)
Lemma forIn_plain (entries : WaveListEntries) :
  Forall (fun name => arrayIndex name = None) (map fst entries) ->
  forIn entries = map fst entries.
Proof.
  unfold forIn. generalize (map fst entries) as names.
  intros names Hplain.
  assert (indexNames names = []) as ->.
  { induction Hplain as [|name names Hname Hnames IH]; [reflexivity|].
    cbn [indexNames]. rewrite Hname. exact IH. }
  cbn [map app].
  induction Hplain as [|name names Hname Hnames IH]; [reflexivity|].
  cbn [filter]. rewrite Hname, IH. reflexivity.
Qed.

(** The parts of the record of an emitted entry. *)
Lemma newBlob_entry (name : jsstring) (encoded : Datatypes.list byte) :
  newBlob [PartString name;
           PartBuffer (Uint32Array_of [size encoded + 1]);
           PartBuffer encoded;
           PartBuffer (listTail (size encoded + 1))]
  = listRecordBytes (name, encoded).
Proof.
  unfold newBlob, listRecordBytes. cbn [flat_map partBytes fst snd].
  rewrite app_nil_r. reflexivity.
Qed.

Lemma list_encode_loop_spec (entries : WaveListEntries) (sub : WaveListEntries) :
  (forall entry, In entry sub -> get entries (fst entry) = snd entry) ->
  Forall (fun r => length (fst r) = 4%nat) (emitted sub) ->
  forall parts,
  exists parts',
    list_encode_loop (map fst sub) entries parts = Return parts'
    /\ newBlob parts' = newBlob parts ++ flat_map listRecordBytes (emitted sub).
Proof.
  induction sub as [|[k v] sub IH]; intros Hget Hlen parts.
  - exists parts. split; [reflexivity|]. cbn [emitted flat_map]. rewrite app_nil_r.
    reflexivity.
  - cbn [map fst list_encode_loop].
    pose proof (Hget (k, v) (or_introl eq_refl)) as Hk0. cbn [fst snd] in Hk0.
    rewrite Hk0.
    assert (forall entry, In entry sub -> get entries (fst entry) = snd entry) as Hget'
        by (intros entry Hin; apply Hget; right; exact Hin).
    destruct v as [[|c s]|].
    + apply IH; assumption.
    + unfold emitted in Hlen. cbn [flat_map snd fst app] in Hlen.
      inversion Hlen as [|? ? Hk Hlen']; subst. cbn [fst] in Hk.
      rewrite Hk. cbn [Nat.eqb negb].
      destruct (IH Hget' Hlen'
                  (parts ++ [PartString k;
                             PartBuffer (Uint32Array_of
                                           [Z.of_nat (length (utf8_encode (c :: s))) + 1]);
                             PartBuffer (utf8_encode (c :: s));
                             PartBuffer (repeat x00
                               (Z.to_nat
                                  (1 + (if (Z.of_nat (length (utf8_encode (c :: s))) + 1)
                                             mod 2 =? 0
                                        then 0
                                        else 2 - (Z.of_nat (length (utf8_encode (c :: s))) + 1)
                                                   mod 2))))]))
        as (parts' & Hret & Hblob).
      exists parts'. split; [exact Hret|].
      rewrite Hblob, newBlob_app. fold (size (utf8_encode (c :: s))).
      fold (listTail (size (utf8_encode (c :: s)) + 1)).
      rewrite newBlob_entry. unfold emitted. cbn [flat_map snd fst app].
      rewrite <- app_assoc. reflexivity.
    + apply IH; assumption.
Qed.

(** The payload the encoder writes for entries with distinct names that
    are no array indices, those written having names of four
    characters. *)
Lemma list_encode_spec (ty : jsstring) (entries : WaveListEntries) :
  NoDup (map fst entries) ->
  Forall (fun name => arrayIndex name = None) (map fst entries) ->
  Forall (fun r => length (fst r) = 4%nat) (emitted entries) ->
  list_encode ty entries
  = Return (utf8_encode ty ++ flat_map listRecordBytes (emitted entries)).
Proof.
  intros Hnd Hplain Hlen. unfold list_encode. rewrite forIn_plain by exact Hplain.
  destruct (list_encode_loop_spec entries entries (get_NoDup entries Hnd) Hlen
              [PartString ty]) as (parts & -> & Hblob).
  cbn [bind]. rewrite Hblob. unfold newBlob at 1. cbn [flat_map partBytes].
  rewrite app_nil_r. reflexivity.
Qed.

(** The encoder fails at the first entry it would write whose name has
    not four characters. *)
Lemma list_encode_bad_key (ty : jsstring) (before after : WaveListEntries)
      (name : jsstring) (c : Z) (s : jsstring) :
  let entries := before ++ (name, Some (c :: s)) :: after in
  NoDup (map fst entries) ->
  Forall (fun name => arrayIndex name = None) (map fst entries) ->
  Forall (fun r => length (fst r) = 4%nat) (emitted before) ->
  length name <> 4%nat ->
  list_encode ty entries
  = Throw (Error (lit "Entry name must have a length of 4 (found '" ++ name ++ lit "')")).
Proof.
  intros entries Hnd Hplain Hlen Hname. unfold list_encode.
  rewrite forIn_plain by exact Hplain.
  pose proof (get_NoDup entries Hnd) as Hget.
  unfold entries at 1. rewrite map_app. cbn [map fst].
  assert (forall parts,
             list_encode_loop (name :: map fst after) entries parts
             = Throw (Error (lit "Entry name must have a length of 4 (found '"
                             ++ name ++ lit "')"))) as Hthrow.
  { intros parts. cbn [list_encode_loop].
    pose proof (Hget (name, Some (c :: s))
                  ltac:(unfold entries; apply in_or_app; right; left; reflexivity)) as Hk.
    cbn [fst snd] in Hk. rewrite Hk.
    apply Nat.eqb_neq in Hname. rewrite Hname. reflexivity. }
  assert (forall entry, In entry before -> get entries (fst entry) = snd entry) as Hget'.
  { intros entry Hin. apply Hget. unfold entries. apply in_or_app. left. exact Hin. }
  clear Hget.
  enough (forall parts,
             list_encode_loop (map fst before ++ name :: map fst after) entries parts
             = Throw (Error (lit "Entry name must have a length of 4 (found '"
                             ++ name ++ lit "')"))) as Hloop
      by (rewrite Hloop; reflexivity).
  clearbody entries. clear Hnd Hplain.
  induction before as [|[k v] before IH]; intros parts; cbn [map fst app].
  - apply Hthrow.
  - cbn [list_encode_loop].
    pose proof (Hget' (k, v) (or_introl eq_refl)) as Hk. cbn [fst snd] in Hk. rewrite Hk.
    assert (forall entry, In entry before -> get entries (fst entry) = snd entry) as Hget''
        by (intros entry Hin; apply Hget'; right; exact Hin).
    destruct v as [[|c' s']|]; try (apply IH; assumption).
    unfold emitted in Hlen. cbn [flat_map snd fst app] in Hlen.
    inversion Hlen as [|? ? Hk4 Hlen']; subst. cbn [fst] in Hk4.
    rewrite Hk4. cbn [Nat.eqb negb]. apply IH; assumption.
Qed.

(** ** C4 *)

(** C4, at the failing input. The payload [stuckList] holds the type
    [INFO] and one entry whose length field is [0xFFFFFFF7]. The cursor is
    to advance by [8 + roundUpToEven size]; the 32-bit operators make
    [((size + 1) >> 1) << 1] equal to -8, the cursor stays at 4, where the
    entry starts, and the loop of the decoder does not end, whatever the
    fuel. *)
Theorem C4_list_decode_stuck :
  shl (sar (0xFFFFFFF7 + 1) 1) 1 = -8
  /\ roundUpToEven 0xFFFFFFF7 = 0xFFFFFFF8
  /\ forall fuel, list_decode fuel stuckList = Hang.
Proof.
  split; [reflexivity|]. split; [reflexivity|].
  assert (forall fuel entries, list_decode_loop fuel stuckList 4 entries = Hang) as Hloop.
  { induction fuel as [|fuel IH]; intros entries; [reflexivity|].
    cbn [list_decode_loop].
    change (4 <? size stuckList) with true.
    change (Uint32Array_view (slice stuckList (4 + 4) (4 + 8)))
      with (Return (A := Datatypes.list Z) [0xFFFFFFF7]).
    cbn [bind first nth_error].
    change (4 + (8 + shl (sar (0xFFFFFFF7 + 1) 1) 1)) with 4.
    apply IH. }
  intros fuel. unfold list_decode. rewrite Hloop. reflexivity.
Qed.

End ListCodec.

(* ===================================================================== *)
(** * The round trip of a [.wav] file                                      *)
(* ===================================================================== *)

Section WavRoundTrip.

Import riff wave number wav.

(** The [fmt ] chunk read back: every field modulo the width of its
    place. *)
Lemma fmt_decode_encode (c : WaveFormatChunk) :
  exists blob,
    encode fmt (FormatChunk c) = Return blob
    /\ size blob = 16
    /\ fmt_decode blob
       = Return {| audioFormat := audioFormat c;
                   channels := Some (stored (channels c) mod 2 ^ 16);
                   sampleRate := Some (stored (sampleRate c) mod 2 ^ 32);
                   byteRate := Some (stored (byteRate c) mod 2 ^ 32);
                   blockAlign := Some (stored (blockAlign c) mod 2 ^ 16);
                   bitsPerChannel := Some (stored (bitsPerChannel c) mod 2 ^ 16) |}.
Proof.
  eexists. split; [reflexivity|]. split; [reflexivity|].
  unfold newBlob, Uint16Array_of, Uint32Array_of.
  cbn [flat_map partBytes app z2le stored].
  rewrite fmt_decode_fields.
  - cbn [firstn skipn].
    repeat match goal with
           | |- context [le2z [z2b ?x; z2b (?x / 256); z2b (?x / 256 / 256);
                               z2b (?x / 256 / 256 / 256)]] =>
               change (le2z [z2b x; z2b (x / 256); z2b (x / 256 / 256);
                             z2b (x / 256 / 256 / 256)]) with (le2z (z2le 4 x));
               rewrite (le2z_z2le 4 x)
           | |- context [le2z [z2b ?x; z2b (?x / 256)]] =>
               change (le2z [z2b x; z2b (x / 256)]) with (le2z (z2le 2 x));
               rewrite (le2z_z2le 2 x)
           end.
    change (8 * Z.of_nat 2) with 16. change (8 * Z.of_nat 4) with 32.
    destruct (audioFormat c); reflexivity.
  - reflexivity.
  - cbn [firstn]. destruct (audioFormat c); [left | right]; reflexivity.
Qed.

Lemma in_set_names (e : WaveListEntries) (k v x : jsstring) :
  In x (map fst (set e k v)) <-> In x (map fst e) \/ x = k.
Proof.
  induction e as [|[k0 v0] e IH]; cbn [set map fst In].
  - intuition congruence.
  - destruct (str_eqb k0 k) eqn:E; cbn [map fst In].
    + apply str_eqb_eq in E. subst k0. intuition congruence.
    + rewrite IH. tauto.
Qed.

Lemma NoDup_set (e : WaveListEntries) (k v : jsstring) :
  NoDup (map fst e) -> NoDup (map fst (set e k v)).
Proof.
  induction e as [|[k0 v0] e IH]; cbn [set map fst]; intros Hnd.
  - constructor; [intros [] | constructor].
  - inversion Hnd as [|? ? Hout Hnd']; subst.
    destruct (str_eqb k0 k) eqn:E; cbn [map fst].
    + constructor; assumption.
    + constructor; [|apply IH; exact Hnd'].
      rewrite in_set_names. intros [Hin| ->]; [contradiction|].
      rewrite str_eqb_refl in E. discriminate.
Qed.

Lemma infoEntries_ok_set (e : WaveListEntries) (k v : jsstring) :
  infoKey k -> infoEntries_ok e -> infoEntries_ok (set e k v).
Proof.
  intros Hk [Hnd Hkeys]. split; [apply NoDup_set; exact Hnd|].
  apply Forall_forall. intros x Hx. apply in_set_names in Hx.
  destruct Hx as [Hx| ->]; [|exact Hk].
  rewrite Forall_forall in Hkeys. apply Hkeys. exact Hx.
Qed.

Lemma infoKey_lit (name : string) :
  tag (lit name) -> arrayIndex (lit name) = None -> infoKey (lit name).
Proof. intros Ht Hi. split; assumption. Qed.

Variable NumberToString : number -> jsstring.

Lemma infoEntriesOf_ok (i : TrackInfo) : infoEntries_ok (infoEntriesOf NumberToString i).
Proof.
  assert (forall name, length (lit name) = 4%nat ->
                       Forall (fun c => 0 <= c < 128) (lit name) ->
                       arrayIndex (lit name) = None -> infoKey (lit name)) as Hkey
      by (intros name Hl Ha Hi; split; [split|]; assumption).
  assert (infoEntries_ok []) as H0 by (split; constructor).
  unfold infoEntriesOf.
  repeat match goal with
         | |- infoEntries_ok (match ?v with Some _ => _ | None => _ end) =>
             destruct v
         | |- infoEntries_ok (match ?v with [] => _ | _ :: _ => _ end) =>
             destruct v
         | |- infoEntries_ok (set _ _ _) =>
             apply infoEntries_ok_set;
             [apply Hkey; [reflexivity | repeat constructor; cbn; lia | reflexivity]|]
         | |- infoEntries_ok [] => exact H0
         end.
Qed.

Lemma emitted_names (e : WaveListEntries) (r : jsstring * Datatypes.list byte) :
  In r (emitted e) -> In (fst r) (map fst e).
Proof.
  induction e as [|[k v] e IH]; [intros []|].
  unfold emitted. cbn [flat_map map fst snd]. intros Hin. apply in_app_or in Hin.
  destruct Hin as [Hin|Hin]; [|right; apply IH; exact Hin].
  destruct v as [[|c s]|]; cbn [In] in Hin; try contradiction.
  destruct Hin as [<-|[]]. left. reflexivity.
Qed.

Lemma tag_lit4 (name : string) :
  length (lit name) = 4%nat -> Forall (fun c => 0 <= c < 128) (lit name) -> tag (lit name).
Proof. intros Hl Ha. split; assumption. Qed.

Lemma tag_WAVE : tag (lit "WAVE").
Proof. apply tag_lit4; [reflexivity | repeat constructor; cbn; lia]. Qed.

Lemma tag_fmt : tag (lit "fmt ").
Proof. apply tag_lit4; [reflexivity | repeat constructor; cbn; lia]. Qed.

Lemma tag_data : tag (lit "data").
Proof. apply tag_lit4; [reflexivity | repeat constructor; cbn; lia]. Qed.

Lemma tag_LIST : tag (lit "LIST").
Proof. apply tag_lit4; [reflexivity | repeat constructor; cbn; lia]. Qed.

Lemma tag_INFO : tag (lit "INFO").
Proof. apply tag_lit4; [reflexivity | repeat constructor; cbn; lia]. Qed.

Lemma length_set (e : WaveListEntries) (k v : jsstring) :
  (length (set e k v) <= S (length e))%nat.
Proof.
  induction e as [|[k0 v0] e IH]; cbn [set length]; [lia|].
  destruct (str_eqb k0 k); cbn [length]; lia.
Qed.

Lemma length_put (e : WaveListEntries) (k : jsstring) (v : option jsstring) (n : nat) :
  (length e <= n)%nat ->
  (length (match v with
           | Some (c :: s) => set e k (c :: s)
           | _ => e
           end) <= S n)%nat.
Proof.
  intros Hn. destruct v as [[|c s]|]; try lia.
  pose proof (length_set e k (c :: s)). lia.
Qed.

Lemma length_put_number (e : WaveListEntries) (k : jsstring) (v : option number) (n : nat) :
  (length e <= n)%nat ->
  (length (match v with
           | Some x => set e k (NumberToString x)
           | None => e
           end) <= S n)%nat.
Proof.
  intros Hn. destruct v as [x|]; try lia.
  pose proof (length_set e k (NumberToString x)). lia.
Qed.

(** The payload of the [LIST] chunk of the track information is written,
    and read back when it is shorter than [2 ^ 31] bytes. *)
Lemma info_payload (fuel : nat) (i : TrackInfo) :
  exists payload,
    list_encode (lit "INFO") (infoEntriesOf NumberToString i) = Return payload
    /\ (size payload < 2 ^ 31 -> (8 <= fuel)%nat ->
        exists chunk, list_decode fuel payload = Return chunk).
Proof.
  destruct (infoEntriesOf_ok i) as [Hnd Hkeys].
  set (e := infoEntriesOf NumberToString i) in *.
  assert (forall r, In r (emitted e) -> tag (fst r)) as Htags.
  { intros r Hr. apply emitted_names in Hr. rewrite Forall_forall in Hkeys.
    apply (Hkeys _ Hr). }
  eexists. split.
  - apply list_encode_spec; [exact Hnd | |].
    + eapply Forall_impl; [|exact Hkeys]. intros k Hk. apply Hk.
    + apply Forall_forall. intros r Hr. apply (Htags r Hr).
  - intros Hsz Hfuel. eexists. apply list_decode_payload; [exact tag_INFO | |].
    + apply Forall_forall. intros r Hr. split; [exact (Htags r Hr)|].
      pose proof (size_flat_map_le listRecordBytes (emitted e) r Hr) as Hle.
      rewrite size_listRecordBytes in Hle by exact (Htags r Hr).
      rewrite size_app in Hsz. pose proof (size_nonneg (utf8_encode (lit "INFO"))).
      pose proof (size_nonneg (snd r)). unfold roundUpToEven in Hle.
      pose proof (Z.mod_pos_bound (size (snd r) + 1) 2 ltac:(lia)). lia.
    + (* at most seven entries *)
      assert (length (emitted e) <= length e)%nat as Hle.
      { clear. induction e as [|[k [[|c s]|]] e IH]; unfold emitted in *;
          cbn [flat_map length snd fst app] in *; lia. }
      assert (length e <= 7)%nat as H7.
      { unfold e, infoEntriesOf. cbv beta zeta.
        do 2 apply length_put. apply length_put_number. do 4 apply length_put.
        cbn [length]. lia. }
      lia.
Qed.

Lemma recordBytes_parts (i : jsstring) (payload : Blob) :
  newBlob [PartString i; PartBuffer (Uint32Array_of [size payload]); PartBlob payload]
  = recordBytes (i, payload).
Proof.
  unfold newBlob, recordBytes. cbn [flat_map partBytes fst snd].
  rewrite app_nil_r. reflexivity.
Qed.

(** The container of a [.wav] file is written, and the decoder reads the
    [fmt ] chunk and the [data] chunk back, and what the decoder of
    [LIST] makes of the track information, when the bytes after the
    length of the container are fewer than [2 ^ 32]. *)
Lemma wave_container_decode (fuel : nat) (format : WaveFormatChunk) (bytes : Blob)
      (info : option TrackInfo) :
  exists blob,
    encodeRiff (Some (waveCodec fuel))
               (waveContainer NumberToString format (PartBlob bytes) info)
    = Return blob
    /\ 44 + size bytes <= size blob
    /\ (info = None -> size blob = 44 + size bytes)
    /\ (size blob < 2 ^ 31 -> (8 <= fuel)%nat ->
        exists rest, listRead NumberToString fuel info = Return rest)
    /\ (size blob < 2 ^ 32 + 8 ->
        decodeRiff (Some (waveCodec fuel)) blob true
        = bind (listRead NumberToString fuel info)
               (fun rest =>
                  Return {| riff.type := lit "WAVE";
                            content := FormatChunk (readBack format)
                                       :: DataChunk {| wave.data := PartBlob bytes |} :: rest;
                            unknowns := [] |})).
Proof.
  destruct (fmt_decode_encode format) as (fb & Hfe & Hfs & Hfd).
  fold (readBack format) in Hfd.
  (* the records of the file *)
  assert (exists listRecords listParts,
             (forall parts,
                 encodeContent (Some (waveCodec fuel))
                   match info with
                   | Some i => [ListChunk {| wave.type := lit "INFO";
                                             entries := infoEntriesOf NumberToString i |}]
                   | None => []
                   end parts
                 = Return (parts ++ listParts))
             /\ newBlob listParts = flat_map recordBytes listRecords
             /\ Forall (fun r => tag (fst r)) listRecords
             /\ (info = None -> listRecords = [])
             /\ (size (flat_map recordBytes listRecords) < 2 ^ 31 -> (8 <= fuel)%nat ->
                 exists rest, listRead NumberToString fuel info = Return rest)
             /\ (forall c u,
                     decodeRecords (Some (waveCodec fuel)) listRecords c u
                     = bind (listRead NumberToString fuel info)
                            (fun rest => Return (c ++ rest, u))))
    as (listRecords & listParts & Hlenc & Hlblob & Hltags & Hlnone & Hlret & Hldec).
  { destruct info as [i|].
    - destruct (info_payload fuel i) as (payload & Hpe & Hpd).
      exists [(lit "LIST", payload)].
      exists [PartString (lit "LIST"); PartBuffer (Uint32Array_of [size payload]);
              PartBlob payload].
      split; [|split; [|split; [|split; [|split]]]].
      + intros parts. cbn [encodeContent]. 
        change (id (ListChunk {| wave.type := lit "INFO";
                                 entries := infoEntriesOf NumberToString i |}))
          with (lit "LIST").
        change (lookup (Some (waveCodec fuel)) (lit "LIST")) with (Some (list fuel)).
        change (negb (length (lit "LIST") =? 4)%nat) with false. cbv iota.
        change (encode (list fuel)
                  (ListChunk {| wave.type := lit "INFO";
                                entries := infoEntriesOf NumberToString i |}))
          with (list_encode (lit "INFO") (infoEntriesOf NumberToString i)).
        rewrite Hpe. reflexivity.
      + rewrite recordBytes_parts. cbn [flat_map]. rewrite app_nil_r. reflexivity.
      + repeat constructor; cbn; lia.
      + discriminate.
      + intros Hsz Hfuel. cbn [flat_map] in Hsz. rewrite app_nil_r in Hsz.
        rewrite size_recordBytes in Hsz by exact tag_LIST. cbn [snd] in Hsz.
        pose proof (size_nonneg payload).
        destruct (Hpd ltac:(lia) Hfuel) as (chunk & Hchunk).
        exists [ListChunk chunk]. unfold listRead. rewrite Hpe. cbn [bind].
        rewrite Hchunk. reflexivity.
      + intros c u. cbn [decodeRecords].
        change (lookup (Some (waveCodec fuel)) (lit "LIST")) with (Some (list fuel)).
        cbv beta iota.
        change (decode (list fuel) payload)
          with (c0 <- list_decode fuel payload ;; Return (ListChunk c0)).
        unfold listRead. rewrite Hpe. cbn [bind].
        destruct (list_decode fuel payload); reflexivity.
    - exists [], []. split; [|split; [|split; [|split; [|split]]]].
      + intros parts. rewrite app_nil_r. reflexivity.
      + reflexivity.
      + constructor.
      + reflexivity.
      + intros _ _. exists []. reflexivity.
      + intros c u. cbn [decodeRecords listRead bind]. rewrite app_nil_r. reflexivity. }
  set (records := (lit "fmt ", fb) :: (lit "data", bytes) :: listRecords).
  assert (encodeContent (Some (waveCodec fuel))
            (content (waveContainer NumberToString format (PartBlob bytes) info))
            [PartString (lit "WAVE")]
          = Return (([PartString (lit "WAVE")]
                     ++ [PartString (lit "fmt "); PartBuffer (Uint32Array_of [size fb]);
                         PartBlob fb])
                    ++ [PartString (lit "data"); PartBuffer (Uint32Array_of [size bytes]);
                        PartBlob bytes]
                    ++ listParts)) as Henc.
  { unfold waveContainer. cbn [content app encodeContent].
    change (id (FormatChunk format)) with (lit "fmt ").
    change (lookup (Some (waveCodec fuel)) (lit "fmt ")) with (Some fmt).
    change (negb (length (lit "fmt ") =? 4)%nat) with false. cbv iota.
    rewrite Hfe. cbn [bind].
    change (id (DataChunk {| wave.data := PartBlob bytes |})) with (lit "data").
    change (lookup (Some (waveCodec fuel)) (lit "data")) with (Some data_codec).
    change (negb (length (lit "data") =? 4)%nat) with false. cbv iota.
    change (encode data_codec (DataChunk {| wave.data := PartBlob bytes |}))
      with (Return bytes).
    cbn [bind]. rewrite Hlenc. reflexivity. }
  pose proof (encodeRiff_returns (Some (waveCodec fuel))
                (waveContainer NumberToString format (PartBlob bytes) info) _ eq_refl Henc)
    as Hret.
  cbv zeta in Hret. cbn [unknowns waveContainer flat_map] in Hret.
  rewrite app_nil_r in Hret.
  rewrite !newBlob_app, !recordBytes_parts, Hlblob in Hret.
  change (newBlob [PartString (lit "WAVE")]) with (utf8_encode (lit "WAVE")) in Hret.
  rewrite <- !app_assoc in Hret.
  change (utf8_encode (lit "WAVE") ++ recordBytes (lit "fmt ", fb)
          ++ recordBytes (lit "data", bytes) ++ flat_map recordBytes listRecords)
    with (utf8_encode (lit "WAVE") ++ flat_map recordBytes records) in Hret.
  eexists. split; [exact Hret|].
  set (contentBlob := utf8_encode (lit "WAVE") ++ flat_map recordBytes records) in *.
  assert (size contentBlob + 8 = size (riff ++ Uint32Array_of [size contentBlob] ++ contentBlob))
    as Htotal.
  { rewrite !size_app, Uint32Array_of_one.
    assert (size (z2le 4 (size contentBlob)) = 4) as ->
        by (unfold size at 1; rewrite length_z2le; reflexivity).
    change (size riff) with 4. lia. }
  assert (size contentBlob
          = 4 + (8 + size fb) + (8 + size bytes) + size (flat_map recordBytes listRecords))
    as Hcb.
  { unfold contentBlob, records. cbn [flat_map]. rewrite !size_app.
    rewrite !size_recordBytes by (exact tag_fmt || exact tag_data). cbn [snd].
    change (size (utf8_encode (lit "WAVE"))) with 4. lia. }
  pose proof (size_nonneg bytes) as Hb.
  pose proof (size_nonneg (flat_map recordBytes listRecords)) as Hl.
  split; [lia|].
  split; [intros Hnone; rewrite (Hlnone Hnone) in Hcb; cbn [flat_map] in Hcb;
          change (size []) with 0 in Hcb; lia|].
  split; [intros Hsz Hfuel; apply Hlret; [lia | exact Hfuel]|].
  intros Hsz.
  change (2 ^ 32) with 4294967296 in *.
  assert (Forall wellFormed records) as Hwf.
  { unfold records. constructor; [|constructor].
    - split; [exact tag_fmt|]. cbn [snd]. change (2 ^ 32) with 4294967296. lia.
    - split; [exact tag_data|]. cbn [snd]. change (2 ^ 32) with 4294967296. lia.
    - apply Forall_forall. intros r Hr. split.
      + rewrite Forall_forall in Hltags. exact (Hltags r Hr).
      + pose proof (size_flat_map_le recordBytes listRecords r Hr) as Hle.
        rewrite size_recordBytes in Hle
          by (rewrite Forall_forall in Hltags; exact (Hltags r Hr)).
        change (2 ^ 32) with 4294967296. lia. }
  unfold contentBlob at 1 2.
  rewrite (decodeRiff_container (Some (waveCodec fuel)) (lit "WAVE") records true
             tag_WAVE Hwf)
    by (fold contentBlob; change (2 ^ 32) with 4294967296; lia).
  unfold records. cbn [decodeRecords].
  change (lookup (Some (waveCodec fuel)) (lit "fmt ")) with (Some fmt).
  cbv beta iota.
  change (decode fmt fb) with (c <- fmt_decode fb ;; Return (FormatChunk c)).
  rewrite Hfd. cbn [bind].
  change (lookup (Some (waveCodec fuel)) (lit "data")) with (Some data_codec).
  cbv beta iota.
  change (decode data_codec bytes) with (Return (DataChunk {| wave.data := PartBlob bytes |})).
  cbn [bind].
  rewrite Hldec. destruct (listRead NumberToString fuel info); reflexivity.
Qed.

Lemma length_elementBytes (ty : ArrayType) (x : number) :
  length (elementBytes ty x) = BYTES_PER_ELEMENT ty.
Proof. destruct ty; apply length_z2le. Qed.

Lemma length_arrayBytes (ty : ArrayType) (a : Datatypes.list number) :
  length (arrayBytes ty a) = (length a * BYTES_PER_ELEMENT ty)%nat.
Proof.
  induction a as [|x a IH]; [reflexivity|].
  unfold arrayBytes in *. cbn [flat_map length]. rewrite length_app, IH, length_elementBytes.
  lia.
Qed.

(** The raw elements of the bytes of a typed array. *)
Lemma rawElement_arrayBytes (ty : ArrayType) (a : Datatypes.list number) :
  forall k, (k < length a)%nat ->
            rawElement ty (arrayBytes ty a) k = element ty (elementBytes ty (nth k a NaN)).
Proof.
  induction a as [|x a IH]; intros k Hk; [cbn in Hk; lia|].
  unfold rawElement, arrayBytes in *. cbn [flat_map].
  destruct k as [|k].
  - cbn [Nat.mul skipn nth].
    rewrite firstn_app, length_elementBytes, Nat.sub_diag. cbn [firstn].
    rewrite app_nil_r, <- (length_elementBytes ty x), firstn_all. reflexivity.
  - cbn [nth]. rewrite <- (IH k) by (cbn in Hk; lia).
    replace (S k * BYTES_PER_ELEMENT ty)%nat
      with (length (elementBytes ty x) + k * BYTES_PER_ELEMENT ty)%nat
      by (rewrite length_elementBytes; lia).
    rewrite skipn_app, skipn_all2 by lia.
    replace (length (elementBytes ty x) + k * BYTES_PER_ELEMENT ty
             - length (elementBytes ty x))%nat
      with (k * BYTES_PER_ELEMENT ty)%nat by lia.
    reflexivity.
Qed.




Variable ToNumber : jsstring -> number.

(** The round trip of channels through [encodeWav] in the mode
    [channels-float32] and [decodeWav] in the two modes of channels. *)
Lemma channels_read_back (fuel : nat) (format : WaveFormatChunk) (info : option TrackInfo)
      (channels : Datatypes.list (Datatypes.list number))
      (ty : ArrayType) (rawMin rawMax : number) (n samples : nat) :
  dtypes (audioFormat format) (bitsPerChannel format) = Some (ty, rawMin, rawMax) ->
  wave.channels format = Some (Z.of_nat n) ->
  (1 <= n)%nat -> Z.of_nat n < 2 ^ 16 ->
  length channels = n ->
  Forall (fun channel => length channel = samples) channels ->
  exists blob,
    encodeWav NumberToString fuel channels_float32
              {| wav.format := format; wav.info := info; wav.data := channels |}
    = Return blob
    /\ 44 + Z.of_nat (samples * n * BYTES_PER_ELEMENT ty) <= size blob
    /\ (info = None -> size blob = 44 + Z.of_nat (samples * n * BYTES_PER_ELEMENT ty))
    /\ (size blob < 2 ^ 31 -> (8 <= fuel)%nat ->
        exists rest, listRead NumberToString fuel info = Return rest)
    /\ (size blob < 2 ^ 32 + 8 ->
        (forall w, decodeWav ToNumber fuel blob channels_float32 = Return w ->
                   exists rest, listRead NumberToString fuel info = Return rest)
        /\ (forall rest,
               listRead NumberToString fuel info = Return rest ->
               (exists w,
                   decodeWav ToNumber fuel blob channels_float32 = Return w
                   /\ length (wav.data w) = n
                   /\ Forall (fun channel => length channel = samples) (wav.data w)
                   /\ forall i c, (i < samples)%nat -> (c < n)%nat ->
                                  nth i (nth c (wav.data w) []) NaN
                                  = quantized ty rawMin rawMax (nth i (nth c channels []) NaN))
               /\ (exists w,
                      decodeWav ToNumber fuel blob channels_fmt = Return w
                      /\ length (wav.data w) = n
                      /\ Forall (fun channel => length channel = samples) (wav.data w)
                      /\ forall i c, (i < samples)%nat -> (c < n)%nat ->
                                     nth i (nth c (wav.data w) []) NaN
                                     = element ty
                                         (elementBytes ty
                                            (store ty (denormalized rawMin rawMax
                                                         (nth i (nth c channels []) NaN))))))).
Proof.
  intros Hdtype Hn Hn1 Hn16 Hlen Hsamples.
  pose proof (BYTES_PER_ELEMENT_pos ty) as Hw.
  assert (length (nth 0 channels []) = samples) as Hfirst.
  { rewrite Forall_forall in Hsamples. apply Hsamples. apply nth_In. lia. }
  destruct (encodeWav_layout NumberToString fuel format info channels ty rawMin rawMax n
              Hdtype Hn ltac:(lia)) as (typedContent & Henc & Htl & Htv).
  rewrite Hfirst in Htl, Htv.
  destruct (wave_container_decode fuel format (arrayBytes ty typedContent) info)
    as (blob & Hblob & Hge & Hnone & Hret & Hback).
  assert (size (arrayBytes ty typedContent)
          = Z.of_nat (samples * n * BYTES_PER_ELEMENT ty)) as Hsize.
  { unfold size. rewrite length_arrayBytes, Htl. reflexivity. }
  rewrite Hsize in Hge, Hnone.
  exists blob. split; [rewrite Henc; exact Hblob|].
  split; [exact Hge|]. split; [exact Hnone|]. split; [exact Hret|].
  intros Hsz. specialize (Hback Hsz). split.
  - intros w. unfold decodeWav. rewrite Hback.
    destruct (listRead NumberToString fuel info) as [rest| |]; cbn [bind];
      [intros _; exists rest; reflexivity | discriminate | discriminate].
  - intros rest Hrest. rewrite Hrest in Hback. cbn [bind] in Hback.
    pose proof (dtypes_bits _ _ _ Hdtype) as Hbits. cbn [fst] in Hbits.
    assert (bitsPerChannel (readBack format) = bitsPerChannel format) as Hrb.
    { unfold readBack. cbn [bitsPerChannel]. rewrite Hbits. cbn [stored]. f_equal.
      apply Z.mod_small. destruct ty; cbn; lia. }
    assert (wave.channels (readBack format) = Some (Z.of_nat n)) as Hrc.
    { unfold readBack. cbn [wave.channels]. rewrite Hn. cbn [stored]. f_equal.
      apply Z.mod_small. lia. }
    destruct (decodeWav_layout ToNumber fuel blob _ (readBack format)
                (arrayBytes ty typedContent) ty rawMin rawMax n (samples * n)%nat Hback)
      as ((chs' & Hdec' & Hcl' & Hcls' & Hcv') & chs & Hdec & Hcl & Hcls & Hcv);
      try reflexivity; try assumption.
    + rewrite Hrb. exact Hdtype.
    + rewrite length_arrayBytes, Htl. reflexivity.
    + rewrite Nat.div_mul in Hcls, Hcv, Hcls', Hcv' by lia. split.
      * eexists. split; [exact Hdec|]. cbn [wav.data].
        split; [exact Hcl|]. split.
        -- apply Forall_forall. intros channel Hin.
           destruct (In_nth _ _ [] Hin) as (c & Hc & <-). apply Hcls. lia.
        -- intros i c Hi Hc. rewrite (Hcv i c Hi Hc).
           rewrite rawElement_arrayBytes by (rewrite Htl; nia).
           rewrite (Htv i c Hi Hc). reflexivity.
      * eexists. split; [exact Hdec'|]. cbn [wav.data].
        split; [exact Hcl'|]. split.
        -- apply Forall_forall. intros channel Hin.
           destruct (In_nth _ _ [] Hin) as (c & Hc & <-). apply Hcls'. lia.
        -- intros i c Hi Hc. rewrite (Hcv' i c Hi Hc).
           rewrite rawElement_arrayBytes by (rewrite Htl; nia).
           rewrite (Htv i c Hi Hc). reflexivity.
Qed.

(** ** C2 *)


End WavRoundTrip.


(* ===================================================================== *)
(** * The walk of [decodeRiff] ends                                        *)
(* ===================================================================== *)

Section WalkEnds.

Import riff.

Lemma validate_ends (n : nat) :
  forall i fileRiff, validate n i fileRiff <> Hang.
Proof.
  induction n as [|n IH]; intros i fileRiff; cbn [validate]; [discriminate|].
  destruct (nth_error riff i); [|discriminate].
  destruct (nth_error fileRiff i); [|discriminate].
  destruct (negb _); [discriminate|apply IH].
Qed.

Lemma typedView_ends (w : nat) (buf : list byte) : typedView w buf <> Hang.
Proof. unfold typedView. destruct (_ =? _); discriminate. Qed.

Context {T : Type}.
Variable codecs : option (RiffChunkCodecs T).

Hypothesis decoders_end :
  forall i codec payload, lookup codecs i = Some codec -> decode codec payload <> Hang.

(** Every turn of the loop moves the cursor at least 8 bytes on: with
    more fuel than bytes left the walk comes to its end. *)
Lemma walk_ends (fuel : nat) :
  forall contentRaw pointer content unknowns,
    0 <= pointer ->
    (1 <= fuel)%nat ->
    size contentRaw - pointer < Z.of_nat fuel ->
    walk codecs fuel contentRaw pointer content unknowns <> Hang.
Proof.
  induction fuel as [|fuel IH]; intros contentRaw pointer content unknowns Hp Hf Hm; [lia|].
  cbn [walk].
  destruct (pointer <? size contentRaw) eqn:Hlt; [|discriminate].
  apply Z.ltb_lt in Hlt.
  destruct (Uint32Array_view (slice contentRaw (pointer + 4) (pointer + 8))) as [sizes|e|] eqn:Hv;
    cbn [bind]; [|discriminate|destruct (typedView_ends _ _ Hv)].
  destruct (first sizes) as [subchunkSize|] eqn:Hfirst.
  - pose proof (first_view_nonneg _ _ _ _ Hv Hfirst) as Hs.
    destruct (lookup codecs (text (slice contentRaw pointer (pointer + 4)))) as [codec|] eqn:Hl.
    + destruct (decode codec _) as [data|e|] eqn:Hd; cbn [bind];
        [|discriminate|destruct (decoders_end _ _ _ Hl Hd)].
      apply IH; lia.
    + apply IH; lia.
  - destruct (lookup codecs (text (slice contentRaw pointer (pointer + 4)))) as [codec|] eqn:Hl;
      [|discriminate].
    destruct (decode codec _) as [data|e|] eqn:Hd; cbn [bind];
      [discriminate|discriminate|destruct (decoders_end _ _ _ Hl Hd)].
Qed.

(** X1. [decodeRiff] comes to an end on every blob, with a file or with
    an exception, when the decoders of the registry do: the loop over the
    chunks moves its cursor at least 8 bytes on at every turn, whatever
    the length fields hold. *)
Theorem X1_decodeRiff_ends (blob : Blob) (validateHeader : bool) :
  decodeRiff codecs blob validateHeader <> Hang.
Proof.
  unfold decodeRiff.
  destruct (if validateHeader then _ else _) as [[]|e|] eqn:Hval; cbn [bind];
    [|discriminate|].
  2:{ destruct validateHeader; [destruct (validate_ends _ _ _ Hval)|discriminate]. }
  destruct (Uint32Array_view (slice blob 4 8)) as [sizes|e|] eqn:Hv; cbn [bind];
    [|discriminate|destruct (typedView_ends _ _ Hv)].
  match goal with
  | |- bind (walk codecs (S (length ?c)) ?c 0 [] []) _ <> Hang =>
      pose proof (walk_ends (S (length c)) c 0 [] [] ltac:(lia) ltac:(lia)) as Hw;
      destruct (walk codecs (S (length c)) c 0 [] []) as [[content unknowns]|e|]
  end; cbn [bind]; try discriminate.
  exfalso. apply Hw; [|reflexivity]. unfold size. lia.
Qed.

End WalkEnds.

(** The passthrough codec of [data] returns at once: a blob of one [data]
    chunk of two bytes and one chunk without codec is decoded. *)
Lemma X1_decodeRiff_ends_witness :
  riff.decodeRiff (Some dataOnly)
    (riff.riff ++ [x16; x00; x00; x00] ++ [x57; x41; x56; x45]
     ++ [x64; x61; x74; x61; x02; x00; x00; x00; x01; x02]
     ++ [x61; x62; x63; x64; x00; x00; x00; x00]) true
  <> Hang.
Proof.
  apply (X1_decodeRiff_ends (Some dataOnly)).
  intros i codec payload Hl. cbn in Hl. unfold dataOnly in Hl.
  destruct (str_eqb i (lit "data")); [|discriminate].
  injection Hl as <-. cbn. discriminate.
Defined.

(* ===================================================================== *)
(** * Chunks with and without codec                                        *)
(* ===================================================================== *)

Section ChunkDispatch.

Import riff.

Lemma size_container (ty : jsstring) (records : list (jsstring * Blob)) :
  size (container ty records) = 8 + size (utf8_encode ty ++ flat_map recordBytes records).
Proof.
  unfold container. cbv zeta. rewrite (size_app riff), (size_app (Uint32Array_of _)).
  rewrite Uint32Array_of_one. unfold size at 1 2. rewrite length_z2le. cbn [riff length]. lia.
Qed.

Context {T : Type} `{RiffChunk T}.
Variable codecs : option (RiffChunkCodecs T).

Lemma decodeRecords_dispatch (records : list (jsstring * Blob)) :
  forall chunks content unknowns,
    Forall2 (decodes codecs) (filter (hasCodec codecs) records) chunks ->
    decodeRecords codecs records content unknowns
    = Return (content ++ chunks,
              unknowns ++ map asUnknown (filter (noCodec codecs) records)).
Proof.
  induction records as [|[i payload] records IH]; intros chunks content unknowns Hd.
  - cbn in Hd. inversion Hd; subst. cbn. rewrite !app_nil_r. reflexivity.
  - cbn [decodeRecords filter]. unfold noCodec, hasCodec in *. cbn [filter fst snd] in *.
    destruct (lookup codecs i) as [codec|] eqn:Hl; cbn [negb].
    + inversion Hd as [|r chunk rs chunks' (codec' & Hl' & Hdec) Hrest]; subst.
      cbn [fst snd] in Hl', Hdec. rewrite Hl in Hl'. injection Hl' as <-.
      rewrite Hdec. cbn [bind]. rewrite (IH chunks' _ _ Hrest).
      rewrite <- app_assoc. reflexivity.
    + rewrite (IH chunks _ _ Hd). cbn [map]. rewrite <- app_assoc. reflexivity.
Qed.

Lemma decodeRecords_failure (before : list (jsstring * Blob)) :
  forall chunks r after e content unknowns,
    Forall2 (decodes codecs) (filter (hasCodec codecs) before) chunks ->
    (exists codec, lookup codecs (fst r) = Some codec /\ decode codec (snd r) = Throw e) ->
    decodeRecords codecs (before ++ r :: after) content unknowns = Throw e.
Proof.
  induction before as [|[i payload] before IH];
    intros chunks r after e content unknowns Hd (codec & Hl & He).
  - destruct r as [i payload]. cbn [app decodeRecords]. cbn [fst snd] in Hl, He.
    rewrite Hl, He. reflexivity.
  - cbn [app decodeRecords]. unfold hasCodec in Hd. cbn [filter fst] in Hd.
    destruct (lookup codecs i) as [codec'|] eqn:Hl'.
    + inversion Hd as [|r' chunk rs chunks' (codec'' & Hl'' & Hdec) Hrest]; subst.
      cbn [fst snd] in Hl'', Hdec. rewrite Hl' in Hl''. injection Hl'' as <-.
      rewrite Hdec. cbn [bind]. apply (IH chunks'); [exact Hrest|].
      exists codec. split; assumption.
    + apply (IH chunks); [exact Hd|]. exists codec. split; assumption.
Qed.

Lemma decodeRiff_dispatch (ty : jsstring) (records : list (jsstring * Blob))
      (chunks : list T) (validateHeader : bool) :
  tag ty ->
  Forall wellFormed records ->
  size (container ty records) < 2 ^ 32 ->
  Forall2 (decodes codecs) (filter (hasCodec codecs) records) chunks ->
  decodeRiff codecs (container ty records) validateHeader
  = Return {| type := ty;
              content := chunks;
              unknowns := map asUnknown (filter (noCodec codecs) records) |}.
Proof.
  intros Hty Hwf Hsize Hd. rewrite size_container in Hsize. unfold container.
  rewrite decodeRiff_container; try assumption.
  - rewrite (decodeRecords_dispatch records chunks [] [] Hd). reflexivity.
  - lia.
Qed.

(** X2. In a container whose records are well formed (the id a tag, the
    payload as long as its length field tells, no pad byte between the
    records) [decodeRiff] hands every payload whose id has a codec to this
    codec and keeps the chunks in [content], in the order of the file; the
    other records are the [unknowns], in the order of the file, each with
    its id and the bytes of its payload. *)
Theorem X2_decodeRiff_dispatch (ty : jsstring) (records : list (jsstring * Blob))
        (chunks : list T) (validateHeader : bool) :
  tag ty ->
  Forall wellFormed records ->
  size (container ty records) < 2 ^ 32 ->
  Forall2 (decodes codecs) (filter (hasCodec codecs) records) chunks ->
  decodeRiff codecs (container ty records) validateHeader
  = Return {| type := ty;
              content := chunks;
              unknowns := map asUnknown (filter (noCodec codecs) records) |}.
Proof.
  intros Hty Hwf Hsize Hd. rewrite size_container in Hsize. unfold container.
  rewrite decodeRiff_container; try assumption.
  - rewrite (decodeRecords_dispatch records chunks [] [] Hd). reflexivity.
  - lia.
Qed.

(** X3. When the codec of a chunk throws, the codecs of the chunks before
    it having returned, [decodeRiff] throws the same exception: nothing
    of the file is returned. *)
Theorem X3_decodeRiff_codec_failure (ty : jsstring)
        (before : list (jsstring * Blob)) (r : jsstring * Blob)
        (after : list (jsstring * Blob)) (chunks : list T) (e : exn)
        (validateHeader : bool) :
  tag ty ->
  Forall wellFormed (before ++ r :: after) ->
  size (container ty (before ++ r :: after)) < 2 ^ 32 ->
  Forall2 (decodes codecs) (filter (hasCodec codecs) before) chunks ->
  (exists codec, lookup codecs (fst r) = Some codec /\ decode codec (snd r) = Throw e) ->
  decodeRiff codecs (container ty (before ++ r :: after)) validateHeader = Throw e.
Proof.
  intros Hty Hwf Hsize Hd He. rewrite size_container in Hsize. unfold container.
  rewrite decodeRiff_container; try assumption.
  - rewrite (decodeRecords_failure before chunks r after e [] [] Hd He). reflexivity.
  - lia.
Qed.

End ChunkDispatch.

(** A container of one [data] chunk and one chunk without codec, read with
    the registry [dataOnly]. *)
Lemma X2_decodeRiff_dispatch_witness :
  riff.decodeRiff (Some dataOnly)
    (container (lit "WAVE") [(lit "data", [x01; x02]); (lit "abcd", [])]) true
  = Return {| riff.type := lit "WAVE";
              riff.content := [wave.DataChunk {| wave.data := riff.PartBlob [x01; x02] |}];
              riff.unknowns :=
                map asUnknown
                    (filter (noCodec (Some dataOnly))
                            [(lit "data", [x01; x02]); (lit "abcd", [])]) |}.
Proof.
  apply (X2_decodeRiff_dispatch (Some dataOnly) (lit "WAVE")
           [(lit "data", [x01; x02]); (lit "abcd", [])]).
  - split; [reflexivity|]. repeat constructor; cbn; lia.
  - repeat constructor; cbn; lia.
  - vm_compute. reflexivity.
  - cbn. constructor; [|constructor].
    exists wave.data_codec. split; reflexivity.
Defined.

(** A container whose second chunk is a [fmt ] chunk of an unsupported
    format. *)
Lemma X3_decodeRiff_codec_failure_witness :
  riff.decodeRiff (Some (wave.waveCodec 0))
    (container (lit "WAVE") ([(lit "data", [x01])] ++ (lit "fmt ", [x02; x00]) :: [])) true
  = Throw (Error (lit "Unsupported audio data format: 0x02")).
Proof.
  apply (X3_decodeRiff_codec_failure (Some (wave.waveCodec 0)) (lit "WAVE")
           [(lit "data", [x01])] (lit "fmt ", [x02; x00]) []
           [wave.DataChunk {| wave.data := riff.PartBlob [x01] |}]).
  - split; [reflexivity|]. repeat constructor; cbn; lia.
  - repeat constructor; cbn; lia.
  - vm_compute. reflexivity.
  - cbn. constructor; [|constructor].
    exists wave.data_codec. split; reflexivity.
  - exists wave.fmt. split; reflexivity.
Defined.

(* ===================================================================== *)
(** * The bytes [encodeRiff] writes, and reading them back                 *)
(* ===================================================================== *)

Section RiffRoundTrip.

Import riff.

Context {T : Type} `{RiffChunk T}.
Variable codecs : option (RiffChunkCodecs T).

Lemma encodeContent_writes (chunks : list T) :
  forall payloads parts,
    Forall2 (writes codecs) chunks payloads ->
    exists parts',
      encodeContent codecs chunks parts = Return parts'
      /\ newBlob parts'
         = newBlob parts ++ flat_map recordBytes (combine (map id chunks) payloads).
Proof.
  induction chunks as [|chunk chunks IH]; intros payloads parts Hw.
  - inversion Hw; subst. exists parts. split; [reflexivity|]. cbn. rewrite app_nil_r. reflexivity.
  - inversion Hw as [|c bytes cs payloads' (Hlen & codec & Hl & He) Hrest]; subst.
    cbn [encodeContent]. rewrite Hlen. cbn [Nat.eqb negb]. rewrite Hl, He. cbn [bind].
    destruct (IH payloads'
                 (parts ++ [PartString (id chunk);
                            PartBuffer (Uint32Array_of [size bytes]);
                            PartBlob bytes]) Hrest) as (parts' & Hp & Hb).
    exists parts'. split; [exact Hp|]. rewrite Hb, newBlob_app.
    rewrite recordBytes_parts. cbn [map combine flat_map]. rewrite <- app_assoc. reflexivity.
Qed.

Lemma encodeRiff_container (f : RiffFile T) (payloads : list Blob) :
  length (type f) = 4%nat ->
  Forall2 (writes codecs) (content f) payloads ->
  encodeRiff codecs f
  = Return (container (type f) (fileRecords f payloads)).
Proof.
  intros Hty Hw.
  destruct (encodeContent_writes (content f) payloads [PartString (type f)] Hw)
    as (parts & Hp & Hb).
  rewrite (encodeRiff_returns codecs f parts Hty Hp). cbv zeta.
  rewrite newBlob_app, Hb, newBlob_unknownRecords.
  unfold container, fileRecords. cbv zeta. rewrite flat_map_app.
  cbn [newBlob flat_map partBytes]. rewrite app_nil_r, <- app_assoc. reflexivity.
Qed.

Lemma filter_hasCodec_written (chunks : list T) :
  forall payloads,
    Forall2 (writes codecs) chunks payloads ->
    filter (hasCodec codecs) (combine (map id chunks) payloads)
    = combine (map id chunks) payloads
    /\ filter (noCodec codecs) (combine (map id chunks) payloads) = [].
Proof.
  induction chunks as [|chunk chunks IH]; intros payloads Hw.
  - inversion Hw; subst. split; reflexivity.
  - inversion Hw as [|c bytes cs payloads' (_ & codec & Hl & _) Hrest]; subst.
    assert (hasCodec codecs (id chunk, bytes) = true) as Hh
        by (unfold hasCodec; cbn [fst]; rewrite Hl; reflexivity).
    destruct (IH payloads' Hrest) as [Hyes Hno]. unfold noCodec in *.
    cbn [map combine filter]. rewrite Hh, Hyes. cbn [negb]. split; [reflexivity|exact Hno].
Qed.

Lemma filter_hasCodec_unknown (us : list UnknownRiffChunk) :
  Forall (fun u => tag (unknown_id u) /\ lookup codecs (unknown_id u) = None) us ->
  filter (hasCodec codecs) (map (fun u => (unknown_id u, partBytes (data u))) us) = []
  /\ map asUnknown
         (filter (noCodec codecs) (map (fun u => (unknown_id u, partBytes (data u))) us))
     = map asBlob us.
Proof.
  induction 1 as [|u us [_ Hl] _ [IH1 IH2]]; [split; reflexivity|].
  assert (hasCodec codecs (unknown_id u, partBytes (data u)) = false) as Hh
      by (unfold hasCodec; cbn [fst]; rewrite Hl; reflexivity).
  unfold noCodec in *. cbn [map filter]. rewrite Hh. cbn [negb map].
  split; [exact IH1|]. rewrite IH2. reflexivity.
Qed.

Lemma readsBack_payloads (chunks : list T) :
  forall chunks',
    Forall2 (readsBack codecs) chunks chunks' ->
    exists payloads,
      Forall2 (writes codecs) chunks payloads
      /\ Forall2 (decodes codecs) (combine (map id chunks) payloads) chunks'
      /\ Forall (fun r => tag (fst r)) (combine (map id chunks) payloads).
Proof.
  induction chunks as [|chunk chunks IH]; intros chunks' Hr.
  - inversion Hr; subst. exists []. repeat split; constructor.
  - inversion Hr as [|c c' cs cs' (Htag & bytes & Hw & Hd) Hrest]; subst.
    destruct (IH cs' Hrest) as (payloads & Hws & Hds & Htags).
    exists (bytes :: payloads). cbn [map combine].
    repeat split; constructor; assumption.
Qed.

(** X4. The bytes [encodeRiff] writes for a file whose type has four
    characters and whose chunks are taken by their codecs: the header, the
    length of what follows in 32 bits, the type, then the record of every
    chunk of [content] in order (id, length of the bytes of the codec,
    these bytes) and the record of every unknown chunk in order. No pad
    byte follows a record of odd length. *)
Theorem X4_encodeRiff_bytes (f : RiffFile T) (payloads : list Blob) :
  length (type f) = 4%nat ->
  Forall2 (writes codecs) (content f) payloads ->
  encodeRiff codecs f = Return (container (type f) (fileRecords f payloads)).
Proof.
  intros Hty Hw.
  destruct (encodeContent_writes (content f) payloads [PartString (type f)] Hw)
    as (parts & Hp & Hb).
  rewrite (encodeRiff_returns codecs f parts Hty Hp). cbv zeta.
  rewrite newBlob_app, Hb, newBlob_unknownRecords.
  unfold container, fileRecords. cbv zeta. rewrite flat_map_app.
  cbn [newBlob flat_map partBytes]. rewrite app_nil_r, <- app_assoc. reflexivity.
Qed.

(** X5. The round trip of a file through [encodeRiff] and [decodeRiff]
    with the same registry. When the type and the ids are tags, the codec
    of every chunk of [content] reads the bytes it writes back as a chunk,
    and no unknown chunk has an id of the registry, the file is written,
    and as long as it is shorter than [2 ^ 32] bytes it is read back with
    the same type, the chunks the codecs read back, in order, and the
    unknown chunks with their ids and the bytes of their data, in
    order. *)
Theorem X5_riff_round_trip (f : RiffFile T) (chunks' : list T) :
  tag (type f) ->
  Forall2 (readsBack codecs) (content f) chunks' ->
  Forall (fun u => tag (unknown_id u) /\ lookup codecs (unknown_id u) = None) (unknowns f) ->
  exists blob,
    encodeRiff codecs f = Return blob
    /\ (size blob < 2 ^ 32 ->
        forall validateHeader,
          decodeRiff codecs blob validateHeader
          = Return {| type := type f;
                      content := chunks';
                      unknowns := map asBlob (unknowns f) |}).
Proof.
  intros Hty Hr Hu.
  destruct (readsBack_payloads (content f) chunks' Hr) as (payloads & Hw & Hd & Htags).
  eexists. split; [apply (encodeRiff_container f payloads (proj1 Hty) Hw)|].
  intros Hsize validateHeader.
  destruct (filter_hasCodec_written (content f) payloads Hw) as [Hyes Hno].
  destruct (filter_hasCodec_unknown (unknowns f) Hu) as [Hyes' Hno'].
  rewrite (decodeRiff_dispatch codecs (type f) (fileRecords f payloads) chunks').
  - unfold fileRecords. unfold noCodec in *. rewrite filter_app, Hno, map_app. cbn [map app].
    rewrite Hno'. reflexivity.
  - exact Hty.
  - rewrite size_container, size_app in Hsize.
    apply Forall_forall. intros r Hin.
    assert (tag (fst r)) as Htag.
    { unfold fileRecords in Hin. apply in_app_or in Hin. destruct Hin as [Hin|Hin].
      - rewrite Forall_forall in Htags. apply Htags, Hin.
      - apply in_map_iff in Hin. destruct Hin as (u & <- & Hin).
        rewrite Forall_forall in Hu. apply (Hu u Hin). }
    split; [exact Htag|].
    pose proof (size_flat_map_le recordBytes _ r Hin) as Hle.
    rewrite (size_recordBytes r Htag) in Hle.
    pose proof (size_nonneg (utf8_encode (type f))). lia.
  - exact Hsize.
  - unfold fileRecords. rewrite filter_app, Hyes, Hyes', app_nil_r. exact Hd.
Qed.

End RiffRoundTrip.

(** A file with a [data] chunk and an unknown chunk, and the registry
    [dataOnly]. *)
Lemma X4_encodeRiff_bytes_witness :
  riff.encodeRiff (Some dataOnly)
    {| riff.type := lit "WAVE";
       riff.content := [wave.DataChunk {| wave.data := riff.PartBuffer [x01; x02; x03] |}];
       riff.unknowns := [{| riff.unknown_id := lit "abcd";
                            riff.data := riff.PartString (lit "hi") |}] |}
  = Return (container (lit "WAVE")
              (fileRecords
                 {| riff.type := lit "WAVE";
                    riff.content :=
                      [wave.DataChunk {| wave.data := riff.PartBuffer [x01; x02; x03] |}];
                    riff.unknowns := [{| riff.unknown_id := lit "abcd";
                                         riff.data := riff.PartString (lit "hi") |}] |}
                 [[x01; x02; x03]])).
Proof.
  apply (X4_encodeRiff_bytes (Some dataOnly)).
  - reflexivity.
  - constructor; [|constructor].
    split; [reflexivity|]. exists wave.data_codec. split; reflexivity.
Defined.

Lemma X5_riff_round_trip_witness :
  exists blob,
    riff.encodeRiff (Some dataOnly)
      {| riff.type := lit "WAVE";
         riff.content := [wave.DataChunk {| wave.data := riff.PartBuffer [x01; x02; x03] |}];
         riff.unknowns := [{| riff.unknown_id := lit "abcd";
                              riff.data := riff.PartString (lit "hi") |}] |}
    = Return blob
    /\ (size blob < 2 ^ 32 ->
        forall validateHeader,
          riff.decodeRiff (Some dataOnly) blob validateHeader
          = Return {| riff.type := lit "WAVE";
                      riff.content :=
                        [wave.DataChunk {| wave.data := riff.PartBlob [x01; x02; x03] |}];
                      riff.unknowns :=
                        map asBlob [{| riff.unknown_id := lit "abcd";
                                       riff.data := riff.PartString (lit "hi") |}] |}).
Proof.
  apply (X5_riff_round_trip (Some dataOnly)
           {| riff.type := lit "WAVE";
              riff.content := [wave.DataChunk {| wave.data := riff.PartBuffer [x01; x02; x03] |}];
              riff.unknowns := [{| riff.unknown_id := lit "abcd";
                                   riff.data := riff.PartString (lit "hi") |}] |}).
  - split; [reflexivity|]. repeat constructor; cbn; lia.
  - constructor; [|constructor]. split.
    + split; [reflexivity|]. repeat constructor; cbn; lia.
    + exists [x01; x02; x03]. split.
      * split; [reflexivity|]. exists wave.data_codec. split; reflexivity.
      * exists wave.data_codec. split; reflexivity.
  - constructor; [|constructor]. split; [|reflexivity].
    split; [reflexivity|]. repeat constructor; cbn; lia.
Defined.

(* ===================================================================== *)
(** * Blobs shorter than they tell                                         *)
(* ===================================================================== *)

Section ShortBlobs.

Import riff.

Context {T : Type}.
Variable codecs : option (RiffChunkCodecs T).

Lemma slice_short (b : Blob) (stop : Z) : size b <= stop -> slice b 0 stop = b.
Proof.
  intros Hs. rewrite slice_to_end by lia. reflexivity.
Qed.

Lemma slice_beyond (b : Blob) (start stop : Z) :
  size b <= start -> 0 <= stop -> slice b start stop = [].
Proof.
  intros Hs Hstop. pose proof (size_nonneg b). apply slice_empty; lia.
Qed.

Lemma decodeRiff_no_size (blob : Blob) :
  size blob <= 4 ->
  decodeRiff codecs blob false = Return {| type := []; content := []; unknowns := [] |}.
Proof.
  intros Hs. unfold decodeRiff. cbn [bind].
  rewrite (slice_beyond blob 4 8), (slice_beyond blob 8 12) by lia.
  cbn [Uint32Array_view typedView length elements Z.of_nat Z.modulo Z.eqb bind first nth_error].
  change (Uint32Array_view []) with (Return (@nil Z)). cbn [bind first nth_error].
  rewrite (slice_beyond blob 12 0) by lia. reflexivity.
Qed.

(** X6. What [decodeRiff] does with a blob too short for a container. With
    the header validated, a blob shorter than the header is refused. When
    its bytes are those of the header as far as they go, as for the empty
    blob, it is refused with a [TypeError]. Otherwise it is refused at the
    first index [j] where it differs from the header, with the message
    [Invalid RIFF header (expecting file[j] == 0xee, but found 0xff)]:
    the index in decimal, the byte of the header and the byte of the blob
    as two hexadecimal digits each. Without validation a blob of at most
    four bytes is read as a file without type and without chunks; so is
    the header alone with validation. *)
Theorem X6_decodeRiff_short_blob (blob : Blob) :
  (size blob < 4 ->
   (firstn (length blob) riff = blob /\ decodeRiff codecs blob true = Throw TypeError)
   \/ exists (j : nat) (x y : byte),
        nth_error riff j = Some x /\ nth_error blob j = Some y /\ y <> x
        /\ firstn j blob = firstn j riff
        /\ decodeRiff codecs blob true
           = Throw (Error (lit "Invalid RIFF header (expecting file["
                           ++ decimalText (Z.of_nat j)
                           ++ lit "] == 0x" ++ hexText (b2z x)
                           ++ lit ", but found 0x" ++ hexText (b2z y) ++ lit ")")))
  /\ (size blob < 4 -> firstn (length blob) riff = blob ->
      decodeRiff codecs blob true = Throw TypeError)
  /\ (size blob <= 4 ->
      decodeRiff codecs blob false
      = Return {| type := []; content := []; unknowns := [] |})
  /\ decodeRiff codecs riff true = Return {| type := []; content := []; unknowns := [] |}.
Proof.
  assert (forall b, size b < 4 ->
            decodeRiff codecs b true
            = bind (validate (length riff) 0 b) (fun _ => decodeRiff codecs b false)) as Hval.
  { intros b Hb. unfold decodeRiff. rewrite slice_short by (cbn; lia). cbn [bind].
    destruct (validate (length riff) 0 b) as [[]|e|]; reflexivity. }
  split; [|split; [|split]].
  - intros Hs. rewrite (Hval blob Hs). unfold size in Hs.
    destruct blob as [|a [|b [|c [|d rest]]]]; cbn [length] in Hs; try lia;
      cbn [validate riff nth_error length];
      repeat match goal with
             | |- context [negb (b2z ?x =? b2z ?y)] =>
                 let E := fresh "E" in
                 destruct (b2z x =? b2z y) eqn:E; cbn [negb bind];
                 [apply b2z_eqb in E; subst y|]
             end;
      first
        [ left; split; reflexivity
        | right;
          match goal with
          | |- context [headerMessage ?j ?x ?y] =>
              exists j, x, y;
              split; [reflexivity|]; split; [reflexivity|];
              split; [intros ->; rewrite Z.eqb_refl in *; discriminate|];
              split; [reflexivity|];
              rewrite <- headerMessage_text by lia; reflexivity
          end ].
  - intros Hs Hpre. rewrite (Hval blob Hs). unfold size in Hs.
    destruct blob as [|a [|b [|c [|d rest]]]]; cbn [length] in Hs; try lia;
      cbn [firstn riff length] in Hpre; try (injection Hpre; intros; subst); reflexivity.
  - apply decodeRiff_no_size.
  - reflexivity.
Qed.

(** X7. [decodeRiff] does not compare the length the container tells with
    the length of the blob: of two blobs that differ in this field only,
    both telling at least as many bytes as follow it, it makes the same
    file. *)
Theorem X7_decodeRiff_long_size (header rest : Blob) (n m : Z) (validateHeader : bool) :
  length header = 4%nat ->
  size rest <= n < 2 ^ 32 ->
  size rest <= m < 2 ^ 32 ->
  decodeRiff codecs (header ++ Uint32Array_of [n] ++ rest) validateHeader
  = decodeRiff codecs (header ++ Uint32Array_of [m] ++ rest) validateHeader.
Proof.
  intros Hh Hn Hm. pose proof (size_nonneg rest) as Hr.
  assert (forall k, size rest <= k < 2 ^ 32 ->
            decodeRiff codecs (header ++ Uint32Array_of [k] ++ rest) validateHeader
            = (_ <- (if validateHeader
                     then validate (length riff) 0 header
                     else Return tt) ;;
               '(content, unknowns) <- walk codecs (S (length (skipn 4 rest))) (skipn 4 rest) 0 [] [] ;;
               Return {| type := text (slice rest 0 4);
                         content := content; unknowns := unknowns |})) as Hk.
  { intros k Hk. unfold decodeRiff.
    assert (size header = 4) as Hsh by (unfold size; lia).
    assert (size (Uint32Array_of [k]) = 4) as Hsk
        by (rewrite Uint32Array_of_one; unfold size; rewrite length_z2le; reflexivity).
    assert (slice (header ++ Uint32Array_of [k] ++ rest) 0 (size riff) = header) as ->.
    { change (header ++ Uint32Array_of [k] ++ rest)
        with ([] ++ header ++ (Uint32Array_of [k] ++ rest)).
      apply slice_middle; [reflexivity|cbn; lia]. }
    assert (slice (header ++ Uint32Array_of [k] ++ rest) 4 8 = Uint32Array_of [k]) as ->
        by (apply slice_middle; lia).
    rewrite Uint32Array_view_of by lia. cbn [bind first nth_error].
    assert (skipn 8 (header ++ Uint32Array_of [k] ++ rest) = rest) as Hskip.
    { rewrite app_assoc. rewrite skipn_app.
      assert (length (header ++ Uint32Array_of [k]) = 8%nat) as Hl
          by (rewrite length_app; unfold size in Hsk; lia).
      rewrite Hl, Nat.sub_diag, skipn_all2 by lia. reflexivity. }
    assert (forall start stop, 8 <= start -> 8 <= stop ->
              slice (header ++ Uint32Array_of [k] ++ rest) start stop
              = slice rest (start - 8) (stop - 8)) as Hsl.
    { intros start stop Hstart Hstop.
      rewrite !slice_nonneg by lia.
      replace (Z.to_nat start) with (Z.to_nat (start - 8) + 8)%nat by lia.
      rewrite <- skipn_skipn, Hskip. f_equal. lia. }
    rewrite (Hsl 8 12), (Hsl 12 (k + 8)) by lia.
    replace (slice rest (12 - 8) (k + 8 - 8)) with (skipn 4 rest)
      by (symmetry; apply (slice_to_end rest 4); lia).
    reflexivity. }
  rewrite (Hk n Hn), (Hk m Hm). reflexivity.
Qed.

End ShortBlobs.

Lemma X6_decodeRiff_short_blob_witness :
  riff.decodeRiff (T := riff.UnknownRiffChunk) None [x52; x49] true = Throw TypeError
  /\ riff.decodeRiff (T := riff.UnknownRiffChunk) None [x52; x49] false
     = Return {| riff.type := []; riff.content := []; riff.unknowns := [] |}
  /\ riff.decodeRiff (T := riff.UnknownRiffChunk) None [x52; x00] true
     = Throw (Error (lit "Invalid RIFF header (expecting file[1] == 0x49, but found 0x00)")).
Proof.
  pose proof (X6_decodeRiff_short_blob (T := riff.UnknownRiffChunk) None [x52; x49])
    as (_ & Hprefix & Hfalse & _).
  pose proof (X6_decodeRiff_short_blob (T := riff.UnknownRiffChunk) None [x52; x00])
    as (Hshort & _).
  split; [apply Hprefix; [cbn; lia|reflexivity]|].
  split; [apply Hfalse; cbn; lia|].
  destruct Hshort as [[Hpre _]|(j & x & y & Hx & Hy & Hne & _ & Hd)]; [cbn; lia| |].
  - discriminate Hpre.
  - rewrite Hd.
    destruct j as [|[|j]]; cbn in Hx, Hy.
    + injection Hx as <-. injection Hy as <-. exfalso. apply Hne. reflexivity.
    + injection Hx as <-. injection Hy as <-. reflexivity.
    + destruct j; discriminate Hy.
Defined.

(** The container of one unknown chunk of one byte, telling its 13 bytes
    and telling [2 ^ 32 - 1] bytes. *)
Lemma X7_decodeRiff_long_size_witness :
  riff.decodeRiff (T := riff.UnknownRiffChunk) None
    (riff.riff ++ Uint32Array_of [13]
     ++ [x57; x41; x56; x45; x61; x62; x63; x64; x01; x00; x00; x00; xff]) true
  = riff.decodeRiff None
      (riff.riff ++ Uint32Array_of [2 ^ 32 - 1]
       ++ [x57; x41; x56; x45; x61; x62; x63; x64; x01; x00; x00; x00; xff]) true.
Proof.
  apply (X7_decodeRiff_long_size (T := riff.UnknownRiffChunk) None riff.riff
           [x57; x41; x56; x45; x61; x62; x63; x64; x01; x00; x00; x00; xff]
           13 (2 ^ 32 - 1) true).
  - reflexivity.
  - cbn. lia.
  - cbn. lia.
Defined.

(* ===================================================================== *)
(** * The codec of [fmt ]                                                  *)
(* ===================================================================== *)

Section FmtRoundTrip.

Import riff wave.

Lemma readBack_fits (c : WaveFormatChunk) : fits c -> readBack c = c.
Proof.
  destruct c as [a ch sr br ba bits]. unfold fits, field.
  cbn [audioFormat channels sampleRate byteRate blockAlign bitsPerChannel].
  intros ((x1 & -> & H1) & (x2 & -> & H2) & (x3 & -> & H3) & (x4 & -> & H4) & (x5 & -> & H5)).
  unfold readBack. cbn [audioFormat channels sampleRate byteRate blockAlign
                                   bitsPerChannel stored].
  rewrite !Z.mod_small by assumption. reflexivity.
Qed.

(** X8. The round trip of a [fmt ] chunk through its codec. The chunk is
    written in 16 bytes, whatever its fields hold, and read back with
    every field modulo the width of its place (16 bits for [channels],
    [blockAlign] and [bitsPerChannel], 32 bits for [sampleRate] and
    [byteRate]; 0 for a field that is [undefined]): a chunk whose fields
    fit their places is read back as it was. *)
Theorem X8_fmt_round_trip (c : WaveFormatChunk) :
  exists blob,
    encode fmt (FormatChunk c) = Return blob
    /\ size blob = 16
    /\ decode fmt blob = Return (FormatChunk (readBack c))
    /\ (fits c -> decode fmt blob = Return (FormatChunk c)).
Proof.
  destruct (fmt_decode_encode c) as (blob & He & Hs & Hd).
  exists blob. split; [exact He|]. split; [exact Hs|].
  assert (decode fmt blob = Return (FormatChunk (readBack c))) as Hr.
  { cbn [decode fmt]. rewrite Hd. reflexivity. }
  split; [exact Hr|].
  intros Hfits. rewrite Hr, (readBack_fits c Hfits). reflexivity.
Qed.

(** X9. The decoder of [fmt ] reads the first 16 bytes of the chunk and
    nothing else: whatever follows them (the extension of a longer
    chunk) has no effect on the result. *)
Theorem X9_fmt_decode_first_16 (blob : Blob) :
  fmt_decode blob = fmt_decode (firstn 16 blob).
Proof.
  unfold fmt_decode.
  rewrite (slice_firstn blob 16 0 4), (slice_firstn blob 16 4 12),
    (slice_firstn blob 16 12 16) by lia.
  reflexivity.
Qed.

Lemma wholeViews_cases (blob : Blob) :
  4 <= size blob < 16 ->
  exists a b c d rest,
    blob = a :: b :: c :: d :: rest /\ (length rest < 12)%nat.
Proof.
  unfold size. intros Hs.
  destruct blob as [|a [|b [|c [|d rest]]]]; cbn [length] in Hs; try lia.
  exists a, b, c, d, rest. split; [reflexivity|]. cbn [length] in Hs. lia.
Qed.

(** X10. A [fmt ] chunk of a supported format cut short, with 4 to 15
    bytes. The decoder does not tell that the chunk is too short: it
    throws the [RangeError] of a view over a part of an element, or, when
    the chunk has 4, 8, 12 or 14 bytes, returns a chunk whose missing
    fields, [bitsPerChannel] among them, are [undefined]. *)
Theorem X10_fmt_decode_truncated (blob : Blob) :
  4 <= size blob < 16 ->
  le2z (firstn 2 blob) = 1 \/ le2z (firstn 2 blob) = 3 ->
  if wholeViews (size blob)
  then exists c, fmt_decode blob = Return c /\ bitsPerChannel c = None
  else fmt_decode blob = Throw RangeError.
Proof.
  intros Hs Hfmt.
  destruct (wholeViews_cases blob Hs) as (a & b & c & d & rest & -> & Hrest).
  cbn [firstn] in Hfmt.
  assert (forall tl, Uint16Array_view (slice (a :: b :: c :: d :: tl) 0 4)
                     = Return [le2z [a; b]; le2z [c; d]]) as Hhead.
  { intros tl. rewrite slice_prefix by lia. reflexivity. }
  unfold fmt_decode. rewrite Hhead. cbn [bind nth_error].
  assert (exists audio,
             match le2z [a; b] with
             | 1 => Return PCM
             | 3 => Return Floats
             | _ => Throw (Error (lit "Unsupported audio data format: 0x" ++ hex2 (le2z [a; b])))
             end = Return audio) as (audio & ->)
      by (destruct Hfmt as [-> | ->]; eexists; reflexivity).
  cbn [bind]. clear Hfmt Hhead Hs.
  do 12 (destruct rest as [|? rest]; [vm_compute; eauto|]).
  cbn [length] in Hrest. lia.
Qed.

End FmtRoundTrip.

Lemma X8_fmt_round_trip_witness :
  exists blob,
    riff.encode wave.fmt (wave.FormatChunk mono16) = Return blob
    /\ size blob = 16
    /\ riff.decode wave.fmt blob = Return (wave.FormatChunk (readBack mono16))
    /\ riff.decode wave.fmt blob = Return (wave.FormatChunk mono16).
Proof.
  destruct (X8_fmt_round_trip mono16) as (blob & He & Hs & Hd & Hfits).
  exists blob. split; [exact He|]. split; [exact Hs|]. split; [exact Hd|].
  apply Hfits. unfold fits, field. cbn.
  repeat split; eexists; (split; [reflexivity|lia]).
Defined.

(** A [fmt ] chunk of 12 bytes, which stops after the byte rate, and one
    of 13 bytes. *)
Lemma X10_fmt_decode_truncated_witness :
  (exists c,
      wave.fmt_decode [x01; x00; x02; x00; x44; xac; x00; x00; x10; xb1; x02; x00] = Return c
      /\ wave.bitsPerChannel c = None)
  /\ wave.fmt_decode [x01; x00; x02; x00; x44; xac; x00; x00; x10; xb1; x02; x00; x04]
     = Throw RangeError.
Proof.
  split.
  - apply (X10_fmt_decode_truncated
             [x01; x00; x02; x00; x44; xac; x00; x00; x10; xb1; x02; x00]).
    + cbn. lia.
    + left. reflexivity.
  - apply (X10_fmt_decode_truncated
             [x01; x00; x02; x00; x44; xac; x00; x00; x10; xb1; x02; x00; x04]).
    + cbn. lia.
    + left. reflexivity.
Defined.

(* ===================================================================== *)
(** * The codec of [LIST]                                                  *)
(* ===================================================================== *)

Section ListRoundTrip.

Import riff wave.

Lemma set_fresh (e : WaveListEntries) (k v : jsstring) :
  ~ In k (map fst e) -> set e k v = e ++ [(k, Some v)].
Proof.
  induction e as [|[k' v'] e IH]; intros Hk; [reflexivity|].
  cbn [set map fst In app] in *.
  rewrite str_eqb_neq by (intros ->; apply Hk; left; reflexivity).
  rewrite IH by (intros Hin; apply Hk; right; exact Hin). reflexivity.
Qed.

Lemma kept_names (entries : WaveListEntries) (k : jsstring) :
  In k (map fst (kept entries)) -> In k (map fst entries).
Proof.
  induction entries as [|[k' [[|c s]|]] entries IH]; cbn [kept flat_map map fst snd app In];
    intros Hin; try (right; apply IH; exact Hin); [exact Hin|].
  destruct Hin as [<-|Hin]; [left; reflexivity|right; apply IH; exact Hin].
Qed.

Lemma decodedEntries_emitted (entries : WaveListEntries) :
  NoDup (map fst entries) ->
  forall e,
    (forall k, In k (map fst e) -> ~ In k (map fst entries)) ->
    decodedEntries (emitted entries) e = e ++ kept entries.
Proof.
  induction entries as [|[k v] entries IH]; intros Hnd e Hdisj.
  - cbn. rewrite app_nil_r. reflexivity.
  - cbn [map fst] in Hnd. inversion Hnd as [|? ? Hk Hnd']; subst.
    assert (forall k', In k' (map fst e) -> ~ In k' (map fst entries)) as Hdisj'
        by (intros k' Hin Hin'; apply (Hdisj k' Hin); right; exact Hin').
    unfold emitted, kept, decodedEntries in *. cbn [flat_map snd fst].
    destruct v as [[|c s]|]; cbn [app fold_left fst snd];
      try (apply IH; assumption).
    rewrite set_fresh by (intros Hin; apply (Hdisj k Hin); left; reflexivity).
    rewrite IH; [rewrite <- app_assoc; reflexivity|exact Hnd'|].
    intros k' Hin. rewrite map_app in Hin. apply in_app_or in Hin.
    destruct Hin as [Hin|[<-|[]]]; [apply Hdisj'; exact Hin|exact Hk].
Qed.

Lemma kept_ascii (entries : WaveListEntries) :
  Forall (fun entry => asciiValue (snd entry)) entries ->
  kept entries = nonEmptyEntries entries.
Proof.
  induction 1 as [|[k v] entries Hv _ IH]; [reflexivity|].
  unfold kept, nonEmptyEntries in *. cbn [flat_map fst snd] in *. rewrite IH.
  destruct v as [[|c s]|]; try reflexivity.
  cbn [asciiValue] in Hv. rewrite (text_utf8_ascii (c :: s) Hv). reflexivity.
Qed.

Lemma size_listRecords (records : Datatypes.list (jsstring * Datatypes.list byte)) :
  Forall (fun r => tag (fst r)) records ->
  size (flat_map listRecordBytes records) mod 2 = 0.
Proof.
  induction 1 as [|r records Hr _ IH]; [reflexivity|].
  cbn [flat_map]. rewrite size_app, (size_listRecordBytes r Hr).
  unfold roundUpToEven.
  pose proof (size_nonneg (snd r)).
  pose proof (Z.mod_pos_bound (size (snd r) + 1) 2 ltac:(lia)).
  rewrite Z.add_mod, IH, Z.add_0_r, Z.mod_mod by lia.
  replace (8 + (size (snd r) + 1 + (size (snd r) + 1) mod 2))
    with ((size (snd r) + 1 + (size (snd r) + 1) mod 2) + 4 * 2) by lia.
  rewrite Z.mod_add by lia.
  rewrite (Z.div_mod (size (snd r) + 1) 2) at 1 by lia.
  replace (2 * ((size (snd r) + 1) / 2) + (size (snd r) + 1) mod 2 + (size (snd r) + 1) mod 2)
    with (2 * ((size (snd r) + 1) mod 2) + ((size (snd r) + 1) / 2) * 2) by lia.
  rewrite Z.mod_add by lia.
  destruct (Z.eq_dec ((size (snd r) + 1) mod 2) 0) as [->|Hm]; [reflexivity|].
  replace ((size (snd r) + 1) mod 2) with 1 by lia. reflexivity.
Qed.

Lemma list_round_trip (ty : jsstring) (entries : WaveListEntries) (fuel : nat) :
  tag ty ->
  NoDup (map fst entries) ->
  Forall (fun name => arrayIndex name = None) (map fst entries) ->
  Forall (fun r => tag (fst r)) (emitted entries) ->
  (length entries < fuel)%nat ->
  exists payload,
    list_encode ty entries = Return payload
    /\ size payload mod 2 = 0
    /\ (size payload < 2 ^ 31 ->
        list_decode fuel payload = Return {| type := ty; entries := kept entries |}).
Proof.
  intros Hty Hnd Hidx Htags Hfuel.
  exists (utf8_encode ty ++ flat_map listRecordBytes (emitted entries)).
  split; [|split].
  - apply list_encode_spec; try assumption.
    eapply Forall_impl; [|exact Htags]. intros r Hr. apply Hr.
  - rewrite size_app, (size_utf8_tag ty Hty).
    rewrite Z.add_mod, (size_listRecords _ Htags) by lia. reflexivity.
  - intros Hsize. rewrite size_app, (size_utf8_tag ty Hty) in Hsize.
    rewrite list_decode_payload; try assumption.
    + rewrite (decodedEntries_emitted entries Hnd []); [reflexivity|].
      intros k [].
    + apply Forall_forall. intros r Hin.
      rewrite Forall_forall in Htags. split; [apply Htags, Hin|].
      pose proof (size_flat_map_le listRecordBytes _ r Hin) as Hle.
      rewrite (size_listRecordBytes r (Htags r Hin)) in Hle.
      unfold roundUpToEven in Hle.
      pose proof (Z.mod_pos_bound (size (snd r) + 1) 2 ltac:(lia)). lia.
    + assert (length (emitted entries) <= length entries)%nat; [|lia].
      clear. induction entries as [|[k [[|c s]|]] entries IH];
               unfold emitted in *; cbn [flat_map snd fst app length]; lia.
Qed.

(** X11. The round trip of the entries of a [LIST] chunk through its
    codec, for entries with distinct names, none of them an array index,
    those with a value being tags. The encoder writes the entries whose
    value is a non-empty string and leaves the others out, and its bytes
    are even in number. As long as they are fewer than [2 ^ 31], the
    decoder reads the same type and the entries written, in the same
    order, the value of each being the text of its bytes: the value
    itself when it is ASCII. *)
Theorem X11_list_round_trip (ty : jsstring) (entries : WaveListEntries) (fuel : nat) :
  tag ty ->
  NoDup (map fst entries) ->
  Forall (fun name => arrayIndex name = None) (map fst entries) ->
  Forall (fun r => tag (fst r)) (emitted entries) ->
  (length entries < fuel)%nat ->
  exists payload,
    list_encode ty entries = Return payload
    /\ size payload mod 2 = 0
    /\ (size payload < 2 ^ 31 ->
        list_decode fuel payload = Return {| type := ty; entries := kept entries |})
    /\ (Forall (fun entry => asciiValue (snd entry)) entries ->
        kept entries = nonEmptyEntries entries).
Proof.
  intros Hty Hnd Hidx Htags Hfuel.
  destruct (list_round_trip ty entries fuel Hty Hnd Hidx Htags Hfuel)
    as (payload & He & Heven & Hd).
  exists payload. repeat split; try assumption. apply kept_ascii.
Qed.

(** X12. The decoder of [LIST] on a payload of at most four bytes, the
    empty payload among them: there is no entry to read, and the type is
    the text of what is there. *)
Theorem X12_list_decode_no_entry (blob : Blob) (fuel : nat) :
  size blob <= 4 ->
  list_decode (S fuel) blob = Return {| type := text blob; entries := [] |}.
Proof.
  intros Hs. unfold list_decode. cbn [list_decode_loop].
  rewrite slice_short by exact Hs.
  destruct (4 <? size blob) eqn:Hlt; [apply Z.ltb_lt in Hlt; lia|reflexivity].
Qed.

End ListRoundTrip.

(** Three entries: a text, an empty text, which is left out, and an
    entry without value, whose name is no tag. *)
Lemma X11_list_round_trip_witness :
  let entries := [(lit "IART", Some (lit "Nahara")); (lit "ICMT", Some []);
                  (lit "long name", None)] in
  exists payload,
    wave.list_encode (lit "INFO") entries = Return payload
    /\ size payload mod 2 = 0
    /\ (size payload < 2 ^ 31 ->
        wave.list_decode 4 payload
        = Return {| wave.type := lit "INFO"; wave.entries := kept entries |})
    /\ (Forall (fun entry => asciiValue (snd entry)) entries ->
        kept entries = nonEmptyEntries entries).
Proof.
  apply (X11_list_round_trip (lit "INFO")
           [(lit "IART", Some (lit "Nahara")); (lit "ICMT", Some []);
            (lit "long name", None)] 4).
  - split; [reflexivity|]. repeat constructor; cbn; lia.
  - repeat constructor; cbn; intuition discriminate.
  - repeat constructor.
  - repeat constructor; cbn; lia.
  - cbn. lia.
Defined.

Lemma X12_list_decode_no_entry_witness :
  wave.list_decode 1 [x49; x4e; x46; x4f]
  = Return {| wave.type := text [x49; x4e; x46; x4f]; wave.entries := [] |}.
Proof.
  apply (X12_list_decode_no_entry [x49; x4e; x46; x4f] 0). cbn. lia.
Defined.

(* ===================================================================== *)
(** * The file of [encodeWav], read by [decodeWav]                         *)
(* ===================================================================== *)

Section WavFiles.

Import riff wave number wav.

Variable ToNumber : jsstring -> number.
Variable NumberToString : number -> jsstring.

Lemma length_infoEntriesOf (i : TrackInfo) :
  (length (infoEntriesOf NumberToString i) <= 7)%nat.
Proof.
  unfold infoEntriesOf. cbv beta zeta.
  do 2 apply length_put. apply length_put_number. do 4 apply length_put.
  cbn [length]. lia.
Qed.

(** The payload of the [LIST] chunk of the track information. *)
Lemma info_round_trip (fuel : nat) (i : TrackInfo) :
  (8 <= fuel)%nat ->
  exists payload,
    list_encode (lit "INFO") (infoEntriesOf NumberToString i) = Return payload
    /\ (size payload < 2 ^ 31 ->
        list_decode fuel payload
        = Return {| wave.type := lit "INFO";
                    entries := kept (infoEntriesOf NumberToString i) |}).
Proof.
  intros Hfuel.
  destruct (infoEntriesOf_ok NumberToString i) as [Hnd Hkeys].
  destruct (list_round_trip (lit "INFO") (infoEntriesOf NumberToString i) fuel)
    as (payload & He & _ & Hd).
  - exact tag_INFO.
  - exact Hnd.
  - eapply Forall_impl; [|exact Hkeys]. intros k Hk. apply Hk.
  - apply Forall_forall. intros r Hr. apply emitted_names in Hr.
    rewrite Forall_forall in Hkeys. apply (Hkeys _ Hr).
  - pose proof (length_infoEntriesOf i). lia.
  - exists payload. split; assumption.
Qed.

Lemma combine_tags (chunks : Datatypes.list WaveRiffChunk) :
  Forall (fun c => tag (id c)) chunks ->
  forall payloads : Datatypes.list Blob,
    Forall (fun r => tag (fst r)) (combine (map id chunks) payloads).
Proof.
  induction 1 as [|c chunks Hc _ IH]; intros payloads; [constructor|].
  destruct payloads as [|payload payloads]; cbn [map combine]; constructor;
    [exact Hc|apply IH].
Qed.

Lemma combine_payload (codecs : option (RiffChunkCodecs WaveRiffChunk))
      (chunks : Datatypes.list WaveRiffChunk) (payloads : Datatypes.list Blob) :
  Forall2 (writes codecs) chunks payloads ->
  forall payload, In payload payloads ->
                  exists i, In (i, payload) (combine (map id chunks) payloads).
Proof.
  induction 1 as [|c bytes chunks payloads _ _ IH]; intros payload Hin; [destruct Hin|].
  destruct Hin as [<-|Hin].
  - exists (id c). left. reflexivity.
  - destruct (IH payload Hin) as (i & Hi). exists i. right. exact Hi.
Qed.

(** The payloads of the chunks of the file. *)
Lemma wave_payloads (fuel : nat) (format : WaveFormatChunk) (bytes : Blob)
      (info : option TrackInfo) :
  (8 <= fuel)%nat ->
  exists fmtBytes payloads,
    encode fmt (FormatChunk format) = Return fmtBytes
    /\ size fmtBytes = 16
    /\ Forall2 (writes (Some (waveCodec fuel)))
               (content (waveContainer NumberToString format (PartBlob bytes) info))
               ([fmtBytes; bytes] ++ payloads)
    /\ ((forall payload, In payload payloads -> size payload < 2 ^ 31) ->
        Forall2 (decodes (Some (waveCodec fuel)))
                (combine
                   (map id (content (waveContainer NumberToString format (PartBlob bytes) info)))
                   ([fmtBytes; bytes] ++ payloads))
                (chunksBack NumberToString format bytes info)).
Proof.
  intros Hfuel.
  destruct (fmt_decode_encode format) as (fmtBytes & Hfe & Hfs & Hfd).
  assert (writes (Some (waveCodec fuel)) (FormatChunk format) fmtBytes) as Hwf
      by (split; [reflexivity|]; exists fmt; split; [reflexivity|exact Hfe]).
  assert (writes (Some (waveCodec fuel)) (DataChunk {| wave.data := PartBlob bytes |}) bytes)
    as Hwd by (split; [reflexivity|]; exists data_codec; split; reflexivity).
  assert (decodes (Some (waveCodec fuel)) (lit "fmt ", fmtBytes) (FormatChunk (readBack format)))
    as Hdf.
  { exists fmt. split; [reflexivity|]. cbn [snd decode fmt]. rewrite Hfd. reflexivity. }
  assert (decodes (Some (waveCodec fuel)) (lit "data", bytes)
                  (DataChunk {| wave.data := PartBlob bytes |})) as Hdd
      by (exists data_codec; split; reflexivity).
  exists fmtBytes.
  destruct info as [i|]; cbn [waveContainer content chunksBack app map combine].
  - destruct (info_round_trip fuel i Hfuel) as (payload & He & Hd).
    exists [payload]. split; [exact Hfe|]. split; [exact Hfs|]. split.
    + constructor; [exact Hwf|]. constructor; [exact Hwd|]. constructor; [|constructor].
      split; [reflexivity|]. exists (list fuel). split; [reflexivity|exact He].
    + intros Hsmall.
      constructor; [exact Hdf|]. constructor; [exact Hdd|]. constructor; [|constructor].
      exists (list fuel). split; [reflexivity|]. cbn [snd decode list].
      rewrite (Hd (Hsmall payload (or_introl eq_refl))). reflexivity.
  - exists []. split; [exact Hfe|]. split; [exact Hfs|]. split.
    + constructor; [exact Hwf|]. constructor; [exact Hwd|]. constructor.
    + intros _. constructor; [exact Hdf|]. constructor; [exact Hdd|]. constructor.
Qed.

Lemma wave_file_read_back (fuel : nat) (format : WaveFormatChunk) (bytes : Blob)
      (info : option TrackInfo) :
  (8 <= fuel)%nat ->
  exists blob,
    encodeRiff (Some (waveCodec fuel))
               (waveContainer NumberToString format (PartBlob bytes) info)
    = Return blob
    /\ (size blob < 2 ^ 31 ->
        decodeRiff (Some (waveCodec fuel)) blob true
        = Return {| riff.type := lit "WAVE";
                    content := chunksBack NumberToString format bytes info;
                    unknowns := [] |}).
Proof.
  intros Hfuel.
  destruct (wave_payloads fuel format bytes info Hfuel)
    as (fmtBytes & payloads & Hfe & Hfs & Hw & Hd).
  set (f := waveContainer NumberToString format (PartBlob bytes) info) in *.
  eexists. split; [apply (encodeRiff_container _ f _ eq_refl Hw)|].
  intros Hsize.
  assert (fileRecords f ([fmtBytes; bytes] ++ payloads)
          = combine (map id (content f)) ([fmtBytes; bytes] ++ payloads)) as Hrecords
      by (unfold fileRecords; cbn [unknowns f waveContainer map]; apply app_nil_r).
  rewrite Hrecords in *.
  set (records := combine (map id (content f)) ([fmtBytes; bytes] ++ payloads)) in *.
  destruct (filter_hasCodec_written _ (content f) _ Hw) as [Hyes Hno].
  fold records in Hyes, Hno.
  assert (Forall (fun r => tag (fst r)) records) as Htags.
  { unfold records. apply combine_tags. unfold f.
    destruct info; cbn [waveContainer content app];
      repeat (constructor; [first [exact tag_fmt | exact tag_data | exact tag_LIST]|]);
      constructor. }
  rewrite size_container, size_app in Hsize.
  pose proof (size_nonneg (utf8_encode (lit "WAVE"))) as Hty.
  assert (forall r, In r records -> size (snd r) < 2 ^ 31) as Hsmall.
  { intros r Hin. pose proof (size_flat_map_le recordBytes _ r Hin) as Hle.
    rewrite Forall_forall in Htags.
    rewrite (size_recordBytes r (Htags r Hin)) in Hle. cbn [riff.type f waveContainer] in Hsize.
    lia. }
  rewrite (decodeRiff_dispatch (Some (waveCodec fuel)) (lit "WAVE") records
             (chunksBack NumberToString format bytes info)).
  - rewrite Hno. reflexivity.
  - exact tag_WAVE.
  - apply Forall_forall. intros r Hin. rewrite Forall_forall in Htags.
    split; [apply Htags, Hin|]. pose proof (Hsmall r Hin). lia.
  - rewrite size_container, size_app. cbn [riff.type f waveContainer] in Hsize. lia.
  - rewrite Hyes. apply Hd. intros payload Hin.
    destruct (combine_payload _ _ _ Hw payload (in_or_app _ _ _ (or_intror Hin)))
      as (i & Hin').
    apply (Hsmall (i, payload) Hin').
Qed.

End WavFiles.

Section WavBytes.

Import riff wave number wav.

Variable ToNumber : jsstring -> number.
Variable NumberToString : number -> jsstring.

Lemma length_canonicalHeader (format : WaveFormatChunk) (n : Z) :
  length (canonicalHeader format n) = 44%nat.
Proof.
  unfold canonicalHeader. rewrite !length_app, !length_z2le. reflexivity.
Qed.

Lemma container_canonical (format : WaveFormatChunk) (fmtBytes data : Blob) :
  encode fmt (FormatChunk format) = Return fmtBytes ->
  container (lit "WAVE") [(lit "fmt ", fmtBytes); (lit "data", data)]
  = canonicalHeader format (size data) ++ data.
Proof.
  cbn [encode fmt]. unfold fmt_encode. intros Hf. injection Hf as <-.
  unfold container, canonicalHeader. cbv zeta.
  cbn [flat_map recordBytes fst snd newBlob partBytes Uint16Array_of Uint32Array_of stored].
  rewrite !app_nil_r. rewrite <- !app_assoc.
  do 3 f_equal.
  rewrite !size_app, (size_utf8_tag _ tag_WAVE).
  rewrite (size_recordBytes (lit "fmt ", _) tag_fmt), (size_recordBytes (lit "data", data) tag_data).
  cbn [snd]. unfold size at 1. cbn [length]. lia.
Qed.

Lemma encodeWav_raw_buffer (fuel : nat) (format : WaveFormatChunk) (info : option TrackInfo)
      (bytes : Datatypes.list byte) :
  encodeWav NumberToString fuel raw_buffer
            {| wav.format := format; wav.info := info; wav.data := bytes |}
  = encodeRiff (Some (waveCodec fuel))
               (waveContainer NumberToString format (PartBlob bytes) info).
Proof.
  unfold encodeWav, waveContainer.
  cbn [wav.format wav.info wav.data bind newBlob flat_map partBytes].
  rewrite app_nil_r. destruct info; reflexivity.
Qed.

Lemma encodeWav_raw_blob (fuel : nat) (format : WaveFormatChunk) (info : option TrackInfo)
      (data : BlobPart) :
  encodeWav NumberToString fuel raw_blob
            {| wav.format := format; wav.info := info; wav.data := data |}
  = encodeRiff (Some (waveCodec fuel)) (waveContainer NumberToString format data info).
Proof.
  unfold encodeWav, waveContainer. cbn [wav.format wav.info wav.data bind].
  destruct info; reflexivity.
Qed.

Lemma findInfo_chunksBack (format : WaveFormatChunk) (bytes : Blob) (info : option TrackInfo) :
  findFormat (chunksBack NumberToString format bytes info) = Some (readBack format)
  /\ findData (chunksBack NumberToString format bytes info)
     = Some {| wave.data := PartBlob bytes |}
  /\ findInfo (chunksBack NumberToString format bytes info) = listBack NumberToString info.
Proof.
  destruct info; repeat split; reflexivity.
Qed.

(** X13. The file [encodeWav] writes in the raw modes for audio without
    track information: the 44 bytes of the canonical header (the header
    of the container with the length 36 plus that of the data, the type
    [WAVE], the [fmt ] chunk of 16 bytes with the six fields, the id
    [data] and the length of the data), and then the data as they were
    given. Nothing of the format is checked in these modes. *)
Theorem X13_encodeWav_canonical_header (fuel : nat) (format : WaveFormatChunk)
        (bytes : Datatypes.list byte) :
  encodeWav NumberToString fuel raw_buffer
            {| wav.format := format; wav.info := None; wav.data := bytes |}
  = Return (canonicalHeader format (size bytes) ++ bytes)
  /\ encodeWav NumberToString fuel raw_blob
               {| wav.format := format; wav.info := None; wav.data := PartBlob bytes |}
     = Return (canonicalHeader format (size bytes) ++ bytes)
  /\ length (canonicalHeader format (size bytes)) = 44%nat.
Proof.
  assert (encodeRiff (Some (waveCodec fuel))
                     (waveContainer NumberToString format (PartBlob bytes) None)
          = Return (canonicalHeader format (size bytes) ++ bytes)) as Hfile.
  { destruct (fmt_decode_encode format) as (fmtBytes & Hfe & _ & _).
    rewrite (encodeRiff_container (Some (waveCodec fuel))
               (waveContainer NumberToString format (PartBlob bytes) None)
               [fmtBytes; bytes] eq_refl).
    - f_equal. exact (container_canonical format fmtBytes bytes Hfe).
    - constructor; [|constructor; [|constructor]].
      + split; [reflexivity|]. exists fmt. split; [reflexivity|exact Hfe].
      + split; [reflexivity|]. exists data_codec. split; reflexivity. }
  split; [rewrite encodeWav_raw_buffer; exact Hfile|].
  split; [rewrite encodeWav_raw_blob; exact Hfile|].
  apply length_canonicalHeader.
Qed.

(** X14. The round trip of a file through [encodeWav] and [decodeWav] in
    the raw modes. The file is written whatever the format and the track
    information hold; as long as it is shorter than [2 ^ 31] bytes,
    [decodeWav] gives the format back with every field modulo the width of
    its place, and the data byte for byte, as an [ArrayBuffer] in the mode
    [raw-buffer] and as a [Blob] in the mode [raw-blob]; without track
    information in the audio there is none in the result. *)
Theorem X14_raw_round_trip (fuel : nat) (format : WaveFormatChunk) (info : option TrackInfo)
        (bytes : Datatypes.list byte) :
  (8 <= fuel)%nat ->
  exists blob,
    encodeWav NumberToString fuel raw_buffer
              {| wav.format := format; wav.info := info; wav.data := bytes |}
    = Return blob
    /\ (size blob < 2 ^ 31 ->
        exists info',
          decodeWav ToNumber fuel blob raw_buffer
          = Return {| wav.format := readBack format; wav.info := info'; wav.data := bytes |}
          /\ decodeWav ToNumber fuel blob raw_blob
             = Return {| wav.format := readBack format; wav.info := info';
                         wav.data := PartBlob bytes |}
          /\ (info = None -> info' = None)).
Proof.
  intros Hfuel.
  destruct (wave_file_read_back NumberToString fuel format bytes info Hfuel)
    as (blob & He & Hd).
  exists blob. split; [rewrite encodeWav_raw_buffer; exact He|].
  intros Hsize. specialize (Hd Hsize).
  destruct (findInfo_chunksBack format bytes info) as (Hf & Hda & Hi).
  exists (trackInfo ToNumber (listBack NumberToString info)).
  unfold decodeWav. rewrite Hd. cbn [bind content]. rewrite Hf, Hda, Hi.
  cbn [bind wave.data bufferOf].
  split; [reflexivity|]. split; [reflexivity|].
  intros ->. reflexivity.
Qed.

End WavBytes.

(* ===================================================================== *)
(** * The widths of the fields of the file                                 *)
(* ===================================================================== *)

Section Limits.

Import riff wave number wav.

Variable ToNumber : jsstring -> number.
Variable NumberToString : number -> jsstring.




End Limits.



(** One byte of data in a file of one channel of 16-bit PCM. *)
Lemma X14_raw_round_trip_witness :
  exists blob,
    wav.encodeWav noString 8 wav.raw_buffer
      {| wav.format := mono16; wav.info := None; wav.data := [x01] |}
    = Return blob
    /\ (size blob < 2 ^ 31 ->
        exists info',
          wav.decodeWav noNumber 8 blob wav.raw_buffer
          = Return {| wav.format := readBack mono16; wav.info := info'; wav.data := [x01] |}
          /\ wav.decodeWav noNumber 8 blob wav.raw_blob
             = Return {| wav.format := readBack mono16; wav.info := info';
                         wav.data := riff.PartBlob [x01] |}
          /\ (@None wav.TrackInfo = None -> info' = None)).
Proof.
  apply (X14_raw_round_trip noNumber noString 8 mono16 None [x01]). lia.
Defined.

(* ===================================================================== *)
(** * The track information                                                *)
(* ===================================================================== *)

Section TrackInformation.

Import riff wave number wav.

Variable ToNumber : jsstring -> number.
Variable NumberToString : number -> jsstring.

Lemma get_set_same (e : WaveListEntries) (k v : jsstring) : get (set e k v) k = Some v.
Proof.
  induction e as [|[k' v'] e IH]; cbn [set get].
  - rewrite str_eqb_refl. reflexivity.
  - destruct (str_eqb k' k) eqn:Hk; cbn [get]; rewrite Hk; [reflexivity|exact IH].
Qed.

Lemma get_set_other (e : WaveListEntries) (k k' v : jsstring) :
  str_eqb k k' = false -> get (set e k v) k' = get e k'.
Proof.
  intros Hkk'. induction e as [|[k0 v0] e IH]; cbn [set get].
  - rewrite Hkk'. reflexivity.
  - destruct (str_eqb k0 k) eqn:Hk; cbn [get].
    + apply str_eqb_eq in Hk. subst k0. rewrite Hkk'. reflexivity.
    + rewrite IH. reflexivity.
Qed.

Lemma get_put (e : WaveListEntries) (k k' : jsstring) (v : option jsstring) :
  get (match v with
       | Some (c :: s) => set e k (c :: s)
       | _ => e
       end) k'
  = if str_eqb k k'
    then match nonEmpty v with
         | Some x => Some x
         | None => get e k'
         end
    else get e k'.
Proof.
  destruct (str_eqb k k') eqn:Hk.
  - apply str_eqb_eq in Hk. subst k'.
    destruct v as [[|c s]|]; cbn [nonEmpty]; try reflexivity. apply get_set_same.
  - destruct v as [[|c s]|]; try reflexivity. apply get_set_other. exact Hk.
Qed.

Lemma get_put_number (e : WaveListEntries) (k k' : jsstring) (v : option number) :
  get (match v with
       | Some n => set e k (NumberToString n)
       | None => e
       end) k'
  = if str_eqb k k'
    then match v with
         | Some n => Some (NumberToString n)
         | None => get e k'
         end
    else get e k'.
Proof.
  destruct (str_eqb k k') eqn:Hk.
  - apply str_eqb_eq in Hk. subst k'. destruct v; [apply get_set_same|reflexivity].
  - destruct v; [apply get_set_other; exact Hk|reflexivity].
Qed.

Lemma get_absent (e : WaveListEntries) (k : jsstring) :
  ~ In k (map fst e) -> get e k = None.
Proof.
  induction e as [|[k' v'] e IH]; intros Hk; [reflexivity|].
  cbn [get map fst In] in *.
  rewrite str_eqb_neq by (intros ->; apply Hk; left; reflexivity).
  apply IH. intros Hin. apply Hk. right. exact Hin.
Qed.

Lemma get_kept (e : WaveListEntries) (k : jsstring) :
  NoDup (map fst e) ->
  get (kept e) k
  = match get e k with
    | Some (c :: s) => Some (text (utf8_encode (c :: s)))
    | _ => None
    end.
Proof.
  induction e as [|[k' v'] e IH]; intros Hnd; [reflexivity|].
  cbn [map fst] in Hnd. inversion Hnd as [|? ? Hk' Hnd']; subst.
  unfold kept in *. cbn [flat_map fst snd get].
  destruct (str_eqb k' k) eqn:Hk.
  - apply str_eqb_eq in Hk. subst k'.
    destruct v' as [[|c s]|]; cbn [app get]; try rewrite str_eqb_refl; try reflexivity;
      apply get_absent; intros Hin; apply Hk'; apply kept_names; exact Hin.
  - destruct v' as [[|c s]|]; cbn [app get]; try rewrite Hk; apply IH; exact Hnd'.
Qed.

(** The fields of the track information in the entries [encodeWav] makes
    of it. *)
Lemma get_infoEntriesOf (i : TrackInfo) :
  let e := infoEntriesOf NumberToString i in
  get e (lit "ICMT") = nonEmpty (comment i)
  /\ get e (lit "IART") = nonEmpty (artist i)
  /\ get e (lit "INAM") = nonEmpty (trackName i)
  /\ get e (lit "IPRD") = nonEmpty (albumName i)
  /\ get e (lit "IPRT") = option_map NumberToString (albumTrackId i)
  /\ get e (lit "ICRD") = nonEmpty (copyrightDate i)
  /\ get e (lit "ISFT") = nonEmpty (software i).
Proof.
  cbv zeta. unfold infoEntriesOf. cbv beta zeta.
  repeat split;
    repeat (first [rewrite get_put | rewrite get_put_number];
            match goal with
            | |- context [str_eqb (lit ?a) (lit ?b)] =>
                let v := eval vm_compute in (str_eqb (lit a) (lit b)) in
                change (str_eqb (lit a) (lit b)) with v
            end; cbv iota);
    cbn [get];
    repeat match goal with
           | |- context [nonEmpty ?v] => destruct v as [[|? ?]|]; cbn [nonEmpty]
           | |- context [option_map _ ?v] => destruct v; cbn [option_map]
           end; reflexivity.
Qed.

Lemma truthy_kept (e : WaveListEntries) (name : string) (v : option jsstring) :
  NoDup (map fst e) ->
  get e (lit name) = v ->
  asciiValue v ->
  truthy (kept e) name = nonEmpty v.
Proof.
  intros Hnd Hget Hv. unfold truthy. rewrite (get_kept e (lit name) Hnd), Hget.
  destruct v as [[|c s]|]; try reflexivity.
  cbn [asciiValue] in Hv. rewrite (text_utf8_ascii (c :: s) Hv). reflexivity.
Qed.

Lemma asciiValue_nonEmpty (v : option jsstring) : asciiValue v -> asciiValue (nonEmpty v).
Proof. destruct v as [[|c s]|]; cbn; auto. Qed.

Lemma nonEmpty_nonEmpty (v : option jsstring) : nonEmpty (nonEmpty v) = nonEmpty v.
Proof. destruct v as [[|c s]|]; reflexivity. Qed.

Lemma trackInfo_kept (i : TrackInfo) :
  asciiInfo NumberToString i ->
  trackInfo ToNumber (listBack NumberToString (Some i))
  = Some (infoBack ToNumber NumberToString i).
Proof.
  intros (Hc & Ha & Hd & Ht & Hal & Hs & Hn).
  destruct (infoEntriesOf_ok NumberToString i) as [Hnd _].
  destruct (get_infoEntriesOf i) as (G1 & G2 & G3 & G4 & G5 & G6 & G7).
  unfold trackInfo, listBack, infoBack. cbn [entries]. f_equal.
  rewrite (truthy_kept _ "ICMT" _ Hnd G1 (asciiValue_nonEmpty _ Hc)).
  rewrite (truthy_kept _ "IART" _ Hnd G2 (asciiValue_nonEmpty _ Ha)).
  rewrite (truthy_kept _ "INAM" _ Hnd G3 (asciiValue_nonEmpty _ Ht)).
  rewrite (truthy_kept _ "IPRD" _ Hnd G4 (asciiValue_nonEmpty _ Hal)).
  rewrite (truthy_kept _ "ICRD" _ Hnd G6 (asciiValue_nonEmpty _ Hd)).
  rewrite (truthy_kept _ "ISFT" _ Hnd G7 (asciiValue_nonEmpty _ Hs)).
  rewrite !nonEmpty_nonEmpty.
  assert (truthy (kept (infoEntriesOf NumberToString i)) "IPRT"
          = option_map NumberToString (albumTrackId i)) as ->.
  { destruct (albumTrackId i) as [n|] eqn:Hid; cbn [option_map] in *.
    - destruct (Hn n eq_refl) as [Hascii Hne].
      rewrite (truthy_kept _ "IPRT" _ Hnd G5 Hascii).
      destruct (NumberToString n); [contradiction|reflexivity].
    - rewrite (truthy_kept _ "IPRT" _ Hnd G5 I). reflexivity. }
  destruct (albumTrackId i); reflexivity.
Qed.

(** X15. The round trip of the track information through [encodeWav] and
    [decodeWav], for texts that are ASCII. Every text that is not empty
    comes back as it was, and an empty text comes back as a field that is
    not there; the track number comes back as the number the platform
    reads from the string it wrote for it. *)
Theorem X15_info_round_trip (fuel : nat) (format : WaveFormatChunk) (i : TrackInfo)
        (bytes : Datatypes.list byte) :
  (8 <= fuel)%nat ->
  asciiInfo NumberToString i ->
  exists blob,
    encodeWav NumberToString fuel raw_buffer
              {| wav.format := format; wav.info := Some i; wav.data := bytes |}
    = Return blob
    /\ (size blob < 2 ^ 31 ->
        exists w,
          decodeWav ToNumber fuel blob raw_buffer = Return w
          /\ wav.info w = Some (infoBack ToNumber NumberToString i)).
Proof.
  intros Hfuel Hascii.
  destruct (wave_file_read_back NumberToString fuel format bytes (Some i) Hfuel)
    as (blob & He & Hd).
  exists blob. split; [rewrite encodeWav_raw_buffer; exact He|].
  intros Hsize. specialize (Hd Hsize).
  destruct (findInfo_chunksBack NumberToString format bytes (Some i)) as (Hf & Hda & Hi).
  eexists. split.
  - unfold decodeWav. rewrite Hd. cbn [bind content]. rewrite Hf, Hda, Hi.
    cbn [bind wave.data bufferOf]. reflexivity.
  - cbn [wav.info]. apply trackInfo_kept. exact Hascii.
Qed.

End TrackInformation.

(** Track information with an artist, an empty comment and a track
    number. *)
Lemma X15_info_round_trip_witness :
  let i := {| wav.comment := Some [];
              wav.artist := Some (lit "Nahara");
              wav.copyrightDate := None;
              wav.trackName := None;
              wav.albumName := None;
              wav.albumTrackId := Some (number.ofZ 0);
              wav.software := Some (lit "Nahara's WAV Encoder") |} in
  exists blob,
    wav.encodeWav noString 8 wav.raw_buffer
      {| wav.format := mono16; wav.info := Some i; wav.data := [x01] |}
    = Return blob
    /\ (size blob < 2 ^ 31 ->
        exists w,
          wav.decodeWav noNumber 8 blob wav.raw_buffer = Return w
          /\ wav.info w = Some (infoBack noNumber noString i)).
Proof.
  apply (X15_info_round_trip noNumber noString 8 mono16).
  - lia.
  - unfold asciiInfo. cbn [wav.comment wav.artist wav.copyrightDate wav.trackName
                            wav.albumName wav.software wav.albumTrackId asciiValue].
    repeat split; try (repeat constructor; cbn; lia).
    discriminate.
Defined.

(* ===================================================================== *)
(** * Channels of samples in the format of the file                        *)
(* ===================================================================== *)

Section ChannelsFmt.

Import riff wave number wav.

Variable ToNumber : jsstring -> number.
Variable NumberToString : number -> jsstring.


Lemma dtypes_readBack (format : WaveFormatChunk) (entry : DtypeEntry) :
  dtypes (audioFormat format) (bitsPerChannel format) = Some entry ->
  dtypes (audioFormat (readBack format)) (bitsPerChannel (readBack format)) = Some entry.
Proof.
  intros Hd. pose proof (dtypes_bits _ _ _ Hd) as Hbits.
  unfold readBack. cbn [audioFormat bitsPerChannel]. rewrite <- Hd, Hbits. cbn [stored].
  do 2 f_equal. apply Z.mod_small. destruct (fst (fst entry)); cbn; lia.
Qed.



End ChannelsFmt.


(* ===================================================================== *)
(** * What the channel modes refuse                                        *)
(* ===================================================================== *)

Section Refusals.

Import riff wave number wav.

Variable ToNumber : jsstring -> number.
Variable NumberToString : number -> jsstring.

Lemma for_throws {S : Type} (body : nat -> S -> result S) (e : exn) (k : nat) :
  (forall s, body k s = Throw e) ->
  forall n j s,
    (j <= k < j + n)%nat ->
    (forall c s, (j <= c < k)%nat -> exists s', body c s = Return s') ->
    for_ n j body s = Throw e.
Proof.
  intros Hk. induction n as [|n IH]; intros j s Hj Hbefore; [lia|].
  cbn [for_].
  destruct (Nat.eq_dec j k) as [->|Hne].
  - rewrite Hk. reflexivity.
  - destruct (Hbefore j s ltac:(lia)) as (s' & ->). cbn [bind].
    apply IH; [lia|]. intros c s0 Hc. apply Hbefore. lia.
Qed.

Lemma interleave_missing_channel (ty : ArrayType) (convert : number -> number)
      (format : WaveFormatChunk) (channels : Datatypes.list (Datatypes.list number))
      (n : nat) :
  wave.channels format = Some (Z.of_nat n) ->
  (length channels < n)%nat ->
  channels = [] \/ (0 < length (nth 0 channels []))%nat ->
  interleave ty convert format channels = Throw TypeError.
Proof.
  intros Hn Hlen Hsamples. unfold interleave.
  destruct channels as [|first rest] eqn:Hch; [reflexivity|].
  destruct Hsamples as [Hnil|Hsamples]; [discriminate|]. cbn [nth] in Hsamples.
  rewrite Hn. rewrite <- Hch in *.
  destruct (Z.of_nat (length first) * Z.of_nat n <? 0) eqn:Hneg;
    [apply Z.ltb_lt in Hneg; lia|].
  rewrite Nat2Z.id.
  destruct (length first) as [|samples]; [lia|].
  cbn [for_].
  rewrite (for_throws _ TypeError (length channels)); [reflexivity| | lia |].
  - intros s. rewrite (proj2 (nth_error_None channels (length channels))) by lia.
    reflexivity.
  - intros c s Hc.
    destruct (nth_error channels c) as [channel|] eqn:Hnth; [eexists; reflexivity|].
    apply nth_error_None in Hnth. lia.
Qed.

(** X17. [encodeWav] in the channel modes with fewer channel arrays than
    the format tells channels. With no array at all, or with at least one
    sample in the first array, it throws the [TypeError] of a read on
    [undefined], for a supported format, and writes nothing. *)
Theorem X17_encodeWav_missing_channel (fuel : nat) (format : WaveFormatChunk)
        (info : option TrackInfo) (channels : Datatypes.list (Datatypes.list number))
        (entry : DtypeEntry) (n : nat) :
  dtypes (audioFormat format) (bitsPerChannel format) = Some entry ->
  wave.channels format = Some (Z.of_nat n) ->
  (length channels < n)%nat ->
  channels = [] \/ (0 < length (nth 0 channels []))%nat ->
  encodeWav NumberToString fuel channels_fmt
            {| wav.format := format; wav.info := info; wav.data := channels |}
  = Throw TypeError
  /\ encodeWav NumberToString fuel channels_float32
               {| wav.format := format; wav.info := info; wav.data := channels |}
     = Throw TypeError.
Proof.
  intros Hdtype Hn Hlen Hsamples. destruct entry as [[ty rawMin] rawMax].
  unfold encodeWav. cbn [wav.format wav.info wav.data]. rewrite Hdtype.
  rewrite !(interleave_missing_channel ty _ format channels n Hn Hlen Hsamples).
  split; reflexivity.
Qed.

(** The message of the error that tells the bits per channel. *)
Lemma unsupportedBits_text (bits : Z) :
  0 <= bits < 100000 ->
  unsupportedBits (Some bits)
  = Error (lit "Unsupported bits per channel: " ++ decimalText bits).
Proof.
  intros Hb. unfold unsupportedBits, showField.
  destruct (Z.ltb_spec bits 0); [lia|].
  rewrite toString_decimal by lia. reflexivity.
Qed.

(** X18. A format [dtypes] has no entry for, as 24-bit PCM, whose fields
    fit their places. In the raw modes [encodeWav] writes the file and
    [decodeWav] reads it; in the channel modes [encodeWav] throws the
    error whose message is [Unsupported bits per channel: ] followed by
    the bits per channel in decimal, whatever the channels are, and so
    does [decodeWav] on the file written in a raw mode. *)
Theorem X18_unsupported_bits (fuel : nat) (format : WaveFormatChunk)
        (info : option TrackInfo) (bytes : Datatypes.list byte)
        (channels : Datatypes.list (Datatypes.list number)) (bits : Z) :
  (8 <= fuel)%nat ->
  fits format ->
  bitsPerChannel format = Some bits ->
  dtypes (audioFormat format) (bitsPerChannel format) = None ->
  encodeWav NumberToString fuel channels_fmt
            {| wav.format := format; wav.info := info; wav.data := channels |}
  = Throw (Error (lit "Unsupported bits per channel: " ++ decimalText bits))
  /\ encodeWav NumberToString fuel channels_float32
               {| wav.format := format; wav.info := info; wav.data := channels |}
     = Throw (Error (lit "Unsupported bits per channel: " ++ decimalText bits))
  /\ exists blob,
      encodeWav NumberToString fuel raw_buffer
                {| wav.format := format; wav.info := info; wav.data := bytes |}
      = Return blob
      /\ (size blob < 2 ^ 31 ->
          decodeWav ToNumber fuel blob channels_fmt
          = Throw (Error (lit "Unsupported bits per channel: " ++ decimalText bits))
          /\ decodeWav ToNumber fuel blob channels_float32
             = Throw (Error (lit "Unsupported bits per channel: " ++ decimalText bits))
          /\ exists w, decodeWav ToNumber fuel blob raw_buffer = Return w
                       /\ wav.data w = bytes).
Proof.
  intros Hfuel Hfits Hbits Hdtype.
  assert (unsupportedBits (bitsPerChannel format)
          = Error (lit "Unsupported bits per channel: " ++ decimalText bits)) as Hmsg.
  { destruct Hfits as (_ & _ & _ & _ & z & Hz & Hrange).
    rewrite Hbits in Hz. injection Hz as <-. rewrite Hbits.
    apply unsupportedBits_text. change (2 ^ 16) with 65536 in Hrange. lia. }
  rewrite <- Hmsg.
  split; [unfold encodeWav; cbn [wav.format wav.info wav.data]; rewrite Hdtype; reflexivity|].
  split; [unfold encodeWav; cbn [wav.format wav.info wav.data]; rewrite Hdtype; reflexivity|].
  destruct (wave_file_read_back NumberToString fuel format bytes info Hfuel)
    as (blob & He & Hd).
  exists blob. split; [rewrite encodeWav_raw_buffer; exact He|].
  intros Hsize. specialize (Hd Hsize).
  destruct (findInfo_chunksBack NumberToString format bytes info) as (Hf & Hda & Hi).
  rewrite (readBack_fits format Hfits) in Hf.
  unfold decodeWav. rewrite Hd. cbn [bind content]. rewrite Hf, Hda.
  cbn [bind wave.data bufferOf]. rewrite Hdtype.
  split; [reflexivity|]. split; [reflexivity|].
  eexists. split; reflexivity.
Qed.

(** X19. Data that are not a whole number of elements of the format, as
    three bytes of 16-bit PCM. [encodeWav] writes them in the mode
    [raw-buffer] and [decodeWav] reads them in this mode, but in the
    channel modes [decodeWav] throws the [RangeError] of the typed array
    over the data. *)
Theorem X19_decodeWav_part_of_element (fuel : nat) (format : WaveFormatChunk)
        (info : option TrackInfo) (bytes : Datatypes.list byte)
        (ty : ArrayType) (rawMin rawMax : number) :
  (8 <= fuel)%nat ->
  dtypes (audioFormat format) (bitsPerChannel format) = Some (ty, rawMin, rawMax) ->
  Z.of_nat (length bytes) mod Z.of_nat (BYTES_PER_ELEMENT ty) <> 0 ->
  exists blob,
    encodeWav NumberToString fuel raw_buffer
              {| wav.format := format; wav.info := info; wav.data := bytes |}
    = Return blob
    /\ (size blob < 2 ^ 31 ->
        decodeWav ToNumber fuel blob channels_fmt = Throw RangeError
        /\ decodeWav ToNumber fuel blob channels_float32 = Throw RangeError
        /\ exists w, decodeWav ToNumber fuel blob raw_buffer = Return w
                     /\ wav.data w = bytes).
Proof.
  intros Hfuel Hdtype Hpart.
  destruct (wave_file_read_back NumberToString fuel format bytes info Hfuel)
    as (blob & He & Hd).
  exists blob. split; [rewrite encodeWav_raw_buffer; exact He|].
  intros Hsize. specialize (Hd Hsize).
  destruct (findInfo_chunksBack NumberToString format bytes info) as (Hf & Hda & Hi).
  pose proof (dtypes_readBack format _ Hdtype) as Hdtype'.
  unfold decodeWav. rewrite Hd. cbn [bind content]. rewrite Hf, Hda.
  cbn [bind wave.data bufferOf]. rewrite Hdtype'.
  unfold view. apply Z.eqb_neq in Hpart. rewrite Hpart. cbn [bind].
  split; [reflexivity|]. split; [reflexivity|].
  eexists. split; reflexivity.
Qed.

(** X20. A file of a supported format that tells 0 channels. With data,
    as many whole elements as one likes but at least one, the number of
    samples [decodeWav] computes in the channel modes is infinite, and
    the loop over the samples does not end: [decodeWav] does not return.
    Without data it returns no channel. In the mode [raw-buffer] the file
    is read in both cases. *)
Theorem X20_decodeWav_no_channel (fuel : nat) (format : WaveFormatChunk)
        (info : option TrackInfo) (bytes : Datatypes.list byte)
        (ty : ArrayType) (rawMin rawMax : number) :
  (8 <= fuel)%nat ->
  dtypes (audioFormat format) (bitsPerChannel format) = Some (ty, rawMin, rawMax) ->
  wave.channels format = Some 0 ->
  Z.of_nat (length bytes) mod Z.of_nat (BYTES_PER_ELEMENT ty) = 0 ->
  exists blob,
    encodeWav NumberToString fuel raw_buffer
              {| wav.format := format; wav.info := info; wav.data := bytes |}
    = Return blob
    /\ (size blob < 2 ^ 31 ->
        (exists w, decodeWav ToNumber fuel blob raw_buffer = Return w /\ wav.data w = bytes)
        /\ (bytes <> [] ->
            decodeWav ToNumber fuel blob channels_fmt = Hang
            /\ decodeWav ToNumber fuel blob channels_float32 = Hang)
        /\ (bytes = [] ->
            (exists w, decodeWav ToNumber fuel blob channels_fmt = Return w
                       /\ wav.data w = [])
            /\ (exists w, decodeWav ToNumber fuel blob channels_float32 = Return w
                          /\ wav.data w = []))).
Proof.
  intros Hfuel Hdtype Hn Hwhole.
  destruct (wave_file_read_back NumberToString fuel format bytes info Hfuel)
    as (blob & He & Hd).
  exists blob. split; [rewrite encodeWav_raw_buffer; exact He|].
  intros Hsize. specialize (Hd Hsize).
  destruct (findInfo_chunksBack NumberToString format bytes info) as (Hf & Hda & Hi).
  pose proof (dtypes_readBack format _ Hdtype) as Hdtype'.
  assert (wave.channels (readBack format) = Some 0) as Hn'
      by (unfold readBack; cbn [wave.channels]; rewrite Hn; reflexivity).
  unfold decodeWav. rewrite Hd. cbn [bind content]. rewrite Hf, Hda.
  cbn [bind wave.data bufferOf]. rewrite Hdtype'.
  unfold view. apply Z.eqb_eq in Hwhole. rewrite Hwhole. cbn [bind].
  unfold deinterleave. rewrite Hn'. cbn [Z.eqb].
  split; [eexists; split; reflexivity|]. split.
  - intros Hne.
    destruct (Z.of_nat (length bytes) =? 0) eqn:Hz; [|split; reflexivity].
    apply Z.eqb_eq in Hz. destruct bytes; [contradiction|discriminate].
  - intros ->. cbn [length Z.of_nat Z.eqb bind].
    split; eexists; split; reflexivity.
Qed.

End Refusals.

(** Two channels told, one array given. *)
Lemma X17_encodeWav_missing_channel_witness :
  wav.encodeWav noString 0 wav.channels_fmt
    {| wav.format := stereo16; wav.info := None; wav.data := [[number.ofZ 1]] |}
  = Throw TypeError
  /\ wav.encodeWav noString 0 wav.channels_float32
       {| wav.format := stereo16; wav.info := None; wav.data := [[number.ofZ 1]] |}
     = Throw TypeError.
Proof.
  apply (X17_encodeWav_missing_channel noString 0 stereo16 None [[number.ofZ 1]]
           (number.Int16Array, number.ofZ (-32768), number.ofZ 32767) 2).
  - reflexivity.
  - reflexivity.
  - cbn. lia.
  - right. cbn. lia.
Defined.

(** One channel of 24-bit PCM. *)
Lemma X18_unsupported_bits_witness :
  wav.encodeWav noString 8 wav.channels_fmt
    {| wav.format := mono24; wav.info := None; wav.data := [[number.ofZ 1]] |}
  = Throw (Error (lit "Unsupported bits per channel: 24"))
  /\ wav.encodeWav noString 8 wav.channels_float32
       {| wav.format := mono24; wav.info := None; wav.data := [[number.ofZ 1]] |}
     = Throw (Error (lit "Unsupported bits per channel: 24"))
  /\ exists blob,
      wav.encodeWav noString 8 wav.raw_buffer
        {| wav.format := mono24; wav.info := None; wav.data := [x01; x02; x03] |}
      = Return blob
      /\ (size blob < 2 ^ 31 ->
          wav.decodeWav noNumber 8 blob wav.channels_fmt
          = Throw (Error (lit "Unsupported bits per channel: 24"))
          /\ wav.decodeWav noNumber 8 blob wav.channels_float32
             = Throw (Error (lit "Unsupported bits per channel: 24"))
          /\ exists w, wav.decodeWav noNumber 8 blob wav.raw_buffer = Return w
                       /\ wav.data w = [x01; x02; x03]).
Proof.
  apply (X18_unsupported_bits noNumber noString 8 mono24 None [x01; x02; x03]
           [[number.ofZ 1]] 24).
  - lia.
  - unfold fits, field. cbn. repeat split; eexists; (split; [reflexivity|lia]).
  - reflexivity.
  - reflexivity.
Defined.

(** Three bytes of data in a file of 16-bit PCM. *)
Lemma X19_decodeWav_part_of_element_witness :
  exists blob,
    wav.encodeWav noString 8 wav.raw_buffer
      {| wav.format := mono16; wav.info := None; wav.data := [x01; x02; x03] |}
    = Return blob
    /\ (size blob < 2 ^ 31 ->
        wav.decodeWav noNumber 8 blob wav.channels_fmt = Throw RangeError
        /\ wav.decodeWav noNumber 8 blob wav.channels_float32 = Throw RangeError
        /\ exists w, wav.decodeWav noNumber 8 blob wav.raw_buffer = Return w
                     /\ wav.data w = [x01; x02; x03]).
Proof.
  apply (X19_decodeWav_part_of_element noNumber noString 8 mono16 None [x01; x02; x03]
           number.Int16Array (number.ofZ (-32768)) (number.ofZ 32767)).
  - lia.
  - reflexivity.
  - cbn. lia.
Defined.

(** Four bytes of data in a file of 16-bit PCM without channel. *)
Lemma X20_decodeWav_no_channel_witness :
  exists blob,
    wav.encodeWav noString 8 wav.raw_buffer
      {| wav.format := noChannel16; wav.info := None; wav.data := [x01; x02; x03; x04] |}
    = Return blob
    /\ (size blob < 2 ^ 31 ->
        (exists w, wav.decodeWav noNumber 8 blob wav.raw_buffer = Return w
                   /\ wav.data w = [x01; x02; x03; x04])
        /\ ([x01; x02; x03; x04] <> [] ->
            wav.decodeWav noNumber 8 blob wav.channels_fmt = Hang
            /\ wav.decodeWav noNumber 8 blob wav.channels_float32 = Hang)
        /\ ([x01; x02; x03; x04] = [] ->
            (exists w, wav.decodeWav noNumber 8 blob wav.channels_fmt = Return w
                       /\ wav.data w = [])
            /\ (exists w, wav.decodeWav noNumber 8 blob wav.channels_float32 = Return w
                          /\ wav.data w = []))).
Proof.
  apply (X20_decodeWav_no_channel noNumber noString 8 noChannel16 None
           [x01; x02; x03; x04] number.Int16Array (number.ofZ (-32768)) (number.ofZ 32767)).
  - lia.
  - reflexivity.
  - reflexivity.
  - reflexivity.
Defined.

(* ===================================================================== *)
(** * The ends of the range                                                *)
(* ===================================================================== *)

Section FullScale.

Import riff wave number wav.

Lemma denormalized_sameNumber (rawMin rawMax p q : number) :
  sameNumber p q -> denormalized rawMin rawMax p = denormalized rawMin rawMax q.
Proof.
  unfold sameNumber, denormalized. intros H. unfold add at 2 4. rewrite H. reflexivity.
Qed.

(** The two ends of the range in every format [dtypes] has an entry
    for. *)
Lemma full_scale_values (a : WaveAudioFormat) (bits : option Z) (ty : ArrayType)
      (rawMin rawMax : number) :
  dtypes a bits = Some (ty, rawMin, rawMax) ->
  sameNumber (element ty (elementBytes ty (store ty (denormalized rawMin rawMax (ofZ (-1))))))
             rawMin
  /\ sameNumber (element ty (elementBytes ty (store ty (denormalized rawMin rawMax (ofZ 1)))))
                rawMax
  /\ sameNumber (quantized ty rawMin rawMax (ofZ (-1))) (ofZ (-1))
  /\ sameNumber (quantized ty rawMin rawMax (ofZ 1)) (ofZ 1).
Proof.
  unfold dtypes. intros Hd.
  destruct a; destruct bits as [[|b|b]|]; try discriminate;
    repeat (destruct b as [b|b|]; try discriminate);
    injection Hd as <- <- <-; repeat split; vm_compute; reflexivity.
Qed.

Lemma sample8_inUnit (b : byte) : inUnit (sample8 b) = true.
Proof. destruct b; vm_compute; reflexivity. Qed.

Lemma sample8_element (bytes : Datatypes.list byte) (b : byte) :
  bytes = [b] ->
  store Float32Array (normalized (ofZ 0) (ofZ 255) (element Uint8Array bytes)) = sample8 b.
Proof. intros ->. unfold sample8. reflexivity. Qed.

Variable ToNumber : jsstring -> number.

Variable NumberToString : number -> jsstring.

(** X21. Full scale in every format [dtypes] has an entry for. Channels
    all of whose samples are -1 or 1 go through [encodeWav] in the mode
    [channels-float32]; from the file, [decodeWav] in the same mode gives
    every sample back with the very same value, and in the mode
    [channels-fmt] it gives the least raw value of the format for the
    sample -1 and the greatest for the sample 1. *)
Theorem X21_full_scale (fuel : nat) (format : WaveFormatChunk) (info : option TrackInfo)
        (channels : Datatypes.list (Datatypes.list number))
        (ty : ArrayType) (rawMin rawMax : number) (n samples : nat) :
  (8 <= fuel)%nat ->
  dtypes (audioFormat format) (bitsPerChannel format) = Some (ty, rawMin, rawMax) ->
  wave.channels format = Some (Z.of_nat n) ->
  (1 <= n)%nat -> Z.of_nat n < 2 ^ 16 ->
  length channels = n ->
  Forall (fun channel => length channel = samples) channels ->
  Forall (Forall fullScale) channels ->
  exists blob,
    encodeWav NumberToString fuel channels_float32
              {| wav.format := format; wav.info := info; wav.data := channels |}
    = Return blob
    /\ (size blob < 2 ^ 31 ->
        (exists w,
            decodeWav ToNumber fuel blob channels_float32 = Return w
            /\ length (wav.data w) = n
            /\ Forall (fun channel => length channel = samples) (wav.data w)
            /\ forall i c, (i < samples)%nat -> (c < n)%nat ->
                           sameNumber (nth i (nth c (wav.data w) []) NaN)
                                      (nth i (nth c channels []) NaN))
        /\ (exists w,
               decodeWav ToNumber fuel blob channels_fmt = Return w
               /\ length (wav.data w) = n
               /\ Forall (fun channel => length channel = samples) (wav.data w)
               /\ forall i c, (i < samples)%nat -> (c < n)%nat ->
                              sameEnd rawMin rawMax
                                      (nth i (nth c channels []) NaN)
                                      (nth i (nth c (wav.data w) []) NaN))).
Proof.
  intros Hfuel Hdtype Hn Hn1 Hn16 Hlen Hsamples Hfull.
  destruct (channels_read_back NumberToString ToNumber fuel format info channels ty
              rawMin rawMax n samples Hdtype Hn Hn1 Hn16 Hlen Hsamples)
    as (blob & Henc & _ & _ & Hret & Hback).
  exists blob. split; [exact Henc|]. intros Hsz.
  destruct (Hret Hsz Hfuel) as (rest & Hrest).
  destruct (Hback ltac:(lia)) as [_ Hsuf].
  destruct (Hsuf rest Hrest)
    as ((w & Hdec & Hcl & Hcls & Hcv) & (w' & Hdec' & Hcl' & Hcls' & Hcv')).
  destruct (full_scale_values _ _ _ _ _ Hdtype) as (Hmin & Hmax & Hlow & Hhigh).
  assert (forall i c, (i < samples)%nat -> (c < n)%nat ->
                      fullScale (nth i (nth c channels []) NaN)) as Hp.
  { intros i c Hi Hc. rewrite Forall_forall in Hfull, Hsamples.
    assert (In (nth c channels []) channels) as Hin by (apply nth_In; lia).
    specialize (Hfull _ Hin). rewrite Forall_forall in Hfull.
    apply Hfull. apply nth_In. rewrite (Hsamples _ Hin). exact Hi. }
  split.
  - exists w. split; [exact Hdec|]. split; [exact Hcl|]. split; [exact Hcls|].
    intros i c Hi Hc. rewrite (Hcv i c Hi Hc).
    destruct (Hp i c Hi Hc) as [H|H];
      unfold quantized; rewrite (denormalized_sameNumber _ _ _ _ H);
      unfold sameNumber in *; rewrite H; [exact Hlow | exact Hhigh].
  - exists w'. split; [exact Hdec'|]. split; [exact Hcl'|]. split; [exact Hcls'|].
    intros i c Hi Hc. rewrite (Hcv' i c Hi Hc). split; intros H;
      rewrite (denormalized_sameNumber _ _ _ _ H); [exact Hmin | exact Hmax].
Qed.

(** X22. The samples [decodeWav] gives in the mode [channels-float32] for
    a file of 8-bit PCM: whatever the bytes of the data are, every sample
    is a number from -1 to 1. *)
Theorem X22_decodeWav_8bit_range (fuel : nat) (blob : Blob)
        (file : riff.RiffFile WaveRiffChunk) (format : WaveFormatChunk)
        (buffer : Datatypes.list byte) (n : nat) :
  decodeRiff (Some (waveCodec fuel)) blob true = Return file ->
  findFormat (content file) = Some format ->
  findData (content file) = Some {| wave.data := PartBlob buffer |} ->
  audioFormat format = PCM ->
  bitsPerChannel format = Some 8 ->
  wave.channels format = Some (Z.of_nat n) ->
  (1 <= n)%nat ->
  exists w,
    decodeWav ToNumber fuel blob channels_float32 = Return w
    /\ length (wav.data w) = n
    /\ forall i c, (i < length buffer / n)%nat -> (c < n)%nat ->
                   length (nth c (wav.data w) []) = (length buffer / n)%nat
                   /\ inUnit (nth i (nth c (wav.data w) []) NaN) = true.
Proof.
  intros Hfile Hformat Hdata Hpcm Hbits Hn Hn1.
  destruct (decodeWav_layout ToNumber fuel blob file format buffer Uint8Array
              (ofZ 0) (ofZ 255) n (length buffer) Hfile Hformat Hdata)
    as (_ & chs & Hdec & Hcl & Hcls & Hcv); try assumption.
  - rewrite Hpcm, Hbits. reflexivity.
  - cbn [BYTES_PER_ELEMENT]. lia.
  - eexists. split; [exact Hdec|]. cbn [wav.data]. split; [exact Hcl|].
    intros i c Hi Hc. split; [apply Hcls; exact Hc|].
    rewrite (Hcv i c Hi Hc). unfold rawElement. cbn [BYTES_PER_ELEMENT].
    rewrite Nat.mul_1_r.
    assert (i * n + c < length buffer)%nat as Hk.
    { pose proof (Nat.div_mod_eq (length buffer) n). nia. }
    destruct (skipn (i * n + c) buffer) as [|b rest] eqn:Hskip.
    + apply (f_equal (@length byte)) in Hskip. rewrite length_skipn in Hskip.
      cbn [length] in Hskip. lia.
    + rewrite (sample8_element (firstn 1 (b :: rest)) b eq_refl). apply sample8_inUnit.
Qed.

End FullScale.

(** Two channels of 16-bit PCM, two samples each. *)
Lemma X21_full_scale_witness :
  exists blob,
    wav.encodeWav noString 8 wav.channels_float32
      {| wav.format := stereo16; wav.info := None;
         wav.data := [[number.ofZ 1; number.ofZ (-1)]; [number.ofZ (-1); number.ofZ 1]] |}
    = Return blob
    /\ (size blob < 2 ^ 31 ->
        (exists w,
            wav.decodeWav noNumber 8 blob wav.channels_float32 = Return w
            /\ length (wav.data w) = 2%nat
            /\ Forall (fun channel => length channel = 2%nat) (wav.data w)
            /\ forall i c, (i < 2)%nat -> (c < 2)%nat ->
                           sameNumber (nth i (nth c (wav.data w) []) number.NaN)
                                      (nth i (nth c [[number.ofZ 1; number.ofZ (-1)];
                                                     [number.ofZ (-1); number.ofZ 1]] [])
                                           number.NaN))
        /\ (exists w,
               wav.decodeWav noNumber 8 blob wav.channels_fmt = Return w
               /\ length (wav.data w) = 2%nat
               /\ Forall (fun channel => length channel = 2%nat) (wav.data w)
               /\ forall i c, (i < 2)%nat -> (c < 2)%nat ->
                              sameEnd (number.ofZ (-32768)) (number.ofZ 32767)
                                      (nth i (nth c [[number.ofZ 1; number.ofZ (-1)];
                                                     [number.ofZ (-1); number.ofZ 1]] [])
                                           number.NaN)
                                      (nth i (nth c (wav.data w) []) number.NaN))).
Proof.
  apply (X21_full_scale noNumber noString 8 stereo16 None
           [[number.ofZ 1; number.ofZ (-1)]; [number.ofZ (-1); number.ofZ 1]]
           number.Int16Array (number.ofZ (-32768)) (number.ofZ 32767) 2 2).
  - lia.
  - reflexivity.
  - reflexivity.
  - lia.
  - vm_compute. reflexivity.
  - reflexivity.
  - repeat constructor.
  - repeat constructor; (left; reflexivity) || (right; reflexivity).
Defined.

(** A file of one channel of 8-bit PCM with the bytes 0, 128 and 255. *)
Lemma X22_decodeWav_8bit_range_witness :
  exists w,
    wav.decodeWav noNumber 0 mono8Wave wav.channels_float32 = Return w
    /\ length (wav.data w) = 1%nat
    /\ forall i c, (i < length [x00; x80; xff] / 1)%nat -> (c < 1)%nat ->
                   length (nth c (wav.data w) []) = (length [x00; x80; xff] / 1)%nat
                   /\ inUnit (nth i (nth c (wav.data w) []) number.NaN) = true.
Proof.
  apply (X22_decodeWav_8bit_range noNumber 0 mono8Wave
           {| riff.type := lit "WAVE";
              riff.content :=
                [wave.FormatChunk mono8;
                 wave.DataChunk {| wave.data := riff.PartBlob [x00; x80; xff] |}];
              riff.unknowns := [] |}
           mono8 [x00; x80; xff] 1);
    vm_compute; reflexivity.
Defined.

(* ===================================================================== *)
(** * Channels that are typed arrays of the format                         *)
(* ===================================================================== *)

Section TypedChannels.

Import riff wave number wav.






Variable ToNumber : jsstring -> number.
Variable NumberToString : number -> jsstring.


End TypedChannels.


(* ===================================================================== *)
(** * The chunks [decodeWav] looks at                                      *)
(* ===================================================================== *)

Section KnownChunks.

Import riff wave number wav.

Lemma bind_ext {A B} (m : result A) (f g : A -> result B) :
  (forall a, f a = g a) -> bind m f = bind m g.
Proof. intros Hfg. destruct m; cbn [bind]; [apply Hfg|reflexivity|reflexivity]. Qed.

(** What comes of the content of the chunks depends on the records with
    a codec only. *)
Lemma decodeRecords_known {T B : Type} (codecs : option (RiffChunkCodecs T))
      (K : Datatypes.list T -> result B) (records : Datatypes.list (jsstring * Blob)) :
  forall content unknowns unknowns',
    bind (decodeRecords codecs records content unknowns) (fun p => K (fst p))
    = bind (decodeRecords codecs (filter (hasCodec codecs) records) content unknowns')
           (fun p => K (fst p)).
Proof.
  induction records as [|[i payload] records IH]; intros content unknowns unknowns';
    [reflexivity|].
  cbn [filter]. unfold hasCodec at 1. cbn [fst]. cbn [decodeRecords].
  destruct (lookup codecs i) as [codec|] eqn:Hl.
  - cbn [decodeRecords]. rewrite Hl.
    destruct (decode codec payload) as [data|e|]; cbn [bind]; [apply IH|reflexivity|reflexivity].
  - apply IH.
Qed.

Variable ToNumber : jsstring -> number.

(** X24. [decodeWav] looks at the chunks whose id has a codec ([fmt ],
    [data] and [LIST]) and at nothing else of the container: of two
    containers with well-formed records whose records with these ids are
    the same, in the same order, it makes the same result, or fails in
    the same way, whatever the type of the container is (it need not be
    [WAVE]) and whatever chunks with other ids stand before, between or
    after them. *)
Theorem X24_decodeWav_known_chunks (fuel : nat) (ty1 ty2 : jsstring)
        (records1 records2 : Datatypes.list (jsstring * Blob)) (mode : Mode) :
  tag ty1 -> tag ty2 ->
  Forall wellFormed records1 -> Forall wellFormed records2 ->
  size (container ty1 records1) < 2 ^ 32 ->
  size (container ty2 records2) < 2 ^ 32 ->
  filter (hasCodec (Some (waveCodec fuel))) records1
  = filter (hasCodec (Some (waveCodec fuel))) records2 ->
  decodeWav ToNumber fuel (container ty1 records1) mode
  = decodeWav ToNumber fuel (container ty2 records2) mode.
Proof.
  intros Hty1 Hty2 Hwf1 Hwf2 Hs1 Hs2 Hknown.
  rewrite size_container in Hs1, Hs2.
  unfold decodeWav, container.
  rewrite !decodeRiff_container by (assumption || lia).
  rewrite !bind_assoc.
  match goal with
  | |- bind _ ?F1 = bind _ ?F2 =>
      rewrite (bind_ext _ F1 (fun p => F1 (fst p, [])))
        by (intros [c u]; reflexivity);
      rewrite (bind_ext _ F2 (fun p => F1 (fst p, [])))
        by (intros [c u]; reflexivity)
  end.
  match goal with
  | |- bind _ ?G = _ =>
      etransitivity;
      [apply (decodeRecords_known (Some (waveCodec fuel)) (fun c => G (c, []))
                records1 [] [] [])|];
      symmetry; etransitivity;
      [apply (decodeRecords_known (Some (waveCodec fuel)) (fun c => G (c, []))
                records2 [] [] [])|]
  end.
  rewrite Hknown. reflexivity.
Qed.

End KnownChunks.

(** A [fmt ] chunk and a [data] chunk in a container of type [WAVE], and
    the same two chunks among chunks with other ids in a container of
    type [AVI ]. *)
Lemma X24_decodeWav_known_chunks_witness :
  let fmtBytes := [x01; x00; x01; x00; x44; xac; x00; x00;
                   x88; x58; x01; x00; x02; x00; x10; x00] in
  wav.decodeWav noNumber 0
    (container (lit "WAVE") [(lit "fmt ", fmtBytes); (lit "data", [x01; x02])])
    wav.raw_blob
  = wav.decodeWav noNumber 0
      (container (lit "AVI ")
         [(lit "JUNK", [x00]); (lit "fmt ", fmtBytes); (lit "smpl", []);
          (lit "data", [x01; x02]); (lit "cue ", [x03; x04; x05])])
      wav.raw_blob.
Proof.
  apply (X24_decodeWav_known_chunks noNumber 0 (lit "WAVE") (lit "AVI ")).
  - split; [reflexivity|]. repeat constructor; cbn; lia.
  - split; [reflexivity|]. repeat constructor; cbn; lia.
  - repeat constructor; cbn; lia.
  - repeat constructor; cbn; lia.
  - vm_compute. reflexivity.
  - vm_compute. reflexivity.
  - reflexivity.
Defined.
